(** * The adaptive quiz engine of bot.py

    A shallow embedding of the question selector and of the progression
    engine of [bot.py], and the properties of its specification that hold, or
    fail, on it.

    - The SQLite file [bot.db] is a record of tables.  Every function of the
      source that opens a connection is a computation in a monad with an
      environment, a state and exceptions.  A statement on a table that was
      never created raises [OperationalError], as SQLite does.
    - Weights are Python floats: binary64, here Rocq's primitive floats.  The
      selector is written over the numeric operations it uses; what is proved
      of it for any such operations holds for floats, and what depends on
      rounding is stated on floats.
    - [time.time()], [random.random()] and [random.choice] are answered by
      the environment a handler runs in.  The clock is read once per handler
      call: the columns it fills ([last_seen], [timestamp]) are never read.
    - Streak counters are Python integers ([Z]); the 64-bit range of an SQLite
      INTEGER column is not modelled.
    - Handlers run one after the other: the interleaving of coroutines is not
      modelled.  What a handler sends is kept as a list of messages; a send
      never fails.
    - Callback data reaches a handler split at its bars, as [data.split]
      returns it. *)

From Stdlib Require Import ZArith QArith Floats Lia Lqa.
From stdpp Require Import gmap strings list fin_maps.

#[local] Set Warnings "-inexact-float".
#[local] Open Scope Z_scope.
#[local] Open Scope string_scope.
#[local] Open Scope list_scope.

(** ** The question bank (QDB) *)

(** One entry of a topic's question lists: [q["id"]], [q["question"]],
    [q["options"]] and [q["answer"]]. *)
Record question := Question {
  q_id : string;
  q_text : string;
  q_options : list string;
  q_answer : string
}.

(** A topic of questions.json: its theory text and its questions by level
    name.  [questions] is a dict: a level may be missing. *)
Record topic_entry := Topic {
  theory : string;
  questions : gmap string (list question)
}.

(** [QDB = json.load(f)["topics"]]: a dict, which keeps insertion order; the
    keys are pairwise distinct.  Lookup returns the first binding. *)
Definition bank := list (string * topic_entry).

Definition bank_keys (b : bank) : list string := map fst b.

Fixpoint bank_get (b : bank) (t : string) : option topic_entry :=
  match b with
  | [] => None
  | (k, e) :: b' => if decide (k = t) then Some e else bank_get b' t
  end.

(** [entry["questions"].get(level, [])] *)
Definition questions_at (e : topic_entry) (level : string) : list question :=
  default [] (questions e !! level).

(** ** Exceptions and results *)

Inductive exn :=
| KeyError (key : string)
| TypeError
| ValueError
| IndexError
| OperationalError.

Inductive result (A : Type) :=
| Ok (a : A)
| Raise (e : exn).
Arguments Ok {A} a.
Arguments Raise {A} e.

(** ** Numbers of the selector *)

(** The operations [choose_question] applies to weights: the literals [0]
    and [1.0], [+], [*] and [>=]. *)
Class Num (N : Type) := {
  nzero : N;
  nunit : N;
  nadd : N -> N -> N;
  nmul : N -> N -> N;
  nge : N -> N -> bool
}.

(** Python floats.  [x >= y] is false as soon as one side is NaN, like
    [PrimFloat.leb]. *)
#[export] Instance float_num : Num float := {|
  nzero := 0%float;
  nunit := 1%float;
  nadd := PrimFloat.add;
  nmul := PrimFloat.mul;
  nge x y := PrimFloat.leb y x
|}.

(** What [choose_question] returns besides [None]: the pair [t, q] of the
    walk (line 149), or an element of [pool], which is a triple (line 151). *)
Inductive chosen (N : Type) :=
| Pair (t : string) (q : question)
| Triple (t : string) (q : question) (w : N).
Arguments Pair {N} t q.
Arguments Triple {N} t q w.

Section Selector.
Context (QDB : bank).
Context {N : Type} `{Num N}.

(** The inner loop of lines 140-141: [pool.append((t, q, weights.get(t, 1.0)))]. *)
Definition pool_of_topic (t : string) (qs : list question)
    (weights : gmap string N) : list (string * question * N) :=
  map (fun q => (t, q, default nunit (weights !! t))) qs.

(** The outer loop of lines 138-141; [QDB[t]] raises KeyError. *)
Fixpoint build_pool (topics : list string) (difficulty : string)
    (weights : gmap string N) : result (list (string * question * N)) :=
  match topics with
  | [] => Ok []
  | t :: rest =>
      match bank_get QDB t with
      | None => Raise (KeyError t)
      | Some e =>
          match build_pool rest difficulty weights with
          | Ok pool => Ok (pool_of_topic t (questions_at e difficulty) weights ++ pool)
          | Raise x => Raise x
          end
      end
  end.

(** Line 137. *)
Definition topics_in_scope (topic : string) : list string :=
  if decide (topic = "Mixed") then bank_keys QDB else [topic].

(** [sum(w for _, _, w in pool)]: the weights added from the left, starting
    at [0].  (CPython 3.12 and later add floats with a compensation of the
    rounding error; that is not modelled.) *)
Definition pool_total (pool : list (string * question * N)) : N :=
  fold_left (fun acc e => nadd acc (snd e)) pool nzero.

(** Lines 146-150: the walk; [None] when the loop ends without returning. *)
Fixpoint walk (pool : list (string * question * N)) (upto r : N)
    : option (string * question) :=
  match pool with
  | [] => None
  | (t, q, w) :: rest =>
      if nge (nadd upto w) r then Some (t, q) else walk rest (nadd upto w) r
  end.

(** Lines 142-151 on a pool, given the value [u] of [random.random()] and
    the number [k] from which [random.choice] takes its index. *)
Definition select (pool : list (string * question * N)) (u : N) (k : nat)
    : option (chosen N) :=
  match pool with
  | [] => None
  | _ :: _ =>
      let total := pool_total pool in
      let r := nmul u total in
      match walk pool nzero r with
      | Some (t, q) => Some (Pair t q)
      | None =>
          match pool !! (k mod length pool)%nat with
          | Some (t, q, w) => Some (Triple t q w)
          | None => None
          end
      end
  end.

(** [choose_question(topic, difficulty, weights)] with its two random
    draws as arguments. *)
Definition choose_question (topic difficulty : string)
    (weights : gmap string N) (u : N) (k : nat) : result (option (chosen N)) :=
  match build_pool (topics_in_scope topic) difficulty weights with
  | Raise x => Raise x
  | Ok pool => Ok (select pool u k)
  end.
End Selector.

(** ** The database bot.db *)

(** A row of table [users], without its key [id]. *)
Record user_row := User {
  username : string;
  difficulty : string;
  correct_streak : Z;
  wrong_streak : Z;
  active_topic : string
}.

(** A row of table [topic_stats], without its key [(user_id, topic)]. *)
Record stat_row := Stat {
  weight : float;
  last_seen : Z
}.

(** A row of table [attempts]. *)
Record attempt_row := Attempt {
  a_user : Z;
  a_qid : string;
  a_correct : Z;
  a_timestamp : Z
}.

(** The two tables [ensure_user] creates, each keyed by its primary key;
    [topic_stats] is keyed by [user_id], then by [topic]. *)
Record tables := Tables {
  users : gmap Z user_row;
  topic_stats : gmap Z (gmap string stat_row)
}.

(** What a handler may send. *)
Inductive reply :=
| MsgWelcome
| MsgTopicMenu
| MsgProgress (u : user_row) (weights : gmap string float)
| MsgTheory (topic text : string)
| MsgStarting
| MsgSkipped
| MsgNoQuestions
| MsgQuestion (topic : string) (q : question)
| MsgCorrect
| MsgWrong (answer : string)
| MsgIncreased (level : string)
| MsgDecreased (level : string)
| AlertNotFound
| Ack.

(** The state handlers act on.  [db = None]: the tables [users] and
    [topic_stats] do not exist yet.  Table [attempts] is created by its only
    writer, so its existence is not observable; its rows are kept oldest
    first.  [outbox] lists the messages sent, oldest first. *)
Record world := World {
  db : option tables;
  attempts : list attempt_row;
  outbox : list reply
}.

(** What the environment answers during one handler call. *)
Record env := Env {
  now : Z;
  rand : float;
  pick : nat
}.

(** ** The monad of handlers: environment, state, exceptions *)

Definition M (A : Type) : Type := env -> world -> result A * world.

Definition ret {A} (a : A) : M A := fun _ w => (Ok a, w).
Definition raise {A} (e : exn) : M A := fun _ w => (Raise e, w).
Definition bind {A B} (m : M A) (k : A -> M B) : M B :=
  fun ε w =>
    match m ε w with
    | (Ok a, w') => k a ε w'
    | (Raise e, w') => (Raise e, w')
    end.

Notation "'do' x <- m ; k" := (bind m (fun x => k))
  (at level 10, x name, m at level 100, k at level 200).
Notation "m ;; k" := (bind m (fun _ => k))
  (at level 100, k at level 200, right associativity).

Definition lift {A} (r : result A) : M A := fun _ w => (r, w).
Definition ask {A} (f : env -> A) : M A := fun ε w => (Ok (f ε), w).

(** A statement on [users] or [topic_stats]. *)
Definition read_tables : M tables :=
  fun _ w =>
    match db w with
    | Some t => (Ok t, w)
    | None => (Raise OperationalError, w)
    end.

Definition write_tables (t : tables) : M unit :=
  fun _ w => (Ok tt, World (Some t) (attempts w) (outbox w)).

(** The two [CREATE TABLE IF NOT EXISTS] of [ensure_user]. *)
Definition create_tables : M unit :=
  fun _ w =>
    (Ok tt, World (Some (default (Tables ∅ ∅) (db w))) (attempts w) (outbox w)).

Definition insert_attempt (a : attempt_row) : M unit :=
  fun _ w => (Ok tt, World (db w) (attempts w ++ [a]) (outbox w)).

Definition send (r : reply) : M unit :=
  fun _ w => (Ok tt, World (db w) (attempts w) (outbox w ++ [r])).

(** [x[...]] on the result of [get_user]: TypeError on [None]. *)
Definition subscript {A} (x : option A) : M A :=
  match x with
  | Some a => ret a
  | None => raise TypeError
  end.

(** [parts[i]] *)
Definition item (parts : list string) (i : nat) : M string :=
  match parts !! i with
  | Some s => ret s
  | None => raise IndexError
  end.

Fixpoint for_each {A} (l : list A) (body : A -> M unit) : M unit :=
  match l with
  | [] => ret tt
  | a :: l' => body a ;; for_each l' body
  end.

(** [INSERT OR REPLACE INTO topic_stats VALUES(user_id, topic, w, ts)] *)
Definition put_stat (user_id : Z) (topic : string) (r : stat_row)
    (t : tables) : tables :=
  Tables (users t)
         (<[user_id := <[topic := r]> (default ∅ (topic_stats t !! user_id))]>
            (topic_stats t)).

Definition get_stat (user_id : Z) (topic : string) (t : tables) : option stat_row :=
  default ∅ (topic_stats t !! user_id) !! topic.

(** The keyword arguments of [update_user]. *)
Record user_update := Update {
  set_difficulty : option string;
  set_correct_streak : option Z;
  set_wrong_streak : option Z;
  set_active_topic : option string
}.

Definition apply_update (k : user_update) (u : user_row) : user_row :=
  User (username u)
       (default (difficulty u) (set_difficulty k))
       (default (correct_streak u) (set_correct_streak k))
       (default (wrong_streak u) (set_wrong_streak k))
       (default (active_topic u) (set_active_topic k)).

(** Whether [kwargs] is not empty. *)
Definition names_column (k : user_update) : bool :=
  match k with
  | Update None None None None => false
  | _ => true
  end.

(** Python's [max(a, b)]: [b] when [b > a], else [a]. *)
Definition py_max (a b : float) : float :=
  if PrimFloat.ltb a b then b else a.

Definition levels : list string := ["easy"; "medium"; "hard"].

(** [levels.index(x)]: ValueError when [x] is not in the list. *)
Fixpoint index_from (l : list string) (x : string) (i : nat) : option nat :=
  match l with
  | [] => None
  | y :: l' => if decide (y = x) then Some i else index_from l' x (S i)
  end.

Definition index (l : list string) (x : string) : M nat :=
  match index_from l x 0 with
  | Some i => ret i
  | None => raise ValueError
  end.

Section Bot.
Context (QDB : bank).

(** *** Database setup and user management (lines 39-132) *)

Definition ensure_user (user_id : Z) (name : option string) : M unit :=
  create_tables ;;
  do t <- read_tables ;
  match users t !! user_id with
  | Some _ => ret tt
  | None =>
      write_tables
        (Tables (<[user_id := User (default "" name) "easy" 0 0 "Mixed"]> (users t))
                (topic_stats t)) ;;
      for_each (bank_keys QDB) (fun topic =>
        do ts <- ask now ;
        do t <- read_tables ;
        write_tables (put_stat user_id topic (Stat 1 ts) t))
  end.

Definition get_user (user_id : Z) : M (option user_row) :=
  do t <- read_tables ;
  ret (users t !! user_id).

(** [UPDATE users SET ... WHERE id = ?].  Called with no keyword argument,
    the statement is [UPDATE users SET  WHERE id = ?], which SQLite refuses
    with OperationalError. *)
Definition update_user (user_id : Z) (k : user_update) : M unit :=
  if names_column k then
    do t <- read_tables ;
    write_tables (Tables (alter (apply_update k) user_id (users t)) (topic_stats t))
  else raise OperationalError.

Definition get_topic_weights (user_id : Z) : M (gmap string float) :=
  do t <- read_tables ;
  ret (weight <$> default ∅ (topic_stats t !! user_id)).

Definition update_topic_weight (user_id : Z) (topic : string) (delta : float)
    : M unit :=
  do t <- read_tables ;
  let w := match get_stat user_id topic t with
           | Some row => weight row
           | None => 1%float
           end in
  let w := py_max 0.1 (w + delta) in
  do ts <- ask now ;
  write_tables (put_stat user_id topic (Stat w ts) t).

Definition record_attempt (user_id : Z) (qid : string) (correct : bool) : M unit :=
  do ts <- ask now ;
  insert_attempt (Attempt user_id qid (if correct then 1 else 0) ts).

(** *** Question logic (lines 135-172) *)

Definition send_question (user_id : Z) (topic level : string) : M unit :=
  do weights <- get_topic_weights user_id ;
  do u <- ask rand ;
  do k <- ask pick ;
  do chosen <- lift (choose_question QDB topic level weights u k) ;
  match chosen with
  | None => send MsgNoQuestions
  | Some (Pair t q) => send (MsgQuestion t q)
  | Some (Triple _ _ _) => raise ValueError
  end.

(** *** Handlers (lines 175-303) *)

Definition cmd_start (user_id : Z) (name : option string) : M unit :=
  ensure_user user_id name ;;
  send MsgWelcome.

Definition menu_quiz (user_id : Z) (name : option string) : M unit :=
  ensure_user user_id name ;;
  send MsgTopicMenu.

Definition menu_progress (user_id : Z) (name : option string) : M unit :=
  do u <- get_user user_id ;
  do u <- match u with
          | Some _ => ret u
          | None => ensure_user user_id name ;; get_user user_id
          end ;
  do weights <- get_topic_weights user_id ;
  do u <- subscript u ;
  send (MsgProgress u weights).

Definition cb_start_quiz (parts : list string) (user_id : Z)
    (name : option string) : M unit :=
  do topic <- item parts 1 ;
  ensure_user user_id name ;;
  update_user user_id (Update None None None (Some topic)) ;;
  do u <- get_user user_id ;
  (if decide (topic = "Mixed") then ret tt
   else
     match bank_get QDB topic with
     | Some e => send (MsgTheory topic (theory e))
     | None => raise (KeyError topic)
     end) ;;
  send MsgStarting ;;
  do u <- subscript u ;
  send_question user_id topic (difficulty u) ;;
  send Ack.

(** The generator of lines 272-276: the first question of [topic] with id
    [qid], levels read in the order easy, medium, hard. *)
Definition find_question (topic qid : string) : M (option question) :=
  match bank_get QDB topic with
  | None => raise (KeyError topic)
  | Some e =>
      ret (find (fun qq => bool_decide (q_id qq = qid))
                (concat (map (questions_at e) ["easy"; "medium"; "hard"])))
  end.

Definition cb_answer (parts : list string) (user_id : Z) : M unit :=
  do cmd <- item parts 0 ;
  do topic <- item parts 1 ;
  do qid <- item parts 2 ;
  do u <- get_user user_id ;
  if decide (cmd = "skip") then
    send MsgSkipped ;;
    do u <- subscript u ;
    send_question user_id (active_topic u) (difficulty u) ;;
    send Ack
  else
    do selected <- item parts 3 ;
    do q <- find_question topic qid ;
    match q with
    | None => send AlertNotFound
    | Some q =>
        let correct := bool_decide (selected = q_answer q) in
        record_attempt user_id qid correct ;;
        (if correct then
           do u <- subscript u ;
           update_user user_id
             (Update None (Some (correct_streak u + 1)) (Some 0) None) ;;
           update_topic_weight user_id topic (-0.3) ;;
           send MsgCorrect
         else
           do u <- subscript u ;
           update_user user_id
             (Update None (Some 0) (Some (wrong_streak u + 1)) None) ;;
           update_topic_weight user_id topic 0.5 ;;
           send (MsgWrong (q_answer q))) ;;
        do u <- get_user user_id ;
        do u <- subscript u ;
        do idx <- index levels (difficulty u) ;
        (if bool_decide (3 <= correct_streak u) && bool_decide (idx < 2)%nat then
           do l <- item levels (idx + 1) ;
           update_user user_id (Update (Some l) None None None) ;;
           send (MsgIncreased l)
         else ret tt) ;;
        (if bool_decide (2 <= wrong_streak u) && bool_decide (0 < idx)%nat then
           do l <- item levels (idx - 1) ;
           update_user user_id (Update (Some l) None None None) ;;
           send (MsgDecreased l)
         else ret tt) ;;
        send_question user_id (active_topic u) (difficulty u) ;;
        send Ack
    end.
End Bot.

(** ** Runs of handlers *)

(** The handlers of the source that touch the database. *)
Inductive event :=
| Start (user_id : Z) (name : option string)
| Quiz (user_id : Z) (name : option string)
| Progress (user_id : Z) (name : option string)
| StartQuiz (parts : list string) (user_id : Z) (name : option string)
| Callback (parts : list string) (user_id : Z).

Definition handle (QDB : bank) (e : event) : M unit :=
  match e with
  | Start i n => cmd_start QDB i n
  | Quiz i n => menu_quiz QDB i n
  | Progress i n => menu_progress QDB i n
  | StartQuiz p i n => cb_start_quiz QDB p i n
  | Callback p i => cb_answer QDB p i
  end.

(** The world a handler leaves, whether it returns or raises. *)
Definition after {A} (m : M A) (ε : env) (w : world) : world := snd (m ε w).

(** A fresh process on a fresh [bot.db]. *)
Definition initial : world := World None [] [].

(** The worlds the bot can be in: each event is handled in an environment
    of its own. *)
Inductive reachable (QDB : bank) : world -> Prop :=
| reachable_initial : reachable QDB initial
| reachable_step w e ε :
    reachable QDB w -> reachable QDB (after (handle QDB e) ε w).

(** ** Invariants of the database *)

(** [0.1 <= w] on floats. *)
Definition at_floor (w : float) : Prop := PrimFloat.leb 0.1 w = true.

Definition good_user (u : user_row) : Prop :=
  difficulty u ∈ levels
  ∧ 0 <= correct_streak u ∧ 0 <= wrong_streak u
  ∧ (correct_streak u = 0 ∨ wrong_streak u = 0).

Definition good_tables (t : tables) : Prop :=
  map_Forall (fun _ u => good_user u) (users t)
  ∧ map_Forall (fun _ m => map_Forall (fun _ r => at_floor (weight r)) m)
               (topic_stats t).

Definition good_world (w : world) : Prop :=
  forall t, db w = Some t -> good_tables t.

(** ** Weakest preconditions *)

(** [wp E ε m Q w]: run in [ε] from [w], [m] returns a value and a world
    that satisfy [Q], or raises in a world that satisfies [E]. *)
Definition wp (E : world -> Prop) (ε : env) {A} (m : M A)
    (Q : A -> world -> Prop) (w : world) : Prop :=
  match m ε w with
  | (Ok a, w') => Q a w'
  | (Raise _, w') => E w'
  end.


(** ** Definitions used to state the properties *)

(** [wp] with the same condition for a return and for an exception: a
    property of the world a computation leaves. *)
Definition leaves (ε : env) {A} (m : M A) (P : world -> Prop) (w : world) : Prop :=
  wp P ε m (fun _ => P) w.

(** The rows the loop of lines 68-72 writes. *)
Definition init_stats (user_id : Z) (ts : Z) (topics : list string)
    (t : tables) : tables :=
  fold_left (fun t topic => put_stat user_id topic (Stat 1 ts) t) topics t.

(** The tables [ensure_user] leaves. *)
Definition ensured (QDB : bank) (user_id : Z) (name : option string) (ts : Z)
    (t : tables) : tables :=
  match users t !! user_id with
  | Some _ => t
  | None =>
      init_stats user_id ts (bank_keys QDB)
        (Tables (<[user_id := User (default "" name) "easy" 0 0 "Mixed"]> (users t))
                (topic_stats t))
  end.

(** The weight [update_topic_weight] reads. *)
Definition weight_or_default (user_id : Z) (topic : string) (t : tables) : float :=
  match get_stat user_id topic t with
  | Some row => weight row
  | None => 1%float
  end.

(** Lines 283-290 on a row of [users]. *)
Definition streaks_after (correct : bool) (u : user_row) : user_row :=
  if correct
  then User (username u) (difficulty u) (correct_streak u + 1) 0 (active_topic u)
  else User (username u) (difficulty u) 0 (wrong_streak u + 1) (active_topic u).

(** Lines 293-300 on the row read at line 292, whose level has index [idx]. *)
Definition level_after (u : user_row) (idx : nat) : string :=
  let d := if bool_decide (3 <= correct_streak u) && bool_decide (idx < 2)%nat
           then default (difficulty u) (levels !! (idx + 1)%nat)
           else difficulty u in
  if bool_decide (2 <= wrong_streak u) && bool_decide (0 < idx)%nat
  then default d (levels !! (idx - 1)%nat)
  else d.

Definition with_difficulty (d : string) (u : user_row) : user_row :=
  User (username u) d (correct_streak u) (wrong_streak u) (active_topic u).

(** The tables a callback leaves that answers question [q] of [topic], for
    a user whose row is [u] and whose level has index [idx]. *)
Definition answered (ε : env) (user_id : Z) (topic selected : string)
    (t : tables) (u : user_row) (q : question) (idx : nat) : tables :=
  let correct := bool_decide (selected = q_answer q) in
  let u1 := streaks_after correct u in
  let delta := if correct then (-0.3)%float else 0.5%float in
  Tables (<[user_id := with_difficulty (level_after u1 idx) u1]> (users t))
         (topic_stats
            (put_stat user_id topic
               (Stat (py_max 0.1 (weight_or_default user_id topic t + delta)) (now ε))
               t)).

(** Two levels that are the same or next to each other in [levels]. *)
Definition adjacent (d d' : string) : Prop :=
  exists i i', levels !! i = Some d ∧ levels !! i' = Some d'
               ∧ (i' = i ∨ i' = S i ∨ i = S i').

(** The callback data of an answer button, split at its bars. *)
Definition answer_parts (topic qid selected : string) : list string :=
  ["answer"; topic; qid; selected].

(** The question an answer callback is about. *)
Definition question_of (QDB : bank) (topic qid : string) : option question :=
  match bank_get QDB topic with
  | None => None
  | Some e =>
      find (fun qq => bool_decide (q_id qq = qid))
           (concat (map (questions_at e) ["easy"; "medium"; "hard"]))
  end.

(** Callback data that answers a question of the bank with its correct
    option, and with another one. *)
Definition answers_correctly (QDB : bank) (parts : list string) : bool :=
  match parts with
  | [cmd; topic; qid; selected] =>
      bool_decide (cmd = "answer")
      && match question_of QDB topic qid with
         | Some q => bool_decide (selected = q_answer q)
         | None => false
         end
  | _ => false
  end.

Definition answers_wrongly (QDB : bank) (parts : list string) : bool :=
  match parts with
  | [cmd; topic; qid; selected] =>
      bool_decide (cmd = "answer")
      && match question_of QDB topic qid with
         | Some q => negb (bool_decide (selected = q_answer q))
         | None => false
         end
  | _ => false
  end.

(** The row of a user, when the tables exist and have one. *)
Definition user_of (user_id : Z) (w : world) : option user_row :=
  match db w with
  | Some t => users t !! user_id
  | None => None
  end.

(** The recorded weight of a topic for a user. *)
Definition weight_of (user_id : Z) (topic : string) (w : world) : option float :=
  match db w with
  | Some t => weight <$> get_stat user_id topic t
  | None => None
  end.

(** The row of [who] has the level of [u]. *)
Definition same_level_as (who : Z) (u : user_row) (w : world) : Prop :=
  exists u', user_of who w = Some u' ∧ difficulty u' = difficulty u.

(** The row of [who] has the level of [u] or a level next to it. *)
Definition near_level_of (who : Z) (u : user_row) (w : world) : Prop :=
  exists u', user_of who w = Some u' ∧ adjacent (difficulty u) (difficulty u').

(** The row of [user_id], if any, has one streak at zero. *)
Definition one_streak_zero (user_id : Z) (w : world) : Prop :=
  forall u1, user_of user_id w = Some u1 ->
             correct_streak u1 = 0 ∨ wrong_streak u1 = 0.

(** [update_topic_weight] called once per element of [steps], each call in
    an environment of its own. *)
Definition adjust_all (user_id : Z) (topic : string)
    (steps : list (float * env)) (w : world) : world :=
  fold_left (fun w s => after (update_topic_weight user_id topic (fst s)) (snd s) w)
            steps w.

(** Answer callbacks of one user handled one after the other. *)
Definition answer_all (QDB : bank) (user_id : Z)
    (steps : list (list string * env)) (w : world) : world :=
  fold_left (fun w s => after (cb_answer QDB (fst s) user_id) (snd s) w) steps w.

Section Intervals.
Context {N : Type} `{Num N}.

(** The value of [upto] in a walk that started with [upto], after [i]
    entries. *)
Definition walk_sum (upto : N) (pool : list (string * question * N)) (i : nat) : N :=
  fold_left (fun acc e => nadd acc (snd e)) (take i pool) upto.

(** The cumulative weight before entry [i] of a pool: [upto] when the walk
    of [choose_question] reaches the entry. *)
Definition prefix_weight (pool : list (string * question * N)) (i : nat) : N :=
  pool_total (take i pool).
End Intervals.

(** The rational number a finite float stands for. *)
Definition exact (x : float) : Q :=
  match Prim2SF x with
  | S754_finite s m e => ((if s then -1 else 1) * inject_Z (Zpos m) * 2 ^ e)%Q
  | _ => 0%Q
  end.

(** For each entry, the distance between the cumulative weights after and
    before it, as real numbers, is the weight of the entry. *)
Definition measure_is_weight (pool : list (string * question * float)) : Prop :=
  forall i e,
    pool !! i = Some e ->
    (exact (prefix_weight pool (S i)) - exact (prefix_weight pool i)
     == exact (snd e))%Q.

(** *** A small bank and a small database *)

Definition demo_q1 : question := Question "Q1" "first" ["a"; "b"] "a".
Definition demo_q2 : question := Question "Q2" "second" ["c"; "d"] "d".

(** Topics A and B with one easy question each. *)
Definition demo_bank : bank :=
  [("A", Topic "about A" {["easy" := [demo_q1]]});
   ("B", Topic "about B" {["easy" := [demo_q2]]})].

Definition demo_env : env := Env 1700000000 0.5 0.

(** The world after user 1 sent /start to a fresh bot. *)
Definition demo_world : world :=
  after (cmd_start demo_bank 1 (Some "U1")) demo_env initial.

(** *** Proof steps *)

(** Rewrites the conditions of the goal that linear arithmetic decides. *)
Ltac decide_conditions :=
  repeat match goal with
  | |- context [bool_decide ?P] =>
      first [ rewrite (bool_decide_eq_true_2 P) by lia
            | rewrite (bool_decide_eq_false_2 P) by lia ]
  end.

(** One step of a sequence: [rule] splits it, [lem] is the property of its
    first computation. *)
Ltac chain rule lem :=
  eapply rule; [apply lem; try eassumption | cbv beta; intros ? ? ?].

(** ** Callback data, and the handler of plain text *)

From Stdlib Require Import Ascii.

(** The separator of callback data. *)
Definition bar : ascii := "|"%char.

(** [s.split("|")]: never empty; a bar at either end gives an empty piece. *)
Fixpoint split_bar (s : string) : list string :=
  match s with
  | EmptyString => [""]
  | String c rest =>
      if decide (c = bar) then "" :: split_bar rest
      else match split_bar rest with
           | piece :: pieces => String c piece :: pieces
           | [] => [String c ""]
           end
  end.

(** ["|".join(pieces)], which the f-strings of lines 161 and 164 compute. *)
Fixpoint join_bar (pieces : list string) : string :=
  match pieces with
  | [] => ""
  | [piece] => piece
  | piece :: rest => piece +:+ String bar (join_bar rest)
  end.

(** A string without a bar. *)
Fixpoint no_bar (s : string) : bool :=
  match s with
  | EmptyString => true
  | String c rest => negb (bool_decide (c = bar)) && no_bar rest
  end.

(** [callback_data] of an option button (line 161) and of the skip button
    (line 164). *)
Definition answer_data (t : string) (q : question) (opt : string) : string :=
  "answer|" +:+ t +:+ "|" +:+ q_id q +:+ "|" +:+ opt.

Definition skip_data (t : string) (q : question) : string :=
  "skip|" +:+ t +:+ "|" +:+ q_id q.

(** The callback data of the keyboard of lines 160-164, in the order of the
    buttons. *)
Definition keyboard (t : string) (q : question) : list string :=
  map (answer_data t q) (q_options q) ++ [skip_data t q].

(** The filter of line 258. *)
Definition answer_filter (data : string) : bool :=
  String.prefix "answer|" data || String.prefix "skip|" data.

(** The filters of lines 234 and 245. *)
Definition lit_filter (data : string) : bool := String.prefix "lit|" data.

Definition start_quiz_filter (data : string) : bool :=
  String.prefix "start_quiz|" data.

(** [callback_data] of the buttons of the quiz menu (lines 201 and 203) and
    of the topics menu (line 209). *)
Definition start_quiz_data (t : string) : string := "start_quiz|" +:+ t.

Definition topic_info_data (t : string) : string := "topic_info|" +:+ t.

(** [cb_answer] and [cb_start_quiz] from the callback data, as lines 260 and
    247 split it. *)
Definition cb_answer_data (QDB : bank) (data : string) (user_id : Z) : M unit :=
  cb_answer QDB (split_bar data) user_id.

Definition cb_start_quiz_data (QDB : bank) (data : string) (user_id : Z)
    (name : option string) : M unit :=
  cb_start_quiz QDB (split_bar data) user_id name.

(** The user an event comes from. *)
Definition event_user (e : event) : Z :=
  match e with
  | Start i _ | Quiz i _ | Progress i _ | StartQuiz _ i _ | Callback _ i => i
  end.

(** The events that are not answer or skip callbacks. *)
Definition no_callback (e : event) : bool :=
  match e with
  | Callback _ _ => false
  | _ => true
  end.

(** The events that are callback queries. *)
Definition is_callback (e : event) : bool :=
  match e with
  | StartQuiz _ _ _ | Callback _ _ => true
  | _ => false
  end.

(** [needle in hay] on strings. *)
Fixpoint contains (needle hay : string) : bool :=
  String.prefix needle hay
  || match hay with
     | EmptyString => false
     | String _ rest => contains needle rest
     end.

(** [needle] occurs in [hay]. *)
Definition occurs_in (needle hay : string) : Prop :=
  exists before after, hay = before +:+ needle +:+ after.

(** An entry of rules.json. *)
Record rule := Rule {
  keywords : list string;
  responses : list string
}.

(** What [fallback] answers: a response of a rule, or the hint at the menu. *)
Inductive text_reply :=
| Response (s : string)
| MenuHint.

Section Fallback.
Context (RULES : list rule).
(** [str.lower] is not modelled: any function on strings. *)
Context (lower : string -> string).

(** [any(keyword in text for keyword in rule["keywords"])] *)
Definition rule_matches (text : string) (r : rule) : bool :=
  existsb (fun keyword => contains keyword text) (keywords r).

(** The loop of lines 308-311, [k] being the number from which
    [random.choice] takes its index; on an empty list it raises IndexError. *)
Fixpoint first_rule (rules : list rule) (text : string) (k : nat)
    : result text_reply :=
  match rules with
  | [] => Ok MenuHint
  | r :: rest =>
      if rule_matches text r then
        match responses r !! (k mod length (responses r))%nat with
        | Some s => Ok (Response s)
        | None => Raise IndexError
        end
      else first_rule rest text k
  end.

(** Lines 305-312. *)
Definition fallback (text : string) (k : nat) : result text_reply :=
  first_rule RULES (lower text) k.
End Fallback.

(** A keyword of the rule occurs in the text. *)
Definition mentioned (text : string) (r : rule) : Prop :=
  exists keyword, keyword ∈ keywords r ∧ occurs_in keyword text.

(** The first rule of [rules] that [text] mentions is [r]. *)
Definition first_mentioned (rules : list rule) (text : string) (r : rule) : Prop :=
  exists before after,
    rules = before ++ r :: after
    ∧ mentioned text r
    ∧ forall r', r' ∈ before -> ¬ mentioned text r'.

(** The topic of what [choose_question] returns. *)
Definition chosen_topic {N} (c : chosen N) : string :=
  match c with
  | Pair t _ => t
  | Triple t _ _ => t
  end.

(** *** More runs *)

(** Events handled one after the other, each in an environment of its own. *)
Definition run (QDB : bank) (steps : list (event * env)) (w : world) : world :=
  fold_left (fun w s => after (handle QDB (fst s)) (snd s) w) steps w.

(** The messages a handler adds to the outbox. *)
Definition sent_by {A} (m : M A) (ε : env) (w : world) : list reply :=
  drop (length (outbox w)) (outbox (after m ε w)).

(** *** Messages *)

(** The messages that are calls of [callback.answer]. *)
Definition answers_callback (r : reply) : bool :=
  match r with
  | Ack | AlertNotFound => true
  | _ => false
  end.

(** The message of lines 251-253: the theory of a topic other than Mixed. *)
Definition theory_messages (QDB : bank) (topic : string) : list reply :=
  if decide (topic = "Mixed") then []
  else match bank_get QDB topic with
       | Some e => [MsgTheory topic (theory e)]
       | None => []
       end.

(** The message of line 286 or 290. *)
Definition feedback (correct : bool) (q : question) : reply :=
  if correct then MsgCorrect else MsgWrong (q_answer q).

(** The messages of lines 297 and 300, for the row read at line 292, whose
    level has index [idx]. *)
Definition level_messages (u : user_row) (idx : nat) : list reply :=
  (if bool_decide (3 <= correct_streak u) && bool_decide (idx < 2)%nat
   then [MsgIncreased (default "" (levels !! (idx + 1)%nat))] else [])
  ++ (if bool_decide (2 <= wrong_streak u) && bool_decide (0 < idx)%nat
      then [MsgDecreased (default "" (levels !! (idx - 1)%nat))] else []).

(** *** The parts of [cb_answer] *)

(** Lines 283-303 of [cb_answer]: what follows [record_attempt], for the
    row [u] read at line 263. *)
Definition progression (QDB : bank) (user_id : Z) (topic : string)
    (q : question) (correct : bool) (u : option user_row) : M unit :=
  (if correct then
     do u <- subscript u ;
     update_user user_id
       (Update None (Some (correct_streak u + 1)) (Some 0) None) ;;
     update_topic_weight user_id topic (-0.3) ;;
     send MsgCorrect
   else
     do u <- subscript u ;
     update_user user_id
       (Update None (Some 0) (Some (wrong_streak u + 1)) None) ;;
     update_topic_weight user_id topic 0.5 ;;
     send (MsgWrong (q_answer q))) ;;
  do u <- get_user user_id ;
  do u <- subscript u ;
  do idx <- index levels (difficulty u) ;
  (if bool_decide (3 <= correct_streak u) && bool_decide (idx < 2)%nat then
     do l <- item levels (idx + 1) ;
     update_user user_id (Update (Some l) None None None) ;;
     send (MsgIncreased l)
   else ret tt) ;;
  (if bool_decide (2 <= wrong_streak u) && bool_decide (0 < idx)%nat then
     do l <- item levels (idx - 1) ;
     update_user user_id (Update (Some l) None None None) ;;
     send (MsgDecreased l)
   else ret tt) ;;
  send_question QDB user_id (active_topic u) (difficulty u) ;;
  send Ack.

(** Lines 265-269 of [cb_answer]. *)
Definition skipped (QDB : bank) (user_id : Z) (u : option user_row) : M unit :=
  send MsgSkipped ;;
  do u <- subscript u ;
  send_question QDB user_id (active_topic u) (difficulty u) ;;
  send Ack.

(** The other user's row and weights are those of [w0]. *)
Definition untouched (other : Z) (w0 w : world) : Prop :=
  user_of other w = user_of other w0
  ∧ forall topic, weight_of other topic w = weight_of other topic w0.

(** Every user with a row has a weight for every topic of the bank. *)
Definition weights_complete (QDB : bank) (w : world) : Prop :=
  forall user_id u topic,
    user_of user_id w = Some u -> topic ∈ bank_keys QDB ->
    is_Some (weight_of user_id topic w).

(** * Properties *)

(** ** Floats at the floor *)

Lemma py_max_floor x : at_floor (py_max 0.1 x).
Proof.
  unfold at_floor, py_max.
  destruct (PrimFloat.ltb 0.1 x) eqn:E; [|reflexivity].
  rewrite ltb_spec in E. rewrite leb_spec.
  unfold SFltb in E. unfold SFleb.
  destruct (SFcompare _ _) as [[]|]; congruence.
Qed.

Lemma at_floor_positive x : at_floor x -> PrimFloat.ltb 0 x = true.
Proof.
  unfold at_floor. rewrite leb_spec, ltb_spec.
  unfold SFleb, SFltb.
  replace (Prim2SF 0.1) with (S754_finite false 7205759403792794 (-56)) by reflexivity.
  replace (Prim2SF 0) with (S754_zero false) by reflexivity.
  destruct (Prim2SF x) as [s|s| |s m e]; simpl; try discriminate;
    try destruct s; simpl; try discriminate; auto.
Qed.

Lemma at_floor_one : at_floor 1.
Proof. reflexivity. Qed.

(** ** Rules of the weakest precondition *)

Section Wp.
Context (E : world -> Prop) (ε : env).

Lemma wp_bind {A B} (m : M A) (k : A -> M B) Q w :
  wp E ε m (fun a => wp E ε (k a) Q) w -> wp E ε (bind m k) Q w.
Proof. unfold wp, bind. destruct (m ε w) as [[a|e] w']; auto. Qed.

Lemma wp_mono {A} (m : M A) (Q Q' : A -> world -> Prop) w :
  wp E ε m Q w -> (forall a w', Q a w' -> Q' a w') -> wp E ε m Q' w.
Proof. unfold wp. destruct (m ε w) as [[a|e] w']; auto. Qed.

Lemma wp_ret {A} (a : A) (Q : A -> world -> Prop) w : Q a w -> wp E ε (ret a) Q w.
Proof. auto. Qed.

Lemma wp_raise {A} e (Q : A -> world -> Prop) w : E w -> wp E ε (raise e) Q w.
Proof. auto. Qed.

Lemma wp_ask {A} (f : env -> A) (Q : A -> world -> Prop) w :
  Q (f ε) w -> wp E ε (ask f) Q w.
Proof. auto. Qed.

Lemma wp_lift {A} (r : result A) (Q : A -> world -> Prop) w :
  (forall e, r = Raise e -> E w) -> (forall a, r = Ok a -> Q a w) ->
  wp E ε (lift r) Q w.
Proof. unfold wp, lift. destruct r; eauto. Qed.

Lemma wp_subscript {A} (x : option A) (Q : A -> world -> Prop) w :
  (x = None -> E w) -> (forall a, x = Some a -> Q a w) -> wp E ε (subscript x) Q w.
Proof. destruct x; cbn; auto. Qed.

Lemma wp_item parts i (Q : string -> world -> Prop) w :
  (parts !! i = None -> E w) -> (forall s, parts !! i = Some s -> Q s w) ->
  wp E ε (item parts i) Q w.
Proof. unfold item. destruct (parts !! i); cbn; auto. Qed.

Lemma wp_index l x (Q : nat -> world -> Prop) w :
  (index_from l x 0 = None -> E w) ->
  (forall i, index_from l x 0 = Some i -> Q i w) -> wp E ε (index l x) Q w.
Proof. unfold index. destruct (index_from l x 0); cbn; auto. Qed.

Lemma wp_read_tables (Q : tables -> world -> Prop) w :
  (db w = None -> E w) -> (forall t, db w = Some t -> Q t w) ->
  wp E ε read_tables Q w.
Proof. unfold wp, read_tables. destruct (db w); auto. Qed.

Lemma wp_write_tables t (Q : unit -> world -> Prop) w :
  Q tt (World (Some t) (attempts w) (outbox w)) -> wp E ε (write_tables t) Q w.
Proof. auto. Qed.

Lemma wp_send r (Q : unit -> world -> Prop) w :
  Q tt (World (db w) (attempts w) (outbox w ++ [r])) -> wp E ε (send r) Q w.
Proof. auto. Qed.

Lemma wp_insert_attempt a (Q : unit -> world -> Prop) w :
  Q tt (World (db w) (attempts w ++ [a]) (outbox w)) ->
  wp E ε (insert_attempt a) Q w.
Proof. auto. Qed.

(** *** The functions of lines 75-132 *)

Lemma wp_get_user user_id (Q : option user_row -> world -> Prop) w :
  (db w = None -> E w) ->
  (forall t, db w = Some t -> Q (users t !! user_id) w) ->
  wp E ε (get_user user_id) Q w.
Proof.
  intros HE HQ. apply wp_bind, wp_read_tables; [exact HE|].
  intros t Ht. apply wp_ret, HQ, Ht.
Qed.

Lemma wp_update_user user_id k (Q : unit -> world -> Prop) w :
  (names_column k = false ∨ db w = None -> E w) ->
  (forall t, db w = Some t ->
     Q tt (World (Some (Tables (alter (apply_update k) user_id (users t))
                               (topic_stats t)))
                 (attempts w) (outbox w))) ->
  wp E ε (update_user user_id k) Q w.
Proof.
  intros HE HQ. unfold update_user.
  destruct (names_column k); [|apply wp_raise; auto].
  apply wp_bind, wp_read_tables; [auto|].
  intros t Ht. apply wp_write_tables, HQ, Ht.
Qed.

Lemma wp_get_topic_weights user_id (Q : gmap string float -> world -> Prop) w :
  (db w = None -> E w) ->
  (forall t, db w = Some t ->
     Q (weight <$> default ∅ (topic_stats t !! user_id)) w) ->
  wp E ε (get_topic_weights user_id) Q w.
Proof.
  intros HE HQ. apply wp_bind, wp_read_tables; [exact HE|].
  intros t Ht. apply wp_ret, HQ, Ht.
Qed.

Lemma wp_update_topic_weight user_id topic delta (Q : unit -> world -> Prop) w :
  (db w = None -> E w) ->
  (forall t, db w = Some t ->
     Q tt (World
             (Some (put_stat user_id topic
                      (Stat (py_max 0.1 (weight_or_default user_id topic t + delta))
                            (now ε)) t))
             (attempts w) (outbox w))) ->
  wp E ε (update_topic_weight user_id topic delta) Q w.
Proof.
  intros HE HQ. apply wp_bind, wp_read_tables; [exact HE|].
  intros t Ht. cbv zeta. apply wp_bind, wp_ask. apply wp_write_tables, HQ, Ht.
Qed.

Lemma wp_record_attempt user_id qid (correct : bool) (Q : unit -> world -> Prop) w :
  Q tt (World (db w)
              (attempts w ++ [Attempt user_id qid (if correct then 1 else 0) (now ε)])
              (outbox w)) ->
  wp E ε (record_attempt user_id qid correct) Q w.
Proof. intros HQ. apply wp_bind, wp_ask. apply wp_insert_attempt, HQ. Qed.

Lemma wp_find_question QDB topic qid (Q : option question -> world -> Prop) w :
  (bank_get QDB topic = None -> E w) ->
  (is_Some (bank_get QDB topic) -> Q (question_of QDB topic qid) w) ->
  wp E ε (find_question QDB topic qid) Q w.
Proof.
  unfold find_question, question_of. intros HE HQ.
  destruct (bank_get QDB topic); [apply wp_ret, HQ; eauto | apply wp_raise, HE; auto].
Qed.

(** [send_question] raises before it sends, or sends one message. *)
Lemma wp_send_question QDB user_id topic level (Q : unit -> world -> Prop) w :
  E w ->
  (forall r, Q tt (World (db w) (attempts w) (outbox w ++ [r]))) ->
  wp E ε (send_question QDB user_id topic level) Q w.
Proof.
  intros HE HQ. unfold send_question.
  apply wp_bind, wp_get_topic_weights; [auto|]. intros t Ht.
  apply wp_bind, wp_ask. apply wp_bind, wp_ask.
  apply wp_bind, wp_lift; [auto|]. intros [[t' q|t' q x]|] _.
  - apply wp_send, HQ.
  - apply wp_raise, HE.
  - apply wp_send, HQ.
Qed.
End Wp.

Lemma leaves_after ε {A} (m : M A) (P : world -> Prop) w :
  leaves ε m P w -> P (after m ε w).
Proof. unfold leaves, wp, after. destruct (m ε w) as [[a|e] w']; auto. Qed.

(** ** What [ensure_user] does *)

Lemma for_each_init_stats user_id topics ε t a o :
  for_each topics (fun topic =>
      do ts <- ask now ;
      do t <- read_tables ;
      write_tables (put_stat user_id topic (Stat 1 ts) t)) ε (World (Some t) a o)
  = (Ok tt, World (Some (init_stats user_id (now ε) topics t)) a o).
Proof.
  unfold init_stats. revert t.
  induction topics as [|topic topics IH]; intros t; [reflexivity|].
  cbn [for_each]. unfold bind at 1. cbn. apply IH.
Qed.

Lemma ensure_user_run QDB user_id name ε w :
  ensure_user QDB user_id name ε w
  = (Ok tt, World (Some (ensured QDB user_id name (now ε)
                           (default (Tables ∅ ∅) (db w))))
                  (attempts w) (outbox w)).
Proof.
  unfold ensure_user, ensured, bind at 1 2. cbn.
  destruct (users (default (Tables ∅ ∅) (db w)) !! user_id); [reflexivity|].
  unfold bind at 1. cbn. apply for_each_init_stats.
Qed.

Lemma wp_ensure_user E ε QDB user_id name (Q : unit -> world -> Prop) w :
  Q tt (World (Some (ensured QDB user_id name (now ε)
                       (default (Tables ∅ ∅) (db w))))
              (attempts w) (outbox w)) ->
  wp E ε (ensure_user QDB user_id name) Q w.
Proof. intros HQ. unfold wp. rewrite ensure_user_run. exact HQ. Qed.

Lemma users_init_stats user_id ts topics t :
  users (init_stats user_id ts topics t) = users t.
Proof.
  unfold init_stats. revert t.
  induction topics as [|x l IH]; intros t; [reflexivity|].
  cbn. rewrite IH. reflexivity.
Qed.

Lemma get_stat_put_eq user_id topic r t :
  get_stat user_id topic (put_stat user_id topic r t) = Some r.
Proof.
  unfold get_stat, put_stat. cbn. rewrite lookup_insert_eq. cbn.
  apply lookup_insert_eq.
Qed.

Lemma get_stat_init_stats user_id ts topics t topic :
  topic ∈ topics ->
  get_stat user_id topic (init_stats user_id ts topics t) = Some (Stat 1 ts).
Proof.
  unfold init_stats. revert t.
  induction topics as [|x l IH]; intros t Hin; [inversion Hin|].
  cbn. destruct (decide (topic ∈ l)) as [Hl|Hl]; [apply IH, Hl|].
  apply elem_of_cons in Hin as [->|Hin]; [|contradiction].
  clear IH. revert t. induction l as [|y l IH]; intros t.
  - cbn. apply get_stat_put_eq.
  - cbn. apply not_elem_of_cons in Hl as [Hy Hl].
    specialize (IH Hl). cbn in IH.
    assert (Hswap : put_stat user_id y (Stat 1 ts) (put_stat user_id x (Stat 1 ts) t)
                    = put_stat user_id x (Stat 1 ts) (put_stat user_id y (Stat 1 ts) t)).
    { unfold put_stat. cbn. rewrite !lookup_insert_eq. cbn.
      rewrite !insert_insert_eq. f_equal. f_equal. apply insert_insert_ne. congruence. }
    rewrite Hswap. apply IH.
Qed.

(** ** The invariant *)

Lemma good_world_db w w' : db w' = db w -> good_world w -> good_world w'.
Proof. unfold good_world. intros ->. auto. Qed.

Lemma good_tables_empty : good_tables (Tables ∅ ∅).
Proof. split; apply map_Forall_empty. Qed.

Lemma good_put_stat user_id topic r t :
  at_floor (weight r) -> good_tables t -> good_tables (put_stat user_id topic r t).
Proof.
  intros Hr [Hu Hs]. split; [exact Hu|]. cbn.
  apply map_Forall_insert_2; [|exact Hs].
  apply map_Forall_insert_2; [exact Hr|].
  destruct (topic_stats t !! user_id) as [m|] eqn:Hm; cbn.
  - exact (Hs _ _ Hm).
  - apply map_Forall_empty.
Qed.

Lemma good_alter f user_id t :
  (forall u, users t !! user_id = Some u -> good_user u -> good_user (f u)) ->
  good_tables t ->
  good_tables (Tables (alter f user_id (users t)) (topic_stats t)).
Proof.
  intros Hf [Hu Hs]. split; [|exact Hs]. cbn.
  intros j u' Hj. destruct (decide (user_id = j)) as [->|Hne].
  - rewrite lookup_alter_eq in Hj.
    destruct (users t !! j) as [u|] eqn:Huj; [|discriminate].
    injection Hj as <-. apply Hf; [reflexivity|]. exact (Hu _ _ Huj).
  - rewrite lookup_alter_ne in Hj by exact Hne. exact (Hu _ _ Hj).
Qed.

Lemma good_init_stats user_id ts topics t :
  good_tables t -> good_tables (init_stats user_id ts topics t).
Proof.
  unfold init_stats. revert t.
  induction topics as [|x l IH]; intros t Ht; [exact Ht|].
  cbn. apply IH, good_put_stat; [apply at_floor_one|exact Ht].
Qed.

Lemma good_user_new name : good_user (User (default "" name) "easy" 0 0 "Mixed").
Proof.
  unfold good_user. cbn.
  split_and!; [apply elem_of_cons; by left | lia | lia | by left].
Qed.

Lemma good_ensured QDB user_id name ts t :
  good_tables t -> good_tables (ensured QDB user_id name ts t).
Proof.
  intros Ht. unfold ensured. destruct (users t !! user_id); [exact Ht|].
  apply good_init_stats. destruct Ht as [Hu Hs]. split; [|exact Hs]. cbn.
  apply map_Forall_insert_2; [apply good_user_new|exact Hu].
Qed.

Lemma good_world_intro t a o : good_tables t -> good_world (World (Some t) a o).
Proof. intros Ht t' [= <-]. exact Ht. Qed.

Lemma good_default w : good_world w -> good_tables (default (Tables ∅ ∅) (db w)).
Proof.
  intros Hw. destruct (db w) as [t|] eqn:Ht; cbn; [apply Hw, Ht|apply good_tables_empty].
Qed.

(** ** Every handler keeps the invariant *)

Section Good.
Context (QDB : bank) (ε : env).

#[local] Abbreviation keeps m w := (wp good_world ε m (fun _ => good_world) w).

Lemma send_good r w : good_world w -> keeps (send r) w.
Proof. intros Hw. apply wp_send. revert Hw. apply good_world_db. reflexivity. Qed.

Lemma record_attempt_good user_id qid correct w :
  good_world w -> keeps (record_attempt user_id qid correct) w.
Proof.
  intros Hw. apply wp_record_attempt. revert Hw. apply good_world_db. reflexivity.
Qed.

Lemma send_question_good user_id topic level w :
  good_world w -> keeps (send_question QDB user_id topic level) w.
Proof.
  intros Hw. apply wp_send_question; [exact Hw|].
  intros r. revert Hw. apply good_world_db. reflexivity.
Qed.

Lemma ensure_user_good user_id name w :
  good_world w -> keeps (ensure_user QDB user_id name) w.
Proof.
  intros Hw. apply wp_ensure_user, good_world_intro, good_ensured, good_default, Hw.
Qed.

Lemma get_user_good user_id w :
  good_world w ->
  wp good_world ε (get_user user_id)
     (fun r w' => good_world w' ∧ forall u, r = Some u -> good_user u) w.
Proof.
  intros Hw. apply wp_get_user; [auto|]. intros t Ht. split; [exact Hw|].
  intros u Hu. destruct (Hw t Ht) as [Hus _]. exact (Hus _ _ Hu).
Qed.

Lemma update_user_good user_id k w :
  good_world w ->
  (forall u, good_user u -> good_user (apply_update k u)) ->
  keeps (update_user user_id k) w.
Proof.
  intros Hw Hk. apply wp_update_user; [auto|]. intros t Ht.
  apply good_world_intro, good_alter; [auto|apply Hw, Ht].
Qed.

Lemma update_topic_weight_good user_id topic delta w :
  good_world w -> keeps (update_topic_weight user_id topic delta) w.
Proof.
  intros Hw. apply wp_update_topic_weight; [auto|]. intros t Ht.
  apply good_world_intro, good_put_stat; [apply py_max_floor|apply Hw, Ht].
Qed.

Lemma get_topic_weights_good user_id w :
  good_world w ->
  wp good_world ε (get_topic_weights user_id) (fun _ => good_world) w.
Proof. intros Hw. apply wp_get_topic_weights; auto. Qed.

Lemma good_set_active topic u :
  good_user u -> good_user (apply_update (Update None None None (Some topic)) u).
Proof. intros H. exact H. Qed.

Lemma good_set_level l u :
  l ∈ levels -> good_user u ->
  good_user (apply_update (Update (Some l) None None None) u).
Proof. intros Hl (_ & H). split; [exact Hl|exact H]. Qed.

Lemma good_set_correct u0 u :
  good_user u0 -> good_user u ->
  good_user (apply_update
               (Update None (Some (correct_streak u0 + 1)) (Some 0) None) u).
Proof.
  intros (_ & H0 & _) (Hd & _). unfold good_user. cbn.
  split_and!; [exact Hd | lia | lia | by right].
Qed.

Lemma good_set_wrong u0 u :
  good_user u0 -> good_user u ->
  good_user (apply_update
               (Update None (Some 0) (Some (wrong_streak u0 + 1)) None) u).
Proof.
  intros (_ & _ & H0 & _) (Hd & _). unfold good_user. cbn.
  split_and!; [exact Hd | lia | lia | by left].
Qed.

Lemma keeps_bind A B (m : M A) (k : A -> M B) (R : A -> world -> Prop) w :
  wp good_world ε m R w ->
  (forall a w', R a w' -> keeps (k a) w') ->
  keeps (bind m k) w.
Proof. intros Hm Hk. apply wp_bind. eapply wp_mono; [exact Hm|exact Hk]. Qed.

Lemma cmd_start_good user_id name w :
  good_world w -> keeps (cmd_start QDB user_id name) w.
Proof.
  intros Hw. unfold cmd_start.
  chain keeps_bind ensure_user_good. apply send_good. assumption.
Qed.

Lemma menu_quiz_good user_id name w :
  good_world w -> keeps (menu_quiz QDB user_id name) w.
Proof.
  intros Hw. unfold menu_quiz.
  chain keeps_bind ensure_user_good. apply send_good. assumption.
Qed.

Lemma menu_progress_good user_id name w :
  good_world w -> keeps (menu_progress QDB user_id name) w.
Proof.
  intros Hw. unfold menu_progress.
  chain keeps_bind get_user_good. destruct H as [Hw' _].
  apply wp_bind with (m := match a with Some _ => _ | None => _ end).
  eapply wp_mono with (Q := fun _ => good_world).
  { destruct a.
    - apply wp_ret, Hw'.
    - chain keeps_bind ensure_user_good. eapply wp_mono; [apply get_user_good; eauto|].
      cbv beta. intros ? ? [? _]. assumption. }
  cbv beta. intros u1 w1 Hw1.
  chain keeps_bind get_topic_weights_good.
  apply wp_bind, wp_subscript; [auto|]. intros u2 _.
  apply send_good. assumption.
Qed.

Lemma cb_start_quiz_good parts user_id name w :
  good_world w -> keeps (cb_start_quiz QDB parts user_id name) w.
Proof.
  intros Hw. unfold cb_start_quiz.
  apply wp_bind, wp_item; [auto|]. intros topic _.
  chain keeps_bind ensure_user_good.
  chain keeps_bind update_user_good. { intros; apply good_set_active; assumption. }
  chain keeps_bind get_user_good. destruct H1 as [Hw1 _].
  apply wp_bind with (m := if decide (topic = "Mixed") then _ else _).
  eapply wp_mono with (Q := fun _ => good_world).
  { destruct (decide (topic = "Mixed")); [apply wp_ret, Hw1|].
    destruct (bank_get QDB topic); [apply send_good, Hw1|apply wp_raise, Hw1]. }
  cbv beta. intros _ w2 Hw2.
  chain keeps_bind send_good.
  apply wp_bind, wp_subscript; [auto|]. intros u _.
  chain keeps_bind send_question_good.
  apply send_good. assumption.
Qed.

Lemma cb_answer_good parts user_id w :
  good_world w -> keeps (cb_answer QDB parts user_id) w.
Proof.
  intros Hw. unfold cb_answer.
  apply wp_bind, wp_item; [auto|]. intros cmd _.
  apply wp_bind, wp_item; [auto|]. intros topic _.
  apply wp_bind, wp_item; [auto|]. intros qid _.
  chain keeps_bind get_user_good. destruct H as [Hw0 Hu0]. rename a into r0.
  destruct (decide (cmd = "skip")).
  { chain keeps_bind send_good.
    apply wp_bind, wp_subscript; [auto|]. intros u _.
    chain keeps_bind send_question_good. apply send_good. assumption. }
  apply wp_bind, wp_item; [auto|]. intros selected _.
  apply wp_bind, wp_find_question; [auto|]. intros _.
  destruct (question_of QDB topic qid) as [q|]; [|apply send_good, Hw0].
  cbv zeta.
  chain keeps_bind record_attempt_good.
  apply wp_bind with (m := if bool_decide (selected = q_answer q) then _ else _).
  eapply wp_mono with (Q := fun _ => good_world).
  { destruct (bool_decide (selected = q_answer q)).
    - apply wp_bind, wp_subscript; [auto|]. intros u Hu.
      chain keeps_bind update_user_good.
      { intros; apply good_set_correct; [apply Hu0, Hu|assumption]. }
      chain keeps_bind update_topic_weight_good. apply send_good. assumption.
    - apply wp_bind, wp_subscript; [auto|]. intros u Hu.
      chain keeps_bind update_user_good.
      { intros; apply good_set_wrong; [apply Hu0, Hu|assumption]. }
      chain keeps_bind update_topic_weight_good. apply send_good. assumption. }
  cbv beta. intros _ w1 Hw1.
  chain keeps_bind get_user_good. destruct H0 as [Hw2 _].
  apply wp_bind, wp_subscript; [auto|]. intros u _.
  apply wp_bind, wp_index; [auto|]. intros idx _.
  apply wp_bind with (m := if _ && _ then _ else _).
  eapply wp_mono with (Q := fun _ => good_world).
  { destruct (_ && _); [|apply wp_ret, Hw2].
    apply wp_bind, wp_item; [auto|]. intros l Hl.
    chain keeps_bind update_user_good.
    { intros; apply good_set_level; [eapply list_elem_of_lookup_2, Hl|assumption]. }
    apply send_good. assumption. }
  cbv beta. intros _ w3 Hw3.
  apply wp_bind with (m := if _ && _ then _ else _).
  eapply wp_mono with (Q := fun _ => good_world).
  { destruct (_ && _); [|apply wp_ret, Hw3].
    apply wp_bind, wp_item; [auto|]. intros l Hl.
    chain keeps_bind update_user_good.
    { intros; apply good_set_level; [eapply list_elem_of_lookup_2, Hl|assumption]. }
    apply send_good. assumption. }
  cbv beta. intros _ w4 Hw4.
  chain keeps_bind send_question_good. apply send_good. assumption.
Qed.

Lemma handle_good e w : good_world w -> good_world (after (handle QDB e) ε w).
Proof.
  intros Hw. apply leaves_after. unfold leaves.
  destruct e; cbn [handle];
    auto using cmd_start_good, menu_quiz_good, menu_progress_good,
               cb_start_quiz_good, cb_answer_good.
Qed.
End Good.

Lemma good_initial : good_world initial.
Proof. intros t Ht. discriminate. Qed.

Lemma reachable_good QDB w : reachable QDB w -> good_world w.
Proof.
  induction 1 as [|w e ε _ IH]; [apply good_initial|apply handle_good, IH].
Qed.

(** ** What an answer does to the database *)

Lemma alter_present {A} (f : A -> A) (m : gmap Z A) i x :
  m !! i = Some x -> alter f i m = <[i := f x]> m.
Proof.
  intros Hx. apply map_eq. intros j. destruct (decide (i = j)) as [->|Hne].
  - rewrite lookup_alter_eq, lookup_insert_eq, Hx. reflexivity.
  - rewrite lookup_alter_ne, lookup_insert_ne by exact Hne. reflexivity.
Qed.

Lemma wp_update_user_found E ε user_id k u (Q : unit -> world -> Prop) t a o :
  names_column k = true ->
  users t !! user_id = Some u ->
  Q tt (World (Some (Tables (<[user_id := apply_update k u]> (users t))
                            (topic_stats t))) a o) ->
  wp E ε (update_user user_id k) Q (World (Some t) a o).
Proof.
  intros Hk Hu HQ. apply wp_update_user; [intros [?|?]; [congruence|discriminate]|].
  intros t' [= <-]. rewrite (alter_present _ _ _ _ Hu). exact HQ.
Qed.

Lemma index_from_levels d i :
  index_from levels d 0 = Some i ->
  (i < 3)%nat ∧ levels !! i = Some d.
Proof.
  unfold levels. cbn. repeat case_decide; intros [= <-]; subst; cbn; split; auto; lia.
Qed.

(** The tail of [cb_answer]: it sends, or raises, and leaves the tables and
    the attempts alone. *)
Lemma send_question_ack QDB ε user_id topic level (P : world -> Prop) w :
  (forall o, P (World (db w) (attempts w) o)) ->
  leaves ε (send_question QDB user_id topic level ;; send Ack) P w.
Proof.
  intros HP. unfold leaves. apply wp_bind, wp_send_question.
  - destruct w. apply HP.
  - intros r. apply wp_send. cbn. apply HP.
Qed.

Lemma cb_answer_found QDB ε w t user_id u topic qid selected q idx :
  db w = Some t ->
  users t !! user_id = Some u ->
  question_of QDB topic qid = Some q ->
  index_from levels (difficulty u) 0 = Some idx ->
  let w' := after (cb_answer QDB (answer_parts topic qid selected) user_id) ε w in
  db w' = Some (answered ε user_id topic selected t u q idx)
  ∧ attempts w'
    = attempts w ++ [Attempt user_id qid
                       (if bool_decide (selected = q_answer q) then 1 else 0) (now ε)].
Proof.
  intros Ht Hu Hq Hidx w'. subst w'.
  destruct w as [d a o]. cbn in Ht. subst d. cbn [attempts].
  apply (leaves_after ε _ (fun w' => db w' = _ ∧ attempts w' = _)).
  unfold leaves, cb_answer, answer_parts.
  apply wp_bind, wp_item; [discriminate|]. intros ? [= <-].
  apply wp_bind, wp_item; [discriminate|]. intros ? [= <-].
  apply wp_bind, wp_item; [discriminate|]. intros ? [= <-].
  apply wp_bind, wp_get_user; [discriminate|]. intros ? [= <-]. rewrite Hu.
  destruct (decide ("answer" = "skip")) as [?|_]; [discriminate|].
  apply wp_bind, wp_item; [discriminate|]. intros ? [= <-].
  assert (Hbank : is_Some (bank_get QDB topic)).
  { unfold question_of in Hq. destruct (bank_get QDB topic); [eauto|discriminate]. }
  apply wp_bind, wp_find_question.
  { intros Hn. rewrite Hn in Hbank. destruct Hbank; discriminate. }
  intros _. rewrite Hq. cbv zeta.
  apply wp_bind, wp_record_attempt. cbn [db attempts outbox].
  unfold answered.
  destruct (bool_decide (selected = q_answer q)) eqn:Hc; cbn [streaks_after].
  - apply wp_bind, wp_bind, wp_subscript; [discriminate|]. intros ? [= <-].
    apply wp_bind; eapply wp_update_user_found; [reflexivity|exact Hu|].
    apply wp_bind, wp_update_topic_weight; [discriminate|]. intros ? [= <-].
    apply wp_send. cbn [db attempts outbox].
    apply wp_bind, wp_get_user; [discriminate|]. intros ? [= <-].
    cbn [users put_stat]. rewrite lookup_insert_eq.
    apply wp_bind, wp_subscript; [discriminate|]. intros ? [= <-].
    cbn [apply_update difficulty correct_streak wrong_streak active_topic username
         set_difficulty set_correct_streak set_wrong_streak set_active_topic from_option id].
    apply wp_bind, wp_index; [congruence|]. intros i Hi.
    assert (i = idx) by congruence. subst i.
    destruct (index_from_levels _ _ Hidx) as [Hlt Hl].
    unfold level_after, with_difficulty.
    cbn [difficulty correct_streak wrong_streak active_topic username].
    replace (bool_decide (2 <= 0)) with false by reflexivity. cbn [andb].
    destruct (bool_decide (3 <= correct_streak u + 1) && bool_decide (idx < 2)%nat) eqn:Hup.
    + apply wp_bind, wp_bind, wp_item.
      { apply andb_prop in Hup as [_ Hi2]. apply bool_decide_eq_true in Hi2.
        intros Hn. apply lookup_ge_None in Hn. cbn in Hn. lia. }
      intros l Hl'. rewrite Hl'. cbn [from_option id].
      apply wp_bind; eapply wp_update_user_found; [reflexivity|apply lookup_insert_eq|].
      apply wp_send. cbn [db attempts outbox]. apply wp_bind, wp_ret.
      apply send_question_ack. intros o'. cbn.
      rewrite insert_insert_eq. auto.
    + apply wp_bind, wp_ret. apply wp_bind, wp_ret.
      apply send_question_ack. intros o'. cbn. auto.
  - apply wp_bind, wp_bind, wp_subscript; [discriminate|]. intros ? [= <-].
    apply wp_bind; eapply wp_update_user_found; [reflexivity|exact Hu|].
    apply wp_bind, wp_update_topic_weight; [discriminate|]. intros ? [= <-].
    apply wp_send. cbn [db attempts outbox].
    apply wp_bind, wp_get_user; [discriminate|]. intros ? [= <-].
    cbn [users put_stat]. rewrite lookup_insert_eq.
    apply wp_bind, wp_subscript; [discriminate|]. intros ? [= <-].
    cbn [apply_update difficulty correct_streak wrong_streak active_topic username
         set_difficulty set_correct_streak set_wrong_streak set_active_topic from_option id].
    apply wp_bind, wp_index; [congruence|]. intros i Hi.
    assert (i = idx) by congruence. subst i.
    destruct (index_from_levels _ _ Hidx) as [Hlt Hl].
    unfold level_after, with_difficulty.
    cbn [difficulty correct_streak wrong_streak active_topic username].
    replace (bool_decide (3 <= 0)) with false by reflexivity. cbn [andb].
    apply wp_bind, wp_ret.
    destruct (bool_decide (2 <= wrong_streak u + 1) && bool_decide (0 < idx)%nat) eqn:Hdn.
    + apply wp_bind, wp_bind, wp_item.
      { intros Hn. apply lookup_ge_None in Hn. cbn in Hn. lia. }
      intros l Hl'. rewrite Hl'. cbn [from_option id].
      apply wp_bind; eapply wp_update_user_found; [reflexivity|apply lookup_insert_eq|].
      apply wp_send. cbn [db attempts outbox].
      apply send_question_ack. intros o'. cbn.
      rewrite insert_insert_eq. auto.
    + apply wp_bind, wp_ret.
      apply send_question_ack. intros o'. cbn. auto.
Qed.

(** ** One answer, seen on the row of the user *)

Lemma levels_lookup_index i d :
  levels !! i = Some d -> index_from levels d 0 = Some i.
Proof.
  unfold levels. destruct i as [|[|[|i]]]; cbn; intros [= <-]; reflexivity.
Qed.

Lemma user_of_Some user_id w u :
  user_of user_id w = Some u ->
  exists t, db w = Some t ∧ users t !! user_id = Some u.
Proof. unfold user_of. destruct (db w) as [t|]; [eauto|discriminate]. Qed.

Lemma answer_step QDB ε w user_id u topic qid selected q idx :
  user_of user_id w = Some u ->
  question_of QDB topic qid = Some q ->
  levels !! idx = Some (difficulty u) ->
  let u1 := streaks_after (bool_decide (selected = q_answer q)) u in
  user_of user_id (after (cb_answer QDB (answer_parts topic qid selected) user_id) ε w)
  = Some (with_difficulty (level_after u1 idx) u1).
Proof.
  intros Hu Hq Hidx u1. apply user_of_Some in Hu as (t & Ht & Hu).
  apply levels_lookup_index in Hidx.
  destruct (cb_answer_found QDB ε w t user_id u topic qid selected q idx Ht Hu Hq Hidx)
    as [Hdb _].
  unfold user_of. rewrite Hdb. unfold answered. cbn [users].
  apply lookup_insert_eq.
Qed.

Lemma answers_correctly_parts QDB parts :
  answers_correctly QDB parts = true ->
  exists topic qid q,
    parts = answer_parts topic qid (q_answer q) ∧ question_of QDB topic qid = Some q.
Proof.
  unfold answers_correctly.
  destruct parts as [|cmd [|topic [|qid [|selected [|? ?]]]]]; try discriminate.
  intros H. apply andb_prop in H as [Hc Hq]. apply bool_decide_eq_true in Hc. subst cmd.
  destruct (question_of QDB topic qid) as [q|] eqn:E; [|discriminate].
  apply bool_decide_eq_true in Hq. subst selected. eauto.
Qed.

Lemma answers_wrongly_parts QDB parts :
  answers_wrongly QDB parts = true ->
  exists topic qid selected q,
    parts = answer_parts topic qid selected ∧ question_of QDB topic qid = Some q
    ∧ selected ≠ q_answer q.
Proof.
  unfold answers_wrongly.
  destruct parts as [|cmd [|topic [|qid [|selected [|? ?]]]]]; try discriminate.
  intros H. apply andb_prop in H as [Hc Hq]. apply bool_decide_eq_true in Hc. subst cmd.
  destruct (question_of QDB topic qid) as [q|] eqn:E; [|discriminate].
  apply negb_true_iff, bool_decide_eq_false in Hq. exists topic, qid, selected, q. auto.
Qed.

Lemma correct_step QDB ε w user_id u parts idx :
  user_of user_id w = Some u ->
  answers_correctly QDB parts = true ->
  levels !! idx = Some (difficulty u) ->
  user_of user_id (after (cb_answer QDB parts user_id) ε w)
  = Some (with_difficulty (level_after (streaks_after true u) idx)
                          (streaks_after true u)).
Proof.
  intros Hu Hp Hidx. apply answers_correctly_parts in Hp as (topic & qid & q & -> & Hq).
  rewrite (answer_step QDB ε w user_id u topic qid (q_answer q) q idx Hu Hq Hidx).
  rewrite bool_decide_eq_true_2 by reflexivity. reflexivity.
Qed.

Lemma wrong_step QDB ε w user_id u parts idx :
  user_of user_id w = Some u ->
  answers_wrongly QDB parts = true ->
  levels !! idx = Some (difficulty u) ->
  user_of user_id (after (cb_answer QDB parts user_id) ε w)
  = Some (with_difficulty (level_after (streaks_after false u) idx)
                          (streaks_after false u)).
Proof.
  intros Hu Hp Hidx.
  apply answers_wrongly_parts in Hp as (topic & qid & selected & q & -> & Hq & Hne).
  rewrite (answer_step QDB ε w user_id u topic qid selected q idx Hu Hq Hidx).
  rewrite bool_decide_eq_false_2 by exact Hne. reflexivity.
Qed.

Lemma level_after_step u idx :
  levels !! idx = Some (difficulty u) ->
  correct_streak u = 0 ∨ wrong_streak u = 0 ->
  exists idx',
    levels !! idx' = Some (level_after u idx)
    ∧ (3 <= correct_streak u -> (idx < 2)%nat -> idx' = S idx)
    ∧ (2 <= wrong_streak u -> (0 < idx)%nat -> S idx' = idx)
    ∧ (correct_streak u < 3 ∨ idx = 2%nat ->
       wrong_streak u < 2 ∨ idx = 0%nat -> idx' = idx).
Proof.
  intros Hidx Hex. unfold level_after.
  assert (Hlt : (idx < 3)%nat) by (apply lookup_lt_Some in Hidx; exact Hidx).
  destruct (decide (3 <= correct_streak u)) as [Hc|Hc];
    destruct (decide (2 <= wrong_streak u)) as [Hw|Hw]; try lia;
    destruct idx as [|[|[|idx]]]; try lia;
    decide_conditions; cbn [andb]; cbn;
    first [ exists 0%nat; split_and!; [first [reflexivity|exact Hidx] | intros; lia ..]
          | exists 1%nat; split_and!; [first [reflexivity|exact Hidx] | intros; lia ..]
          | exists 2%nat; split_and!; [first [reflexivity|exact Hidx] | intros; lia ..] ].
Qed.

(** The level moves by one step at most, and as lines 295-300 say. *)
Lemma answer_moves_one_level QDB ε w user_id u topic qid selected q idx :
  user_of user_id w = Some u ->
  question_of QDB topic qid = Some q ->
  levels !! idx = Some (difficulty u) ->
  exists u' idx',
    user_of user_id
      (after (cb_answer QDB (answer_parts topic qid selected) user_id) ε w) = Some u'
    ∧ levels !! idx' = Some (difficulty u')
    ∧ (3 <= correct_streak u' -> (idx < 2)%nat -> idx' = S idx)
    ∧ (2 <= wrong_streak u' -> (0 < idx)%nat -> S idx' = idx)
    ∧ (correct_streak u' < 3 ∨ idx = 2%nat ->
       wrong_streak u' < 2 ∨ idx = 0%nat -> idx' = idx).
Proof.
  intros Hu Hq Hidx.
  rewrite (answer_step QDB ε w user_id u topic qid selected q idx Hu Hq Hidx).
  set (u1 := streaks_after _ u).
  assert (H1 : difficulty u1 = difficulty u)
    by (unfold u1; destruct (bool_decide _); reflexivity).
  assert (Hex : correct_streak u1 = 0 ∨ wrong_streak u1 = 0)
    by (unfold u1; destruct (bool_decide _); cbn; auto).
  rewrite <- H1 in Hidx.
  destruct (level_after_step u1 idx Hidx Hex) as (idx' & Hl & Hrest).
  exists (with_difficulty (level_after u1 idx) u1), idx'.
  split; [reflexivity|]. split; [exact Hl|]. exact Hrest.
Qed.

(** ** Runs of answers *)

Lemma three_correct QDB user_id w u s1 s2 s3 :
  user_of user_id w = Some u ->
  difficulty u = "easy" -> correct_streak u = 0 ->
  answers_correctly QDB (fst s1) = true ->
  answers_correctly QDB (fst s2) = true ->
  answers_correctly QDB (fst s3) = true ->
  exists u2 u3,
    user_of user_id (answer_all QDB user_id [s1; s2] w) = Some u2
    ∧ difficulty u2 = "easy"
    ∧ user_of user_id (answer_all QDB user_id [s1; s2; s3] w) = Some u3
    ∧ difficulty u3 = "medium" ∧ correct_streak u3 = 3.
Proof.
  intros Hu Hd Hc H1 H2 H3. unfold answer_all. cbn [fold_left].
  destruct u as [n d c x a]. cbn in Hd, Hc. subst d c.
  pose proof (correct_step QDB (snd s1) w user_id _ _ 0 Hu H1 eq_refl) as Hu1.
  vm_compute with_difficulty in Hu1.
  pose proof (correct_step QDB (snd s2) _ user_id _ _ 0 Hu1 H2 eq_refl) as Hu2.
  vm_compute with_difficulty in Hu2.
  pose proof (correct_step QDB (snd s3) _ user_id _ _ 0 Hu2 H3 eq_refl) as Hu3.
  vm_compute with_difficulty in Hu3.
  eexists _, _. split_and!; [exact Hu2 | reflexivity | exact Hu3 | reflexivity ..].
Qed.

Lemma two_wrong QDB user_id w u s1 s2 :
  user_of user_id w = Some u ->
  difficulty u = "hard" -> wrong_streak u = 0 ->
  answers_wrongly QDB (fst s1) = true ->
  answers_wrongly QDB (fst s2) = true ->
  exists u1 u2,
    user_of user_id (answer_all QDB user_id [s1] w) = Some u1
    ∧ difficulty u1 = "hard"
    ∧ user_of user_id (answer_all QDB user_id [s1; s2] w) = Some u2
    ∧ difficulty u2 = "medium" ∧ wrong_streak u2 = 2.
Proof.
  intros Hu Hd Hc H1 H2. unfold answer_all. cbn [fold_left].
  destruct u as [n d c x a]. cbn in Hd, Hc. subst d x.
  pose proof (wrong_step QDB (snd s1) w user_id _ _ 2 Hu H1 eq_refl) as Hu1.
  vm_compute with_difficulty in Hu1.
  pose proof (wrong_step QDB (snd s2) _ user_id _ _ 2 Hu1 H2 eq_refl) as Hu2.
  vm_compute with_difficulty in Hu2.
  eexists _, _. split_and!; [exact Hu1 | reflexivity | exact Hu2 | reflexivity ..].
Qed.

Lemma reachable_user_good QDB w user_id u :
  reachable QDB w -> user_of user_id w = Some u -> good_user u.
Proof.
  intros Hr Hu. apply user_of_Some in Hu as (t & Ht & Hu).
  destruct (reachable_good QDB w Hr t Ht) as [Hus _]. exact (Hus _ _ Hu).
Qed.

(** ** What [update_topic_weight] does *)

Lemma update_topic_weight_run user_id topic delta ε w t :
  db w = Some t ->
  update_topic_weight user_id topic delta ε w
  = (Ok tt,
     World (Some (put_stat user_id topic
                    (Stat (py_max 0.1 (weight_or_default user_id topic t + delta))
                          (now ε)) t))
           (attempts w) (outbox w)).
Proof.
  intros Ht. unfold update_topic_weight, bind, read_tables. rewrite Ht. reflexivity.
Qed.

Lemma update_topic_weight_no_tables user_id topic delta ε w :
  db w = None ->
  update_topic_weight user_id topic delta ε w = (Raise OperationalError, w).
Proof.
  intros Ht. unfold update_topic_weight, bind, read_tables. rewrite Ht. reflexivity.
Qed.

Lemma weight_of_adjusted user_id topic delta ε w t :
  db w = Some t ->
  weight_of user_id topic (after (update_topic_weight user_id topic delta) ε w)
  = Some (py_max 0.1 (weight_or_default user_id topic t + delta)).
Proof.
  intros Ht. unfold after. rewrite (update_topic_weight_run _ _ _ _ _ _ Ht).
  unfold weight_of. cbn [snd db]. rewrite get_stat_put_eq. reflexivity.
Qed.

Lemma adjust_all_tables user_id topic steps w :
  is_Some (db w) -> is_Some (db (adjust_all user_id topic steps w)).
Proof.
  unfold adjust_all. revert w. induction steps as [|s steps IH]; intros w Hw; [exact Hw|].
  cbn [fold_left]. apply IH. destruct Hw as [t Ht]. unfold after.
  rewrite (update_topic_weight_run _ _ _ _ _ _ Ht). cbn. eauto.
Qed.

Lemma adjust_all_snoc user_id topic steps s w :
  adjust_all user_id topic (steps ++ [s]) w
  = after (update_topic_weight user_id topic (fst s)) (snd s)
          (adjust_all user_id topic steps w).
Proof. unfold adjust_all. rewrite fold_left_app. reflexivity. Qed.

Lemma weight_of_adjust_all user_id topic steps w x :
  steps ≠ [] ->
  weight_of user_id topic (adjust_all user_id topic steps w) = Some x ->
  at_floor x.
Proof.
  intros Hne. destruct steps as [|s0 l] using rev_ind; [contradiction|]. clear IHl Hne.
  rewrite adjust_all_snoc. set (w1 := adjust_all _ _ _ _).
  destruct (db w1) as [t|] eqn:Ht.
  - rewrite (weight_of_adjusted _ _ _ _ _ _ Ht). intros [= <-]. apply py_max_floor.
  - unfold after. rewrite (update_topic_weight_no_tables _ _ _ _ _ Ht).
    unfold weight_of. cbn. rewrite Ht. discriminate.
Qed.

Lemma weight_of_adjust_all_exists user_id topic steps w :
  steps ≠ [] -> is_Some (db w) ->
  is_Some (weight_of user_id topic (adjust_all user_id topic steps w)).
Proof.
  intros Hne Hw. destruct steps as [|s0 l] using rev_ind; [contradiction|]. clear IHl Hne.
  rewrite adjust_all_snoc.
  destruct (adjust_all_tables user_id topic l w Hw) as [t Ht].
  rewrite (weight_of_adjusted _ _ _ _ _ _ Ht). eauto.
Qed.

Lemma good_world_weight w user_id topic x :
  good_world w -> weight_of user_id topic w = Some x -> at_floor x.
Proof.
  unfold weight_of, get_stat. intros Hw. destruct (db w) as [t|] eqn:Ht; [|discriminate].
  destruct (Hw t Ht) as [_ Hs].
  destruct (topic_stats t !! user_id) as [m|] eqn:Hm; cbn.
  - destruct (m !! topic) as [r|] eqn:Hr; cbn; [|discriminate].
    intros [= <-]. exact (Hs _ _ Hm _ _ Hr).
  - rewrite lookup_empty. discriminate.
Qed.

Lemma reachable_answer_all QDB user_id steps w :
  reachable QDB w -> reachable QDB (answer_all QDB user_id steps w).
Proof.
  unfold answer_all. revert w. induction steps as [|s steps IH]; intros w Hw; [exact Hw|].
  cbn [fold_left]. apply IH.
  exact (reachable_step QDB w (Callback (fst s) user_id) (snd s) Hw).
Qed.

(** ** Any callback moves a level by one step at most *)

Section OneStep.
Context (QDB : bank) (ε : env) (user_id who : Z) (u : user_row).
Context (Hlevel : difficulty u ∈ levels).

#[local] Abbreviation same_level := (same_level_as who u).
#[local] Abbreviation near_level := (near_level_of who u).
#[local] Abbreviation one_streak := (one_streak_zero user_id).

Lemma adjacent_refl d : d ∈ levels -> adjacent d d.
Proof.
  intros Hd. apply list_elem_of_lookup_1 in Hd as [i Hi].
  exists i, i. auto.
Qed.

Lemma same_level_near w : same_level w -> near_level w.
Proof.
  intros (u' & Hu' & Hd). exists u'. split; [exact Hu'|].
  rewrite Hd. apply adjacent_refl, Hlevel.
Qed.

Lemma user_of_db w w' i : db w' = db w -> user_of i w' = user_of i w.
Proof. unfold user_of. intros ->. reflexivity. Qed.

Lemma same_level_db w w' : db w' = db w -> same_level w -> same_level w'.
Proof.
  intros Hdb (u' & Hu' & Hd). exists u'. rewrite (user_of_db _ _ _ Hdb). auto.
Qed.

Lemma near_level_db w w' : db w' = db w -> near_level w -> near_level w'.
Proof.
  intros Hdb (u' & Hu' & Hd). exists u'. rewrite (user_of_db _ _ _ Hdb). auto.
Qed.

Lemma one_streak_db w w' : db w' = db w -> one_streak w -> one_streak w'.
Proof. intros Hdb Hs u1. rewrite (user_of_db _ _ _ Hdb). apply Hs. Qed.

Lemma user_of_updated i k t a o :
  user_of i (World (Some (Tables (alter (apply_update k) user_id (users t))
                                 (topic_stats t))) a o)
  = if decide (user_id = i) then apply_update k <$> users t !! i else users t !! i.
Proof.
  unfold user_of. cbn. case_decide as Hi.
  - subst i. apply lookup_alter_eq.
  - apply lookup_alter_ne, Hi.
Qed.

(** Lines 284 and 288: the level stays, one streak is zero afterwards. *)
Lemma streak_update_keeps_level c x w :
  c = 0 ∨ x = 0 ->
  same_level w ->
  wp near_level ε (update_user user_id (Update None (Some c) (Some x) None))
     (fun _ w' => same_level w' ∧ one_streak w') w.
Proof.
  intros Hcx Hs. apply wp_update_user; [intros _; apply same_level_near, Hs|].
  intros t Ht. destruct Hs as (u' & Hu' & Hd).
  unfold user_of in Hu'. rewrite Ht in Hu'. split.
  - unfold same_level_as. rewrite user_of_updated. case_decide.
    + rewrite Hu'. eexists. split; [reflexivity|]. exact Hd.
    + eauto.
  - intros u1. rewrite user_of_updated. rewrite decide_True by reflexivity.
    destruct (users t !! user_id); [|discriminate]. intros [= <-]. exact Hcx.
Qed.

Lemma weight_update_keeps_level topic delta w :
  same_level w ∧ one_streak w ->
  wp near_level ε (update_topic_weight user_id topic delta)
     (fun _ w' => same_level w' ∧ one_streak w') w.
Proof.
  intros [Hs Ho]. apply wp_update_topic_weight; [intros _; apply same_level_near, Hs|].
  intros t Ht.
  assert (Hdb : forall i a o r,
            user_of i (World (Some (put_stat user_id topic r t)) a o) = user_of i w).
  { intros i a o r. unfold user_of. rewrite Ht. reflexivity. }
  split.
  - destruct Hs as (u' & Hu' & Hd). exists u'. rewrite Hdb. auto.
  - intros u1. rewrite Hdb. apply Ho.
Qed.

(** Lines 296 and 299: the level of the answering user becomes a
    neighbour of the level it had. *)
Lemma level_update_is_near l idx idx' w :
  levels !! idx' = Some l ->
  idx' = S idx ∨ idx = S idx' ->
  (forall u1, user_of user_id w = Some u1 -> levels !! idx = Some (difficulty u1)) ->
  same_level w ->
  wp near_level ε (update_user user_id (Update (Some l) None None None))
     (fun _ => near_level) w.
Proof.
  intros Hl Hstep Hidx Hs. apply wp_update_user; [intros _; apply same_level_near, Hs|].
  intros t Ht. destruct Hs as (u' & Hu' & Hd).
  unfold near_level_of. rewrite user_of_updated. case_decide as Hi.
  - subst who. specialize (Hidx u' Hu'). rewrite Hd in Hidx.
    unfold user_of in Hu'. rewrite Ht in Hu'. rewrite Hu'.
    eexists. split; [reflexivity|]. cbn. exists idx, idx'. auto.
  - unfold user_of in Hu'. rewrite Ht in Hu'. exists u'. split; [exact Hu'|].
    rewrite Hd. apply adjacent_refl, Hlevel.
Qed.

Lemma cb_answer_near_level parts w :
  user_of who w = Some u ->
  leaves ε (cb_answer QDB parts user_id) near_level w.
Proof.
  intros Hu. assert (Hs : same_level w) by (exists u; auto).
  unfold leaves, cb_answer.
  apply wp_bind, wp_item; [intros _; apply same_level_near, Hs|]. intros cmd _.
  apply wp_bind, wp_item; [intros _; apply same_level_near, Hs|]. intros topic _.
  apply wp_bind, wp_item; [intros _; apply same_level_near, Hs|]. intros qid _.
  apply wp_bind, wp_get_user; [intros _; apply same_level_near, Hs|]. intros t Ht.
  assert (Hframe : forall a o, near_level (World (db w) a o)).
  { intros a o. apply same_level_near. revert Hs. apply same_level_db. reflexivity. }
  destruct (decide (cmd = "skip")).
  { apply wp_bind, wp_send. apply wp_bind, wp_subscript; [intros _; apply Hframe|].
    intros u0 _. apply send_question_ack. intros o. apply Hframe. }
  apply wp_bind, wp_item; [intros _; apply same_level_near, Hs|]. intros selected _.
  apply wp_bind, wp_find_question; [intros _; apply same_level_near, Hs|]. intros _.
  destruct (question_of QDB topic qid) as [q|]; [|apply wp_send, Hframe].
  cbv zeta. apply wp_bind, wp_record_attempt.
  set (w0 := World (db w) _ (outbox w)).
  assert (Hs0 : same_level w0) by (revert Hs; apply same_level_db; reflexivity).
  apply wp_bind with (m := if bool_decide (selected = q_answer q) then _ else _).
  eapply wp_mono with (Q := fun _ w' => same_level w' ∧ one_streak w').
  { destruct (bool_decide (selected = q_answer q)).
    - apply wp_bind, wp_subscript; [intros _; apply same_level_near, Hs0|]. intros u0 _.
      apply wp_bind. eapply wp_mono; [apply streak_update_keeps_level; auto|].
      cbv beta. intros _ w1 H1.
      apply wp_bind. eapply wp_mono; [apply weight_update_keeps_level, H1|].
      cbv beta. intros _ w2 [H2 H2']. apply wp_send. split.
      + revert H2. apply same_level_db. reflexivity.
      + revert H2'. apply one_streak_db. reflexivity.
    - apply wp_bind, wp_subscript; [intros _; apply same_level_near, Hs0|]. intros u0 _.
      apply wp_bind. eapply wp_mono; [apply streak_update_keeps_level; auto|].
      cbv beta. intros _ w1 H1.
      apply wp_bind. eapply wp_mono; [apply weight_update_keeps_level, H1|].
      cbv beta. intros _ w2 [H2 H2']. apply wp_send. split.
      + revert H2. apply same_level_db. reflexivity.
      + revert H2'. apply one_streak_db. reflexivity. }
  cbv beta. intros _ w1 [Hs1 Ho1].
  apply wp_bind, wp_get_user; [intros _; apply same_level_near, Hs1|]. intros t1 Ht1.
  apply wp_bind, wp_subscript; [intros _; apply same_level_near, Hs1|]. intros u1 Hu1.
  assert (Hrow : user_of user_id w1 = Some u1) by (unfold user_of; rewrite Ht1; exact Hu1).
  apply wp_bind, wp_index; [intros _; apply same_level_near, Hs1|]. intros idx Hidx.
  apply index_from_levels in Hidx as [Hlt Hidx].
  specialize (Ho1 u1 Hrow).
  assert (Hrows : forall u2, user_of user_id w1 = Some u2 ->
                             levels !! idx = Some (difficulty u2))
    by (intros u2 Hu2; rewrite Hrow in Hu2; injection Hu2 as <-; exact Hidx).
  assert (Htail : forall w', near_level w' ->
            wp near_level ε
               (send_question QDB user_id (active_topic u1) (difficulty u1) ;; send Ack)
               (fun _ => near_level) w').
  { intros w' Hn. apply send_question_ack. intros o. revert Hn.
    apply near_level_db. reflexivity. }
  destruct (bool_decide (3 <= correct_streak u1) && bool_decide (idx < 2)%nat) eqn:Hup;
    destruct (bool_decide (2 <= wrong_streak u1) && bool_decide (0 < idx)%nat) eqn:Hdn.
  - apply andb_prop in Hup as [Hc _]. apply andb_prop in Hdn as [Hx _].
    apply bool_decide_eq_true in Hc. apply bool_decide_eq_true in Hx. lia.
  - apply andb_prop in Hup as [_ Hi]. apply bool_decide_eq_true in Hi.
    apply wp_bind, wp_bind, wp_item.
    { intros Hn. apply lookup_ge_None in Hn. cbn in Hn. lia. }
    intros l Hl. apply wp_bind. eapply wp_mono.
    { apply (level_update_is_near l idx (idx + 1)); [exact Hl|left; lia|exact Hrows|exact Hs1]. }
    cbv beta. intros _ w2 Hn2. apply wp_send. apply wp_bind, wp_ret.
    apply Htail. revert Hn2. apply near_level_db. reflexivity.
  - apply andb_prop in Hdn as [_ Hi]. apply bool_decide_eq_true in Hi.
    apply wp_bind, wp_ret. apply wp_bind, wp_bind, wp_item.
    { intros Hn. apply lookup_ge_None in Hn. cbn in Hn. lia. }
    intros l Hl. apply wp_bind. eapply wp_mono.
    { apply (level_update_is_near l idx (idx - 1)); [exact Hl|right; lia|exact Hrows|exact Hs1]. }
    cbv beta. intros _ w2 Hn2. apply wp_send.
    apply Htail. revert Hn2. apply near_level_db. reflexivity.
  - apply wp_bind, wp_ret. apply wp_bind, wp_ret. apply Htail, same_level_near, Hs1.
Qed.
End OneStep.

(** * The claims about progression *)

(** C1.  The level of a user is always easy, medium or hard.  A callback,
    whatever its data and its user, leaves every level where it is or moves
    it to a neighbour.  For an answer to a question of the bank: after the
    streak update, a correct streak of 3 or more moves a level that is not
    hard one step up, a wrong streak of 2 or more moves a level that is not
    easy one step down, and otherwise the level stays; the new level is
    again one of the three.  From easy and a correct streak of 0, three
    correct answers in a row lead to medium, and not before the third; from
    hard and a wrong streak of 0, two wrong answers in a row lead to
    medium. *)
Theorem difficulty_moves_one_step (QDB : bank) :
  (forall w user_id u,
     reachable QDB w -> user_of user_id w = Some u -> difficulty u ∈ levels)
  ∧ (forall ε w parts user_id who u,
       user_of who w = Some u -> difficulty u ∈ levels ->
       exists u',
         user_of who (after (cb_answer QDB parts user_id) ε w) = Some u'
         ∧ adjacent (difficulty u) (difficulty u'))
  ∧ (forall ε w user_id u topic qid selected q idx,
       user_of user_id w = Some u ->
       question_of QDB topic qid = Some q ->
       levels !! idx = Some (difficulty u) ->
       exists u' idx',
         user_of user_id
           (after (cb_answer QDB (answer_parts topic qid selected) user_id) ε w)
         = Some u'
         ∧ levels !! idx' = Some (difficulty u')
         ∧ (3 <= correct_streak u' -> (idx < 2)%nat -> idx' = S idx)
         ∧ (2 <= wrong_streak u' -> (0 < idx)%nat -> S idx' = idx)
         ∧ (correct_streak u' < 3 ∨ idx = 2%nat ->
            wrong_streak u' < 2 ∨ idx = 0%nat -> idx' = idx))
  ∧ (forall w user_id u s1 s2 s3,
       user_of user_id w = Some u ->
       difficulty u = "easy" -> correct_streak u = 0 ->
       answers_correctly QDB (fst s1) = true ->
       answers_correctly QDB (fst s2) = true ->
       answers_correctly QDB (fst s3) = true ->
       exists u2 u3,
         user_of user_id (answer_all QDB user_id [s1; s2] w) = Some u2
         ∧ difficulty u2 = "easy"
         ∧ user_of user_id (answer_all QDB user_id [s1; s2; s3] w) = Some u3
         ∧ difficulty u3 = "medium" ∧ correct_streak u3 = 3)
  ∧ (forall w user_id u s1 s2,
       user_of user_id w = Some u ->
       difficulty u = "hard" -> wrong_streak u = 0 ->
       answers_wrongly QDB (fst s1) = true ->
       answers_wrongly QDB (fst s2) = true ->
       exists u1 u2,
         user_of user_id (answer_all QDB user_id [s1] w) = Some u1
         ∧ difficulty u1 = "hard"
         ∧ user_of user_id (answer_all QDB user_id [s1; s2] w) = Some u2
         ∧ difficulty u2 = "medium" ∧ wrong_streak u2 = 2).
Proof.
  split_and!.
  - intros w user_id u Hr Hu.
    destruct (reachable_user_good QDB w user_id u Hr Hu) as [Hd _]. exact Hd.
  - intros ε w parts user_id who u Hu Hd.
    apply (leaves_after ε _ (near_level_of who u)).
    apply cb_answer_near_level; assumption.
  - intros. eapply answer_moves_one_level; eassumption.
  - intros. eapply three_correct; eassumption.
  - intros. eapply two_wrong; eassumption.
Qed.

(** Three correct answers to Q1 by the user of the small database. *)
Lemma difficulty_moves_one_step_witness :
  let s := (answer_parts "A" "Q1" "a", demo_env) in
  exists u2 u3,
    user_of 1 (answer_all demo_bank 1 [s; s] demo_world) = Some u2
    ∧ difficulty u2 = "easy"
    ∧ user_of 1 (answer_all demo_bank 1 [s; s; s] demo_world) = Some u3
    ∧ difficulty u3 = "medium" ∧ correct_streak u3 = 3.
Proof.
  intros s.
  destruct (difficulty_moves_one_step demo_bank) as (_ & _ & _ & H3 & _).
  apply (H3 demo_world 1 (User "U1" "easy" 0 0 "Mixed") s s s); reflexivity.
Defined.

(** C2.  In every state the bot can reach, no user has both streaks
    different from zero; and an answer to a question of the bank adds one to
    the correct streak and sets the wrong streak to 0 when it is correct,
    sets the correct streak to 0 and adds one to the wrong streak when it is
    not. *)
Theorem streaks_exclude_each_other (QDB : bank) :
  (forall w user_id u,
     reachable QDB w -> user_of user_id w = Some u ->
     (0 < correct_streak u -> wrong_streak u = 0)
     ∧ (0 < wrong_streak u -> correct_streak u = 0))
  ∧ (forall ε w user_id u topic qid selected q idx,
       user_of user_id w = Some u ->
       question_of QDB topic qid = Some q ->
       levels !! idx = Some (difficulty u) ->
       exists u',
         user_of user_id
           (after (cb_answer QDB (answer_parts topic qid selected) user_id) ε w)
         = Some u'
         ∧ (selected = q_answer q ->
            correct_streak u' = correct_streak u + 1 ∧ wrong_streak u' = 0)
         ∧ (selected ≠ q_answer q ->
            correct_streak u' = 0 ∧ wrong_streak u' = wrong_streak u + 1)).
Proof.
  split.
  - intros w user_id u Hr Hu.
    destruct (reachable_user_good QDB w user_id u Hr Hu) as (_ & _ & _ & Hex). lia.
  - intros ε w user_id u topic qid selected q idx Hu Hq Hidx.
    rewrite (answer_step QDB ε w user_id u topic qid selected q idx Hu Hq Hidx).
    eexists. split; [reflexivity|].
    unfold with_difficulty, streaks_after. split; intros Hsel.
    + rewrite bool_decide_eq_true_2 by exact Hsel. cbn. auto.
    + rewrite bool_decide_eq_false_2 by exact Hsel. cbn. auto.
Qed.

(** A wrong answer to Q1 by the user of the small database. *)
Lemma streaks_exclude_each_other_witness :
  exists u',
    user_of 1 (after (cb_answer demo_bank (answer_parts "A" "Q1" "b") 1)
                     demo_env demo_world) = Some u'
    ∧ ("b" = q_answer demo_q1 -> correct_streak u' = 0 + 1 ∧ wrong_streak u' = 0)
    ∧ ("b" ≠ q_answer demo_q1 -> correct_streak u' = 0 ∧ wrong_streak u' = 0 + 1).
Proof.
  destruct (streaks_exclude_each_other demo_bank) as [_ H].
  apply (H demo_env demo_world 1 (User "U1" "easy" 0 0 "Mixed") "A" "Q1" "b"
           demo_q1 0%nat); reflexivity.
Defined.

(** * The claims about weights *)

(** C3.  After one or more calls of [update_topic_weight] for a user and a
    topic, whatever the deltas, the recorded weight is at least 0.1, hence
    positive; it exists as soon as the tables do.  The same bound holds for
    every weight in every state the bot can reach, and so after any number
    of answers. *)
Theorem weight_never_below_floor (QDB : bank) :
  (forall user_id topic steps w x,
     steps ≠ [] ->
     weight_of user_id topic (adjust_all user_id topic steps w) = Some x ->
     at_floor x ∧ PrimFloat.ltb 0 x = true)
  ∧ (forall user_id topic steps w,
       steps ≠ [] -> is_Some (db w) ->
       is_Some (weight_of user_id topic (adjust_all user_id topic steps w)))
  ∧ (forall w user_id topic x,
       reachable QDB w -> weight_of user_id topic w = Some x ->
       at_floor x ∧ PrimFloat.ltb 0 x = true)
  ∧ (forall w user_id steps user_id' topic x,
       reachable QDB w ->
       weight_of user_id' topic (answer_all QDB user_id steps w) = Some x ->
       at_floor x ∧ PrimFloat.ltb 0 x = true).
Proof.
  assert (Hpos : forall x, at_floor x -> at_floor x ∧ PrimFloat.ltb 0 x = true)
    by (intros x Hx; split; [exact Hx|apply at_floor_positive, Hx]).
  split_and!.
  - intros user_id topic steps w x Hne Hx. apply Hpos.
    exact (weight_of_adjust_all user_id topic steps w x Hne Hx).
  - intros. apply weight_of_adjust_all_exists; assumption.
  - intros w user_id topic x Hr Hx. apply Hpos.
    exact (good_world_weight w user_id topic x (reachable_good QDB w Hr) Hx).
  - intros w user_id steps user_id' topic x Hr Hx. apply Hpos.
    refine (good_world_weight _ user_id' topic x _ Hx).
    apply (reachable_good QDB), reachable_answer_all, Hr.
Qed.

(** Five times -0.3 on topic A of the small database: the weight is 0.1. *)
Lemma weight_never_below_floor_witness :
  let steps := replicate 5 ((-0.3)%float, demo_env) in
  steps ≠ []
  ∧ weight_of 1 "A" (adjust_all 1 "A" steps demo_world) = Some 0.1%float
  ∧ at_floor 0.1 ∧ PrimFloat.ltb 0 0.1 = true.
Proof.
  intros steps. split; [discriminate|]. split; [reflexivity|].
  destruct (weight_never_below_floor demo_bank) as [H _].
  apply (H 1 "A" steps demo_world 0.1%float); [discriminate|reflexivity].
Defined.

(** C4.  An answer to a question of the bank replaces the weight [x] of the
    answered topic (1.0 when the topic has no row) by [x + (-0.3)] when the
    answer is correct and by [x + 0.5] when it is not, or by 0.1 when that
    sum is not above 0.1.  From weight 1.0, a correct answer gives 0.7, and
    a correct streak of 1 when it was 0. *)
Theorem answer_adjusts_weight (QDB : bank) ε w user_id u topic qid selected q idx :
  user_of user_id w = Some u ->
  question_of QDB topic qid = Some q ->
  levels !! idx = Some (difficulty u) ->
  let w' := after (cb_answer QDB (answer_parts topic qid selected) user_id) ε w in
  let x := default 1%float (weight_of user_id topic w) in
  let delta := if bool_decide (selected = q_answer q) then (-0.3)%float else 0.5%float in
  weight_of user_id topic w'
  = Some (if PrimFloat.ltb 0.1 (x + delta) then (x + delta)%float else 0.1%float)
  ∧ (x = 1%float -> selected = q_answer q ->
     weight_of user_id topic w' = Some 0.7%float
     ∧ exists u', user_of user_id w' = Some u'
                  ∧ correct_streak u' = correct_streak u + 1
                  ∧ (correct_streak u = 0 -> correct_streak u' = 1)).
Proof.
  intros Hu Hq Hidx w' x delta.
  pose proof (answer_step QDB ε w user_id u topic qid selected q idx Hu Hq Hidx) as Hrow.
  apply user_of_Some in Hu as (t & Ht & Hu).
  destruct (cb_answer_found QDB ε w t user_id u topic qid selected q idx Ht Hu Hq
              (levels_lookup_index _ _ Hidx)) as [Hdb _].
  assert (Hx : x = weight_or_default user_id topic t).
  { unfold x, weight_of, weight_or_default. rewrite Ht.
    destruct (get_stat user_id topic t); reflexivity. }
  assert (Hw' : weight_of user_id topic w'
                = Some (py_max 0.1 (x + delta))).
  { unfold weight_of, w'. rewrite Hdb. unfold answered, get_stat. cbn [topic_stats].
    change (default ∅ (topic_stats (put_stat user_id topic ?r t) !! user_id) !! topic)
      with (get_stat user_id topic (put_stat user_id topic r t)).
    rewrite get_stat_put_eq, Hx. reflexivity. }
  split; [exact Hw'|].
  intros H1 Hsel. split.
  - rewrite Hw', H1. unfold delta. rewrite bool_decide_eq_true_2 by exact Hsel.
    reflexivity.
  - eexists. split; [exact Hrow|].
    rewrite bool_decide_eq_true_2 by exact Hsel. cbn. split; [reflexivity|lia].
Qed.

(** The scenario of the specification: a new learner answers Q1 correctly. *)
Lemma answer_adjusts_weight_witness :
  let w' := after (cb_answer demo_bank (answer_parts "A" "Q1" "a") 1)
                  demo_env demo_world in
  weight_of 1 "A" demo_world = Some 1%float
  ∧ weight_of 1 "A" w' = Some 0.7%float
  ∧ exists u', user_of 1 w' = Some u' ∧ correct_streak u' = 1.
Proof.
  intros w'. split; [reflexivity|].
  destruct (answer_adjusts_weight demo_bank demo_env demo_world 1
              (User "U1" "easy" 0 0 "Mixed") "A" "Q1" "a" demo_q1 0%nat
              eq_refl eq_refl eq_refl) as [_ H].
  destruct (H eq_refl eq_refl) as (Hw & u' & Hu' & _ & Hc).
  split; [exact Hw|]. exists u'. split; [exact Hu'|]. apply Hc. reflexivity.
Defined.

(** C10.  [update_topic_weight] for a user and a topic that have no row,
    in a database whose tables exist, returns and writes the row with weight
    [max(0.1, 1.0 + delta)]: the very tables it leaves when the row exists
    with weight 1.0. *)
Theorem missing_weight_row_counts_as_one ε w t user_id topic delta :
  db w = Some t ->
  get_stat user_id topic t = None ->
  let r := update_topic_weight user_id topic delta ε w in
  fst r = Ok tt
  ∧ weight_of user_id topic (snd r) = Some (py_max 0.1 (1 + delta))
  ∧ forall ts,
      update_topic_weight user_id topic delta ε
        (World (Some (put_stat user_id topic (Stat 1 ts) t)) (attempts w) (outbox w))
      = r.
Proof.
  intros Ht Hrow r. unfold r.
  rewrite (update_topic_weight_run _ _ _ _ _ _ Ht).
  assert (Hx : weight_or_default user_id topic t = 1%float)
    by (unfold weight_or_default; rewrite Hrow; reflexivity).
  rewrite Hx. split; [reflexivity|]. split.
  - unfold weight_of. cbn [snd db]. rewrite get_stat_put_eq. reflexivity.
  - intros ts.
    rewrite (update_topic_weight_run user_id topic delta ε (World (Some _) _ _) _ eq_refl).
    cbn [attempts outbox]. unfold weight_or_default. rewrite get_stat_put_eq.
    cbn [weight]. do 3 f_equal.
    unfold put_stat. cbn. rewrite !lookup_insert_eq. cbn.
    rewrite !insert_insert_eq. reflexivity.
Qed.

(** Topic C has no row in the small database. *)
Lemma missing_weight_row_counts_as_one_witness :
  weight_of 1 "C" demo_world = None
  ∧ weight_of 1 "C" (after (update_topic_weight 1 "C" (-0.3)) demo_env demo_world)
    = Some 0.7%float.
Proof.
  split; [reflexivity|].
  destruct (db demo_world) as [t|] eqn:Ht; [|discriminate].
  assert (Hrow : get_stat 1 "C" t = None)
    by (injection Ht as <-; reflexivity).
  destruct (missing_weight_row_counts_as_one demo_env demo_world t 1 "C" (-0.3)
              Ht Hrow) as (_ & H & _).
  exact H.
Defined.

(** * The claim about [ensure_user] *)

Lemma user_of_None_ensured QDB user_id name ts w :
  user_of user_id w = None ->
  ensured QDB user_id name ts (default (Tables ∅ ∅) (db w))
  = init_stats user_id ts (bank_keys QDB)
      (Tables (<[user_id := User (default "" name) "easy" 0 0 "Mixed"]>
                 (users (default (Tables ∅ ∅) (db w))))
              (topic_stats (default (Tables ∅ ∅) (db w)))).
Proof.
  unfold user_of, ensured. destruct (db w) as [t|]; cbn.
  - intros ->. reflexivity.
  - intros _. rewrite lookup_empty. reflexivity.
Qed.

Lemma ensure_user_present QDB user_id name ε w u :
  user_of user_id w = Some u -> ensure_user QDB user_id name ε w = (Ok tt, w).
Proof.
  intros Hu. apply user_of_Some in Hu as (t & Ht & Hu).
  rewrite ensure_user_run. destruct w as [d a o]. cbn in Ht. subst d.
  cbn. unfold ensured. rewrite Hu. reflexivity.
Qed.

Lemma ensure_user_user QDB user_id name ε w :
  is_Some (user_of user_id (after (ensure_user QDB user_id name) ε w)).
Proof.
  unfold after. rewrite ensure_user_run. unfold user_of. cbn [snd db].
  unfold ensured.
  destruct (users (default (Tables ∅ ∅) (db w)) !! user_id) as [u|] eqn:Hu.
  - rewrite Hu. eauto.
  - rewrite users_init_stats. cbn. rewrite lookup_insert_eq. eauto.
Qed.

(** C9.  [ensure_user] creates a user that has no row: difficulty easy, both
    streaks 0, active topic Mixed, and weight 1.0 for every topic of the
    bank; it never raises.  For a user that has a row it changes nothing at
    all, so a second call changes nothing. *)
Theorem ensure_user_creates_once (QDB : bank) user_id name :
  (forall ε w,
     user_of user_id w = None ->
     let r := ensure_user QDB user_id name ε w in
     fst r = Ok tt
     ∧ user_of user_id (snd r) = Some (User (default "" name) "easy" 0 0 "Mixed")
     ∧ forall topic, topic ∈ bank_keys QDB ->
                     weight_of user_id topic (snd r) = Some 1%float)
  ∧ (forall ε w u,
       user_of user_id w = Some u ->
       ensure_user QDB user_id name ε w = (Ok tt, w))
  ∧ (forall ε ε' name' w,
       ensure_user QDB user_id name' ε' (after (ensure_user QDB user_id name) ε w)
       = (Ok tt, after (ensure_user QDB user_id name) ε w)).
Proof.
  split_and!.
  - intros ε w Hu r. unfold r. rewrite ensure_user_run. cbn [fst snd].
    rewrite (user_of_None_ensured QDB user_id name (now ε) w Hu).
    split; [reflexivity|]. split.
    + unfold user_of. cbn [db]. rewrite users_init_stats. cbn [users].
      apply lookup_insert_eq.
    + intros topic Hin. unfold weight_of. cbn [db].
      rewrite (get_stat_init_stats _ _ _ _ _ Hin). reflexivity.
  - intros ε w u Hu. exact (ensure_user_present QDB user_id name ε w u Hu).
  - intros ε ε' name' w.
    destruct (ensure_user_user QDB user_id name ε w) as [u Hu].
    exact (ensure_user_present QDB user_id name' ε' _ u Hu).
Qed.

(** User 7 is new to the small database, user 1 is not. *)
Lemma ensure_user_creates_once_witness :
  user_of 7 demo_world = None
  ∧ user_of 7 (after (ensure_user demo_bank 7 None) demo_env demo_world)
    = Some (User "" "easy" 0 0 "Mixed")
  ∧ weight_of 7 "B" (after (ensure_user demo_bank 7 None) demo_env demo_world)
    = Some 1%float
  ∧ ensure_user demo_bank 1 (Some "other") demo_env demo_world = (Ok tt, demo_world).
Proof.
  split; [reflexivity|].
  destruct (ensure_user_creates_once demo_bank 7 None) as (Hnew & _ & _).
  destruct (Hnew demo_env demo_world eq_refl) as (_ & Hu & Hw).
  split; [exact Hu|]. split.
  - apply Hw. unfold demo_bank, bank_keys. cbn. apply elem_of_cons. right.
    apply elem_of_cons. left. reflexivity.
  - destruct (ensure_user_creates_once demo_bank 1 (Some "other")) as (_ & Hold & _).
    exact (Hold demo_env demo_world (User "U1" "easy" 0 0 "Mixed") eq_refl).
Defined.

(** * The selector *)

Section SelectorFacts.
Context (QDB : bank) {N : Type} `{Num N}.

Lemma bank_get_keys t : t ∈ bank_keys QDB -> is_Some (bank_get QDB t).
Proof.
  unfold bank_keys. induction QDB as [|[k e] b IH]; cbn; intros Hin; [inversion Hin|].
  case_decide; [eauto|]. apply elem_of_cons in Hin as [->|Hin]; [contradiction|auto].
Qed.

Lemma build_pool_empty topics level (weights : gmap string N) :
  (forall t, t ∈ topics ->
     exists e, bank_get QDB t = Some e ∧ questions_at e level = []) ->
  build_pool QDB topics level weights = Ok [].
Proof.
  induction topics as [|t rest IH]; intros Hall; [reflexivity|]. cbn.
  destruct (Hall t) as (e & -> & He); [apply elem_of_cons; by left|].
  rewrite IH.
  - rewrite He. reflexivity.
  - intros t' Ht'. apply Hall, elem_of_cons. by right.
Qed.

Lemma build_pool_entry topics level (weights : gmap string N) pool t q x :
  build_pool QDB topics level weights = Ok pool ->
  (t, q, x) ∈ pool ->
  t ∈ topics
  ∧ exists e, bank_get QDB t = Some e ∧ q ∈ questions_at e level.
Proof.
  revert pool. induction topics as [|t0 rest IH]; intros pool; cbn.
  - intros [= <-] Hin. inversion Hin.
  - destruct (bank_get QDB t0) as [e|] eqn:He; [|discriminate].
    destruct (build_pool QDB rest level weights) as [pool'|]; [|discriminate].
    intros [= <-] Hin. apply elem_of_app in Hin as [Hin|Hin].
    + unfold pool_of_topic in Hin.
      apply list_elem_of_fmap in Hin as (q' & [= -> -> _] & Hq').
      split; [apply elem_of_cons; by left|eauto].
    + destruct (IH pool' eq_refl Hin) as [Ht Hq].
      split; [apply elem_of_cons; by right|exact Hq].
Qed.

Lemma walk_entry (pool : list (string * question * N)) upto r t q :
  walk pool upto r = Some (t, q) -> exists x, (t, q, x) ∈ pool.
Proof.
  revert upto. induction pool as [|[[t0 q0] w0] rest IH]; intros upto; cbn; [discriminate|].
  destruct (nge _ _).
  - intros [= -> ->]. exists w0. apply elem_of_cons. by left.
  - intros Hw. destruct (IH _ Hw) as [x Hx]. exists x. apply elem_of_cons. by right.
Qed.

(** When the walk ends without returning, line 151 returns an element of
    the pool as it is: a triple. *)
Lemma select_fallback (pool : list (string * question * N)) u k :
  pool ≠ [] ->
  walk pool nzero (nmul u (pool_total pool)) = None ->
  exists t q x, select pool u k = Some (Triple t q x) ∧ (t, q, x) ∈ pool.
Proof.
  intros Hne Hw. unfold select. destruct pool as [|e pool']; [contradiction|].
  cbv zeta. rewrite Hw.
  assert (Hk : (k mod length (e :: pool') < length (e :: pool'))%nat)
    by (apply Nat.mod_upper_bound; discriminate).
  apply lookup_lt_is_Some_2 in Hk as [[[t q] x] Hx]. rewrite Hx.
  exists t, q, x. split; [reflexivity|]. eapply list_elem_of_lookup_2, Hx.
Qed.

Lemma select_entry (pool : list (string * question * N)) u k c :
  select pool u k = Some c ->
  exists t q x, (t, q, x) ∈ pool ∧ (c = Pair t q ∨ c = Triple t q x).
Proof.
  unfold select. destruct pool as [|e pool']; [discriminate|]. cbv zeta.
  destruct (walk _ _ _) as [[t q]|] eqn:Hw.
  - intros [= <-]. destruct (walk_entry _ _ _ _ _ Hw) as [x Hx]. eauto 6.
  - destruct (_ !! _) as [[[t q] x]|] eqn:Hx; [|discriminate].
    intros [= <-]. exists t, q, x. split; [eapply list_elem_of_lookup_2, Hx|auto].
Qed.

(** Whatever [choose_question] returns was taken from the list of the
    requested level of the topic it is returned with. *)
Lemma choose_question_level topic level (weights : gmap string N) u k c :
  choose_question QDB topic level weights u k = Ok (Some c) ->
  exists t q e,
    (c = Pair t q ∨ exists x, c = Triple t q x)
    ∧ bank_get QDB t = Some e ∧ q ∈ questions_at e level.
Proof.
  unfold choose_question.
  destruct (build_pool _ _ _ _) as [pool|] eqn:Hp; [|discriminate].
  intros [= Hs]. destruct (select_entry _ _ _ _ Hs) as (t & q & x & Hin & Hc).
  destruct (build_pool_entry _ _ _ _ _ _ _ Hp Hin) as (_ & e & He & Hq).
  exists t, q, e. split; [destruct Hc; eauto|auto].
Qed.

Lemma choose_question_empty topic level (weights : gmap string N) u k :
  topic = "Mixed" ∨ is_Some (bank_get QDB topic) ->
  (forall t e, topic = "Mixed" ∨ t = topic ->
               bank_get QDB t = Some e -> questions_at e level = []) ->
  choose_question QDB topic level weights u k = Ok None.
Proof.
  intros Hknown Hempty. unfold choose_question.
  rewrite build_pool_empty; [reflexivity|].
  intros t Ht. unfold topics_in_scope in Ht.
  destruct (decide (topic = "Mixed")) as [Hm|Hm].
  - destruct (bank_get_keys t Ht) as [e He]. exists e. split; [exact He|].
    apply (Hempty t e); auto.
  - apply list_elem_of_singleton in Ht. subst t.
    destruct Hknown as [?|[e He]]; [contradiction|].
    exists e. split; [exact He|]. apply (Hempty topic e); auto.
Qed.
End SelectorFacts.

(** C6.  When the pool is empty (the topic is Mixed or a topic of the bank,
    and no topic in scope has a question at the requested level),
    [choose_question] returns [None] and does not raise; [send_question]
    then sends the message that no question is available, returns, and
    leaves the database alone. *)
Theorem empty_pool_gives_none (QDB : bank) topic level :
  topic = "Mixed" ∨ is_Some (bank_get QDB topic) ->
  (forall t e, topic = "Mixed" ∨ t = topic ->
               bank_get QDB t = Some e -> questions_at e level = []) ->
  (forall (weights : gmap string float) u k,
     choose_question QDB topic level weights u k = Ok None)
  ∧ (forall ε w user_id,
       is_Some (db w) ->
       send_question QDB user_id topic level ε w
       = (Ok tt, World (db w) (attempts w) (outbox w ++ [MsgNoQuestions]))).
Proof.
  intros Hknown Hempty. split.
  - intros weights u k. apply choose_question_empty; assumption.
  - intros ε w user_id [t Ht].
    unfold send_question, get_topic_weights, bind, read_tables, ask, lift, ret.
    rewrite Ht. cbv beta iota.
    rewrite (choose_question_empty QDB topic level _ _ _ Hknown Hempty).
    unfold send. rewrite Ht. reflexivity.
Qed.

(** The small bank has no hard question, in topic A and in any topic. *)
Lemma empty_pool_gives_none_witness :
  choose_question demo_bank "A" "hard" {["A" := 1%float]} 0.5%float 0 = Ok None
  ∧ choose_question demo_bank "Mixed" "hard" {["A" := 1%float]} 0.5%float 0 = Ok None.
Proof.
  assert (Hempty : forall topic t e,
            topic = "Mixed" ∨ t = topic -> bank_get demo_bank t = Some e ->
            questions_at e "hard" = []).
  { intros topic t e _. unfold demo_bank. cbn.
    repeat case_decide; intros [= <-]; reflexivity. }
  split.
  - apply (empty_pool_gives_none demo_bank "A" "hard"); [right; cbn; eauto|].
    apply Hempty.
  - apply (empty_pool_gives_none demo_bank "Mixed" "hard"); [by left|].
    apply Hempty.
Defined.

(** ** The walk and its cumulative sums *)

Section WalkSums.
Context {N : Type} `{Num N}.

Lemma prefix_weight_walk_sum (pool : list (string * question * N)) i :
  prefix_weight pool i = walk_sum nzero pool i.
Proof. reflexivity. Qed.

Lemma prefix_weight_succ (pool : list (string * question * N)) i e :
  pool !! i = Some e ->
  prefix_weight pool (S i) = nadd (prefix_weight pool i) (snd e).
Proof.
  intros He. unfold prefix_weight, pool_total.
  rewrite (take_S_r _ _ _ He), fold_left_app. reflexivity.
Qed.

Lemma prefix_weight_all (pool : list (string * question * N)) :
  prefix_weight pool (length pool) = pool_total pool.
Proof. unfold prefix_weight. rewrite firstn_all. reflexivity. Qed.

(** The walk returns the first entry whose cumulative sum is [>= r]. *)
Lemma walk_first (pool : list (string * question * N)) upto r t q :
  walk pool upto r = Some (t, q)
  <-> exists i x,
        pool !! i = Some (t, q, x)
        ∧ nge (walk_sum upto pool (S i)) r = true
        ∧ forall j, (j < i)%nat -> nge (walk_sum upto pool (S j)) r = false.
Proof.
  revert upto. induction pool as [|[[t0 q0] x0] rest IH]; intros upto.
  - split; [discriminate|]. intros (i & x & Hi & _). discriminate.
  - cbn [walk]. destruct (nge (nadd upto x0) r) eqn:Hge.
    + split.
      * intros [= <- <-]. exists 0%nat, x0. split; [reflexivity|].
        split; [exact Hge|]. intros j Hj. lia.
      * intros (i & x & Hi & _ & Hbefore). destruct i as [|i].
        { injection Hi as -> -> _. reflexivity. }
        specialize (Hbefore 0%nat ltac:(lia)).
        change (nge (nadd upto x0) r = false) in Hbefore. congruence.
    + rewrite IH. split.
      * intros (i & x & Hi & Hat & Hbefore). exists (S i), x.
        split; [exact Hi|]. split; [exact Hat|].
        intros [|j] Hj; [exact Hge|]. apply Hbefore. lia.
      * intros (i & x & Hi & Hat & Hbefore). destruct i as [|i].
        { change (nge (nadd upto x0) r = true) in Hat. congruence. }
        exists i, x. split; [exact Hi|]. split; [exact Hat|].
        intros j Hj. apply (Hbefore (S j)). lia.
Qed.

(** The walk ends without returning when no cumulative sum is [>= r]. *)
Lemma walk_none (pool : list (string * question * N)) upto r :
  walk pool upto r = None
  <-> forall i, (i < length pool)%nat -> nge (walk_sum upto pool (S i)) r = false.
Proof.
  revert upto. induction pool as [|[[t0 q0] x0] rest IH]; intros upto.
  - split; [intros _ i Hi; cbn in Hi; lia|reflexivity].
  - cbn [walk]. destruct (nge (nadd upto x0) r) eqn:Hge.
    + split; [discriminate|]. intros Hall.
      specialize (Hall 0%nat ltac:(cbn; lia)).
      change (nge (nadd upto x0) r = false) in Hall. congruence.
    + rewrite IH. split.
      * intros Hall [|i] Hi; [exact Hge|]. apply Hall. cbn in Hi. lia.
      * intros Hall i Hi. apply (Hall (S i)). cbn. lia.
Qed.

Lemma select_pair (pool : list (string * question * N)) u k t q :
  select pool u k = Some (Pair t q)
  <-> walk pool nzero (nmul u (pool_total pool)) = Some (t, q).
Proof.
  unfold select. destruct pool as [|e rest]; [split; discriminate|]. cbv zeta.
  destruct (walk _ _ _) as [[t' q']|].
  - split; intros [= -> ->]; reflexivity.
  - split; [|discriminate].
    destruct (_ !! _) as [[[t' q'] x']|]; discriminate.
Qed.

Lemma select_triple (pool : list (string * question * N)) u k :
  pool ≠ [] ->
  (exists t q x, select pool u k = Some (Triple t q x))
  <-> walk pool nzero (nmul u (pool_total pool)) = None.
Proof.
  intros Hne. split.
  - intros (t & q & x & Hs). unfold select in Hs.
    destruct pool as [|e rest]; [discriminate|]. cbv zeta in Hs.
    destruct (walk _ _ _) as [[t' q']|]; [discriminate|reflexivity].
  - intros Hw. destruct (select_fallback pool u k Hne Hw) as (t & q & x & Hs & _).
    eauto.
Qed.
End WalkSums.

(** The fallback of line 151 is reached exactly when no cumulative sum of
    the walk is [>= r], because [r] is above all of them or because a
    comparison has a NaN; when the last cumulative sum is [>= r], the walk
    returns a pair.  This holds whatever the arithmetic, so for floats. *)
Theorem fallback_iff_no_sum_reaches {N} `{Num N}
    (pool : list (string * question * N)) u k :
  pool ≠ [] ->
  let r := nmul u (pool_total pool) in
  ((exists t q x, select pool u k = Some (Triple t q x))
   <-> forall i, (i < length pool)%nat -> nge (prefix_weight pool (S i)) r = false)
  ∧ ((exists t q, select pool u k = Some (Pair t q))
     <-> exists i, (i < length pool)%nat ∧ nge (prefix_weight pool (S i)) r = true)
  ∧ (nge (prefix_weight pool (length pool)) r = true ->
     exists t q, select pool u k = Some (Pair t q)).
Proof.
  intros Hne r.
  assert (Hpair : (exists t q, select pool u k = Some (Pair t q))
     <-> exists i, (i < length pool)%nat ∧ nge (prefix_weight pool (S i)) r = true).
  { split.
    - intros (t & q & Hs). apply select_pair, walk_first in Hs.
      destruct Hs as (i & x & Hi & Hat & _). exists i.
      split; [eapply lookup_lt_Some, Hi|exact Hat].
    - intros (i & Hi & Hat).
      destruct (walk pool nzero r) as [[t q]|] eqn:Hw.
      + exists t, q. apply select_pair, Hw.
      + rewrite walk_none in Hw. rewrite prefix_weight_walk_sum in Hat.
        rewrite (Hw i Hi) in Hat. discriminate. }
  split_and!.
  - rewrite (select_triple pool u k Hne). apply walk_none.
  - exact Hpair.
  - intros Hlast. apply Hpair. destruct pool as [|e rest]; [contradiction|].
    exists (length rest). split; [cbn; lia|exact Hlast].
Qed.

(** ** The order of floats *)

Lemma SFcompare_antisym x y c :
  SFcompare x y = Some c -> SFcompare y x = Some (CompOpp c).
Proof.
  destruct x as [sx|sx| |sx mx ex], y as [sy|sy| |sy my ey]; cbn;
    try discriminate; try (intros [= <-]; destruct sx; try destruct sy; reflexivity).
  intros [= <-]. f_equal.
  assert (Hm : Pos.compare_cont Eq my mx = CompOpp (Pos.compare_cont Eq mx my))
    by (rewrite Pos.compare_cont_antisym; reflexivity).
  destruct sx, sy; try reflexivity;
    rewrite (Z.compare_antisym ex ey), Hm;
    destruct (ex ?= ey)%Z, (Pos.compare_cont Eq mx my); reflexivity.
Qed.

(** [r <= b], so that [r] is not a NaN, and not [r <= a] for a number [a]:
    then [a < r]. *)
Lemma float_above a r b :
  PrimFloat.leb a a = true -> PrimFloat.leb r b = true ->
  PrimFloat.leb r a = false -> PrimFloat.ltb a r = true.
Proof.
  rewrite !leb_spec, ltb_spec. unfold SFleb, SFltb. intros Ha Hb Hr.
  destruct (SFcompare (Prim2SF a) (Prim2SF r)) as [c|] eqn:Hc.
  - apply SFcompare_antisym in Hc. rewrite Hc in Hr. destruct c; cbn in Hr; congruence.
  - exfalso. destruct (Prim2SF a) as [?|?| |? ? ?], (Prim2SF r) as [?|?| |? ? ?];
      cbn in Ha, Hb, Hc; discriminate.
Qed.

Lemma float_not_le a r : PrimFloat.ltb a r = true -> PrimFloat.leb r a = false.
Proof.
  rewrite leb_spec, ltb_spec. unfold SFleb, SFltb.
  destruct (SFcompare (Prim2SF a) (Prim2SF r)) as [c|] eqn:Hc; [|discriminate].
  rewrite (SFcompare_antisym _ _ _ Hc). destruct c; cbn; congruence.
Qed.

Lemma SFcompare_swap x y :
  SFcompare y x = match SFcompare x y with
                  | Some c => Some (CompOpp c)
                  | None => None
                  end.
Proof.
  destruct (SFcompare x y) as [c|] eqn:Hc; [apply SFcompare_antisym, Hc|].
  destruct x as [?|?| |? ? ?], y as [?|?| |? ? ?]; cbn in *; congruence.
Qed.

(** ** Multiplying a float by 4.0

    [Prim2SF 4] is the mantissa [2^52] with the exponent [-50].  The product
    with a finite float is that float with its exponent raised by 2 (or, for
    a subnormal, its mantissa shifted), and an infinity when the exponent
    leaves the range: it is exact. *)

Lemma digits_xO m : Zpos (digits2_pos m~0) = Zpos (digits2_pos m) + 1.
Proof. change (digits2_pos m~0) with (Pos.succ (digits2_pos m)). lia. Qed.

Lemma times_two_52 m : Pos.mul m 4503599627370496 = Pos.iter xO m 52.
Proof. rewrite !Pos.mul_xO_r, Pos.mul_1_r. reflexivity. Qed.

Lemma digits_times_two_52 m :
  Zpos (digits2_pos (Pos.iter xO m 52)) = Zpos (digits2_pos m) + 52.
Proof. cbn [Pos.iter]. rewrite !digits_xO. lia. Qed.

Lemma valid_binary_digits s m e :
  valid_binary (S754_finite s m e) = true ->
  e <= 971
  ∧ (Zpos (digits2_pos m) = 53 ∧ -1074 <= e
     ∨ Zpos (digits2_pos m) < 53 ∧ e = -1074).
Proof.
  unfold valid_binary, bounded, canonical_mantissa, fexp, emin.
  change prec with 53. change emax with 1024.
  intros Hv. apply andb_prop in Hv as [Hc Hb].
  apply Z.eqb_eq in Hc. apply Z.leb_le in Hb. lia.
Qed.

Lemma times_four_finite s m e :
  valid_binary (S754_finite s m e) = true ->
  SF64mul (S754_finite s m e) (S754_finite false 4503599627370496 (-50))
  = if (e + 2 <=? 971)%Z then
      if (Zpos (digits2_pos m) =? 53)%Z then S754_finite s m (e + 2)
      else if (Zpos (digits2_pos m) =? 52)%Z then S754_finite s (m~0) (e + 1)
      else S754_finite s (m~0~0) e
    else S754_infinity s.
Proof.
  intros Hv. apply valid_binary_digits in Hv as [Hb Hc].
  pose proof (Pos2Z.is_pos (digits2_pos m)) as Hd.
  unfold SF64mul, SFmul. rewrite xorb_false_r, times_two_52.
  unfold binary_round_aux, shr_fexp, Zdigits2.
  rewrite digits_times_two_52. cbn [Pos.iter]. unfold fexp, emin.
  change prec with 53. change emax with 1024.
  remember (Z.pos (digits2_pos m)) as d eqn:Hdm.
  assert (Hcase : d = 53 ∨ (d = 52 ∧ e = -1074) ∨ (d < 52 ∧ e = -1074)) by lia.
  destruct Hcase as [Hn|[[Hn He]|[Hn He]]].
  - replace (Z.max (d + 52 + (e + -50) - 53) (3 - 1024 - 53) - (e + -50)) with 52
      by lia.
    cbn [shr shr_record_of_loc SpecFloat.iter_pos shr_1 orb shr_m loc_of_shr_record
         round_nearest_even].
    rewrite <- Hdm.
    replace (Z.max (d + (e + -50 + 52) - 53) (3 - 1024 - 53) - (e + -50 + 52)) with 0
      by lia.
    cbn [shr shr_m]. replace (e + -50 + 52) with (e + 2) by lia.
    change (1024 - 53) with 971.
    rewrite (proj2 (Z.eqb_eq d 53) Hn). reflexivity.
  - replace (Z.max (d + 52 + (e + -50) - 53) (3 - 1024 - 53) - (e + -50)) with 51
      by lia.
    cbn [shr shr_record_of_loc SpecFloat.iter_pos shr_1 orb shr_m loc_of_shr_record
         round_nearest_even digits2_pos].
    rewrite Pos2Z.inj_succ, <- Hdm.
    replace (Z.max (Z.succ d + (e + -50 + 51) - 53) (3 - 1024 - 53) - (e + -50 + 51))
      with 0 by lia.
    cbn [shr shr_m]. replace (e + -50 + 51) with (e + 1) by lia.
    change (1024 - 53) with 971.
    rewrite (proj2 (Z.leb_le (e + 1) 971)) by lia.
    rewrite (proj2 (Z.leb_le (e + 2) 971)) by lia.
    rewrite (proj2 (Z.eqb_neq d 53)) by lia.
    rewrite (proj2 (Z.eqb_eq d 52) Hn). reflexivity.
  - replace (Z.max (d + 52 + (e + -50) - 53) (3 - 1024 - 53) - (e + -50)) with 50
      by lia.
    cbn [shr shr_record_of_loc SpecFloat.iter_pos shr_1 orb shr_m loc_of_shr_record
         round_nearest_even digits2_pos].
    rewrite !Pos2Z.inj_succ, <- Hdm.
    replace (Z.max (Z.succ (Z.succ d) + (e + -50 + 50) - 53) (3 - 1024 - 53)
             - (e + -50 + 50)) with 0 by lia.
    cbn [shr shr_m]. replace (e + -50 + 50) with e by lia.
    change (1024 - 53) with 971.
    rewrite (proj2 (Z.leb_le e 971)) by lia.
    rewrite (proj2 (Z.leb_le (e + 2) 971)) by lia.
    rewrite (proj2 (Z.eqb_neq d 53)) by lia.
    rewrite (proj2 (Z.eqb_neq d 52)) by lia. reflexivity.
Qed.

(** Comparing [4 * x] with [4 * c] is comparing [x] with [c], for a
    positive normal number [c] whose exponent is at least 2 above the
    smallest and 2 below the largest. *)
Lemma compare_times_four x mc ec :
  valid_binary x = true ->
  -1072 <= ec -> ec + 2 <= 971 ->
  SFcompare (SF64mul x (S754_finite false 4503599627370496 (-50)))
            (S754_finite false mc (ec + 2))
  = SFcompare x (S754_finite false mc ec).
Proof.
  intros Hv Hlo Hhi. destruct x as [s|s| |s m e]; try reflexivity.
  - cbn. rewrite xorb_false_r. reflexivity.
  - rewrite (times_four_finite s m e Hv).
    apply valid_binary_digits in Hv as [Hb Hc].
    destruct (e + 2 <=? 971)%Z eqn:Hr.
    + destruct (Z.pos (digits2_pos m) =? 53)%Z eqn:H53.
      * cbn [SFcompare]. destruct s; [reflexivity|].
        rewrite (Z.add_comm e 2), (Z.add_comm ec 2), Z.add_compare_mono_l.
        reflexivity.
      * apply Z.eqb_neq in H53.
        assert (He : e = -1074) by lia. subst e.
        assert (H0 : (-1074 ?= ec)%Z = Lt) by (apply Z.compare_lt_iff; lia).
        assert (H1 : (-1074 + 1 ?= ec + 2)%Z = Lt) by (apply Z.compare_lt_iff; lia).
        assert (H2 : (-1074 ?= ec + 2)%Z = Lt) by (apply Z.compare_lt_iff; lia).
        destruct (Z.pos (digits2_pos m) =? 52)%Z; cbn [SFcompare];
          destruct s; rewrite ?H0, ?H1, ?H2; reflexivity.
    + apply Z.leb_gt in Hr. cbn [SFcompare]. destruct s; [reflexivity|].
      rewrite (proj2 (Z.compare_gt_iff e ec)) by lia. reflexivity.
Qed.

(** [4 * u <= 3] is [u <= 0.75], [4 * u <= 4] is [u <= 1] and [3 < 4 * u]
    is [0.75 < u], for every float [u]. *)
Lemma times_four_le_three u :
  PrimFloat.leb (u * 4) 3 = PrimFloat.leb u 0.75.
Proof.
  rewrite !leb_spec, mul_spec. unfold SFleb.
  change (Prim2SF 4) with (S754_finite false 4503599627370496 (-50)).
  change (Prim2SF 3) with (S754_finite false 6755399441055744 (-53 + 2)).
  rewrite compare_times_four by (apply Prim2SF_valid || lia). reflexivity.
Qed.

Lemma times_four_le_four u :
  PrimFloat.leb (u * 4) 4 = PrimFloat.leb u 1.
Proof.
  rewrite !leb_spec, mul_spec. unfold SFleb.
  change (Prim2SF 4) with (S754_finite false 4503599627370496 (-52 + 2)) at 2.
  change (Prim2SF 4) with (S754_finite false 4503599627370496 (-50)).
  rewrite compare_times_four by (apply Prim2SF_valid || lia). reflexivity.
Qed.

Lemma three_lt_times_four u :
  PrimFloat.ltb 3 (u * 4) = PrimFloat.ltb 0.75 u.
Proof.
  rewrite !ltb_spec, mul_spec. unfold SFltb.
  rewrite (SFcompare_swap (SF64mul (Prim2SF u) (Prim2SF 4)) (Prim2SF 3)).
  rewrite (SFcompare_swap (Prim2SF u) (Prim2SF 0.75)).
  change (Prim2SF 4) with (S754_finite false 4503599627370496 (-50)).
  change (Prim2SF 3) with (S754_finite false 6755399441055744 (-53 + 2)).
  rewrite compare_times_four by (apply Prim2SF_valid || lia). reflexivity.
Qed.

(** ** A pool of two entries *)

(** The first entry is selected for [r <= wa], the second one for
    [wa < r <= wa + wb], the sums being those of floats. *)
Lemma select_of_two ta qa wa tb qb wb u k :
  (ta, qa) ≠ (tb, qb) ->
  PrimFloat.leb (0 + wa) (0 + wa) = true ->
  let pool := [(ta, qa, wa); (tb, qb, wb)] in
  let r := (u * (0 + wa + wb))%float in
  (select pool u k = Some (Pair ta qa) <-> PrimFloat.leb r (0 + wa) = true)
  ∧ (select pool u k = Some (Pair tb qb)
     <-> PrimFloat.ltb (0 + wa) r = true ∧ PrimFloat.leb r (0 + wa + wb) = true).
Proof.
  intros Hne Hwa pool r. rewrite !select_pair.
  change (walk pool nzero (nmul u (pool_total pool)))
    with (if PrimFloat.leb r (0 + wa) then Some (ta, qa)
          else if PrimFloat.leb r (0 + wa + wb) then Some (tb, qb) else None).
  destruct (PrimFloat.leb r (0 + wa)) eqn:H1.
  - split; [tauto|]. split; [congruence|]. intros [Hlt _].
    apply float_not_le in Hlt. congruence.
  - destruct (PrimFloat.leb r (0 + wa + wb)) eqn:H2.
    + split; [split; congruence|]. split; [intros _|reflexivity].
      split; [|reflexivity]. apply (float_above _ r (0 + wa + wb)); auto.
    + split; [split; discriminate|]. split; [discriminate|].
      intros [_ ?]. discriminate.
Qed.

(** * The claim about the share of a weight *)




(** C5.  On a pool where the walk does not return, [choose_question] returns
    the element of the pool that [random.choice] draws, a triple with the
    weight, and [send_question] then fails to unpack it.  Here for topic A
    of the small bank with weight -1.0, whose total is negative; and for two
    weights above the floor whose sum overflows, with the draw 0.0, which
    makes [r] a NaN. *)
Theorem fallback_returns_a_triple :
  choose_question demo_bank "A" "easy" {["A" := (-1)%float]} 0.5%float 0
  = Ok (Some (Triple "A" demo_q1 (-1)%float))
  ∧ send_question demo_bank 1 "A" "easy" demo_env
      (World (Some (Tables ∅ {[1 := {["A" := Stat (-1) 0]}]})) [] [])
    = (Raise ValueError,
       World (Some (Tables ∅ {[1 := {["A" := Stat (-1) 0]}]})) [] [])
  ∧ choose_question demo_bank "Mixed" "easy"
      {["A" := 1.5e308%float; "B" := 1.5e308%float]} 0%float 0
    = Ok (Some (Triple "A" demo_q1 1.5e308%float)).
Proof. split_and!; reflexivity. Qed.

(** * Callbacks that cannot be served *)

Lemma run_bind {A B} (m : M A) (k : A -> M B) ε w a w' :
  m ε w = (Ok a, w') -> bind m k ε w = k a ε w'.
Proof. unfold bind. intros ->. reflexivity. Qed.

Lemma run_bind_raise {A B} (m : M A) (k : A -> M B) ε w e w' :
  m ε w = (Raise e, w') -> bind m k ε w = (Raise e, w').
Proof. unfold bind. intros ->. reflexivity. Qed.

Lemma get_user_run user_id ε w t :
  db w = Some t -> get_user user_id ε w = (Ok (users t !! user_id), w).
Proof. intros Ht. unfold get_user, bind, read_tables. rewrite Ht. reflexivity. Qed.

Lemma find_question_run QDB topic qid ε w :
  is_Some (bank_get QDB topic) ->
  find_question QDB topic qid ε w = (Ok (question_of QDB topic qid), w).
Proof.
  intros [e He]. unfold find_question, question_of. rewrite He. reflexivity.
Qed.

(** The guard of lines 277-279: a question id that the topic does not have
    is answered by an alert; nothing is written. *)
Lemma question_not_found_is_atomic QDB ε w topic qid selected user_id :
  is_Some (db w) ->
  is_Some (bank_get QDB topic) ->
  question_of QDB topic qid = None ->
  cb_answer QDB (answer_parts topic qid selected) user_id ε w
  = (Ok tt, World (db w) (attempts w) (outbox w ++ [AlertNotFound])).
Proof.
  intros [t Ht] Hbank Hq. unfold cb_answer, answer_parts.
  rewrite (run_bind _ _ ε w "answer" w eq_refl).
  rewrite (run_bind _ _ ε w topic w eq_refl).
  rewrite (run_bind _ _ ε w qid w eq_refl).
  rewrite (run_bind _ _ ε w _ w (get_user_run user_id ε w t Ht)).
  destruct (decide ("answer" = "skip")) as [?|_]; [discriminate|].
  rewrite (run_bind _ _ ε w selected w eq_refl).
  rewrite (run_bind _ _ ε w _ w (find_question_run QDB topic qid ε w Hbank)).
  rewrite Hq. reflexivity.
Qed.

(** A topic that the bank does not have: [QDB[topic]] raises, before
    anything is written. *)
Lemma unknown_topic_raises QDB ε w topic qid selected user_id :
  is_Some (db w) ->
  bank_get QDB topic = None ->
  cb_answer QDB (answer_parts topic qid selected) user_id ε w
  = (Raise (KeyError topic), w).
Proof.
  intros [t Ht] Hbank. unfold cb_answer, answer_parts.
  rewrite (run_bind _ _ ε w "answer" w eq_refl).
  rewrite (run_bind _ _ ε w topic w eq_refl).
  rewrite (run_bind _ _ ε w qid w eq_refl).
  rewrite (run_bind _ _ ε w _ w (get_user_run user_id ε w t Ht)).
  destruct (decide ("answer" = "skip")) as [?|_]; [discriminate|].
  rewrite (run_bind _ _ ε w selected w eq_refl).
  apply run_bind_raise. unfold find_question. rewrite Hbank. reflexivity.
Qed.

(** A user that has no row: the attempt is recorded, then [u[...]] raises
    on [None]. *)
Lemma unknown_user_is_recorded QDB ε w t topic qid selected q user_id :
  db w = Some t ->
  users t !! user_id = None ->
  question_of QDB topic qid = Some q ->
  cb_answer QDB (answer_parts topic qid selected) user_id ε w
  = (Raise TypeError,
     World (db w)
           (attempts w ++ [Attempt user_id qid
                             (if bool_decide (selected = q_answer q) then 1 else 0)
                             (now ε)])
           (outbox w)).
Proof.
  intros Ht Hu Hq. unfold cb_answer, answer_parts.
  assert (Hbank : is_Some (bank_get QDB topic)).
  { unfold question_of in Hq. destruct (bank_get QDB topic); [eauto|discriminate]. }
  rewrite (run_bind _ _ ε w "answer" w eq_refl).
  rewrite (run_bind _ _ ε w topic w eq_refl).
  rewrite (run_bind _ _ ε w qid w eq_refl).
  rewrite (run_bind _ _ ε w _ w (get_user_run user_id ε w t Ht)).
  destruct (decide ("answer" = "skip")) as [?|_]; [discriminate|].
  rewrite (run_bind _ _ ε w selected w eq_refl).
  rewrite (run_bind _ _ ε w _ w (find_question_run QDB topic qid ε w Hbank)).
  rewrite Hq, Hu. cbv zeta.
  erewrite run_bind by reflexivity.
  apply run_bind_raise.
  destruct (bool_decide (selected = q_answer q)); reflexivity.
Qed.

(** C8.  User 2 has no row in the small database and answers Q1 of topic A:
    the callback raises TypeError after it appended an attempt.  With topic
    C, which the bank does not have, it raises KeyError; with the unknown
    question id Q9 it sends the alert and writes nothing. *)
Theorem unknown_user_leaves_an_attempt :
  cb_answer demo_bank (answer_parts "A" "Q1" "a") 2 demo_env demo_world
  = (Raise TypeError,
     World (db demo_world) [Attempt 2 "Q1" 1 (now demo_env)] (outbox demo_world))
  ∧ attempts demo_world = []
  ∧ user_of 2 demo_world = None
  ∧ cb_answer demo_bank (answer_parts "C" "Q1" "a") 1 demo_env demo_world
    = (Raise (KeyError "C"), demo_world)
  ∧ cb_answer demo_bank (answer_parts "A" "Q9" "a") 1 demo_env demo_world
    = (Ok tt, World (db demo_world) [] (outbox demo_world ++ [AlertNotFound])).
Proof. split_and!; reflexivity. Qed.

(** * Instances of the lemmas on callbacks and on the selector *)

Lemma question_not_found_is_atomic_witness :
  question_of demo_bank "A" "Q9" = None
  ∧ cb_answer demo_bank (answer_parts "A" "Q9" "a") 1 demo_env demo_world
    = (Ok tt, World (db demo_world) (attempts demo_world)
                    (outbox demo_world ++ [AlertNotFound])).
Proof.
  split; [reflexivity|].
  apply (question_not_found_is_atomic demo_bank demo_env demo_world "A" "Q9" "a" 1);
    [cbn; eauto | cbn; eauto | reflexivity].
Defined.

Lemma unknown_topic_raises_witness :
  bank_get demo_bank "C" = None
  ∧ cb_answer demo_bank (answer_parts "C" "Q1" "a") 1 demo_env demo_world
    = (Raise (KeyError "C"), demo_world).
Proof.
  split; [reflexivity|].
  apply (unknown_topic_raises demo_bank demo_env demo_world "C" "Q1" "a" 1);
    [cbn; eauto | reflexivity].
Defined.

Lemma choose_question_level_witness :
  choose_question demo_bank "Mixed" "easy" {["A" := 1%float]} 0.9%float 0
  = Ok (Some (Pair "B" demo_q2))
  ∧ exists t q e,
      (@Pair float "B" demo_q2 = Pair t q
       ∨ exists x : float, Pair "B" demo_q2 = Triple t q x)
      ∧ bank_get demo_bank t = Some e ∧ q ∈ questions_at e "easy".
Proof.
  split; [reflexivity|].
  apply (choose_question_level demo_bank "Mixed" "easy" {["A" := 1%float]}
           0.9%float 0 (Pair "B" demo_q2)).
  reflexivity.
Defined.

(** Weights 3.0 and 1.0 with the draw 0.9: the last sum reaches [r]; two
    weights whose sum overflows, with the draw 0.0: [r] is a NaN. *)
Lemma fallback_iff_no_sum_reaches_witness :
  let pool := [("A", demo_q1, 3%float); ("B", demo_q2, 1%float)] in
  let big := [("A", demo_q1, 1.5e308%float); ("B", demo_q2, 1.5e308%float)] in
  select pool 0.9%float 0 = Some (Pair "B" demo_q2)
  ∧ (exists t q, select pool 0.9%float 0 = Some (Pair t q))
  ∧ select big 0%float 0 = Some (Triple "A" demo_q1 1.5e308%float)
  ∧ forall i, (i < length big)%nat ->
              nge (prefix_weight big (S i)) (nmul 0%float (pool_total big)) = false.
Proof.
  intros pool big.
  destruct (fallback_iff_no_sum_reaches pool 0.9%float 0%nat ltac:(discriminate))
    as (_ & _ & Hlast).
  destruct (fallback_iff_no_sum_reaches big 0%float 0%nat ltac:(discriminate))
    as (Hnone & _ & _).
  split; [reflexivity|]. split; [apply Hlast; reflexivity|].
  split; [reflexivity|]. apply Hnone. eexists _, _, _. reflexivity.
Defined.

(** * Callback data *)

Lemma split_bar_not_nil s : split_bar s ≠ [].
Proof.
  destruct s as [|c s]; cbn [split_bar]; [discriminate|].
  case_decide; [discriminate|]. destruct (split_bar s); discriminate.
Qed.

Lemma split_bar_pieces s : Forall (fun piece => no_bar piece = true) (split_bar s).
Proof.
  induction s as [|c s IH]; cbn [split_bar]; [repeat constructor|].
  case_decide as Hc.
  - constructor; [reflexivity|exact IH].
  - destruct (split_bar s) as [|piece pieces]; [repeat constructor; cbn|].
    + rewrite bool_decide_eq_false_2 by exact Hc. reflexivity.
    + inversion IH as [|? ? Hp Hps]; subst. constructor; [|exact Hps].
      cbn. rewrite bool_decide_eq_false_2 by exact Hc. exact Hp.
Qed.

Lemma join_bar_cons piece rest :
  rest ≠ [] -> join_bar (piece :: rest) = piece +:+ String bar (join_bar rest).
Proof. destruct rest; [contradiction|reflexivity]. Qed.

(** ["|".join(s.split("|")) == s] *)
Lemma join_split_bar s : join_bar (split_bar s) = s.
Proof.
  induction s as [|c s IH]; [reflexivity|]. cbn [split_bar].
  pose proof (split_bar_not_nil s) as Hne.
  case_decide as Hc.
  - subst c. rewrite (join_bar_cons _ _ Hne), IH. reflexivity.
  - destruct (split_bar s) as [|piece pieces]; [contradiction|].
    rewrite <- IH. destruct pieces; reflexivity.
Qed.

Lemma split_bar_plain s : no_bar s = true -> split_bar s = [s].
Proof.
  induction s as [|c s IH]; [reflexivity|]. cbn [split_bar no_bar].
  intros H. apply andb_prop in H as [Hc Hs].
  apply negb_true_iff, bool_decide_eq_false in Hc.
  case_decide; [contradiction|]. rewrite (IH Hs). reflexivity.
Qed.

Lemma split_bar_app a b :
  no_bar a = true -> split_bar (a +:+ String bar b) = a :: split_bar b.
Proof.
  induction a as [|c a IH]; cbn [no_bar].
  - intros _. change ("" +:+ String bar b) with (String bar b). cbn [split_bar].
    case_decide; [reflexivity|contradiction].
  - intros H. apply andb_prop in H as [Hc Ha].
    apply negb_true_iff, bool_decide_eq_false in Hc.
    change (String c a +:+ String bar b) with (String c (a +:+ String bar b)).
    cbn [split_bar]. case_decide; [contradiction|].
    rewrite (IH Ha). reflexivity.
Qed.

Lemma no_bar_differs a b : no_bar a = true -> no_bar b = false -> a ≠ b.
Proof. intros Ha Hb ->. congruence. Qed.

(** The callback data of an option button, split: the command, the topic,
    the question id, and the pieces of the option. *)
Lemma split_answer_data t q opt :
  no_bar t = true -> no_bar (q_id q) = true ->
  split_bar (answer_data t q opt) = "answer" :: t :: q_id q :: split_bar opt.
Proof.
  intros Ht Hq. unfold answer_data.
  change ("answer|" +:+ t +:+ "|" +:+ q_id q +:+ "|" +:+ opt)
    with ("answer" +:+ String bar (t +:+ String bar (q_id q +:+ String bar opt))).
  rewrite !split_bar_app by (assumption || reflexivity). reflexivity.
Qed.

Lemma prefix_append a b : String.prefix a (a +:+ b) = true.
Proof.
  induction a as [|c a IH]; [destruct b; reflexivity|].
  change (String c a +:+ b) with (String c (a +:+ b)). cbn [String.prefix].
  destruct (ascii_dec c c); [exact IH|contradiction].
Qed.

(** The buttons that [send_question] builds are read back by [cb_answer]:
    when the topic, the question id and the option have no bar, the data of
    an option button passes the filter and splits into the command, the
    topic, the id and the option; the data of the skip button into the
    command, the topic and the id. *)
Theorem button_data_round_trip t q opt :
  no_bar t = true -> no_bar (q_id q) = true -> no_bar opt = true ->
  answer_filter (answer_data t q opt) = true
  ∧ split_bar (answer_data t q opt) = answer_parts t (q_id q) opt
  ∧ answer_filter (skip_data t q) = true
  ∧ split_bar (skip_data t q) = ["skip"; t; q_id q].
Proof.
  intros Ht Hq Ho.
  split; [unfold answer_filter, answer_data; rewrite prefix_append; reflexivity|].
  split; [|split; [unfold answer_filter, skip_data; rewrite prefix_append;
                   apply orb_true_r|]].
  - rewrite (split_answer_data t q opt Ht Hq), (split_bar_plain opt Ho). reflexivity.
  - unfold skip_data.
    change ("skip|" +:+ t +:+ "|" +:+ q_id q)
      with ("skip" +:+ String bar (t +:+ String bar (q_id q))).
    rewrite !split_bar_app by (assumption || reflexivity).
    rewrite (split_bar_plain _ Hq). reflexivity.
Qed.

Lemma button_data_round_trip_witness :
  no_bar "A" = true
  ∧ split_bar (answer_data "A" demo_q1 "b") = answer_parts "A" "Q1" "b"
  ∧ split_bar (skip_data "A" demo_q1) = ["skip"; "A"; "Q1"].
Proof.
  split; [reflexivity|].
  destruct (button_data_round_trip "A" demo_q1 "b" eq_refl eq_refl eq_refl)
    as (_ & Ha & _ & Hs).
  split; [exact Ha|exact Hs].
Defined.
(** * What a handler may change *)

(** [cb_answer] in its parts. *)
Lemma cb_answer_unfold QDB parts user_id :
  cb_answer QDB parts user_id
  = (do cmd <- item parts 0 ;
     do topic <- item parts 1 ;
     do qid <- item parts 2 ;
     do u <- get_user user_id ;
     if decide (cmd = "skip") then skipped QDB user_id u
     else
       do selected <- item parts 3 ;
       do q <- find_question QDB topic qid ;
       match q with
       | None => send AlertNotFound
       | Some q =>
           record_attempt user_id qid (bool_decide (selected = q_answer q)) ;;
           progression QDB user_id topic q (bool_decide (selected = q_answer q)) u
       end).
Proof. reflexivity. Qed.

Lemma wp_consequence (E E' : world -> Prop) ε {A} (m : M A)
    (Q Q' : A -> world -> Prop) w :
  wp E ε m Q w -> (forall w', E w' -> E' w') -> (forall a w', Q a w' -> Q' a w') ->
  wp E' ε m Q' w.
Proof. unfold wp. destruct (m ε w) as [[a|e] w']; auto. Qed.

(** [send_question] raises before it sends, or sends the message that no
    question is available, or a question of the level asked for, of the
    topic asked for or, for Mixed, of a topic of the bank. *)
Lemma wp_send_question_level E ε QDB user_id topic level
    (Q : unit -> world -> Prop) w :
  E w ->
  Q tt (World (db w) (attempts w) (outbox w ++ [MsgNoQuestions])) ->
  (forall t q e,
     t ∈ topics_in_scope QDB topic ->
     bank_get QDB t = Some e -> q ∈ questions_at e level ->
     Q tt (World (db w) (attempts w) (outbox w ++ [MsgQuestion t q]))) ->
  wp E ε (send_question QDB user_id topic level) Q w.
Proof.
  intros HE Hnone Hsome. unfold send_question.
  apply wp_bind, wp_get_topic_weights; [auto|]. intros t Ht.
  apply wp_bind, wp_ask. apply wp_bind, wp_ask.
  apply wp_bind, wp_lift; [auto|]. intros [[t' q|t' q x]|] Hc.
  - apply wp_send. unfold choose_question in Hc.
    destruct (build_pool _ _ _ _) as [pool|] eqn:Hp; [|discriminate].
    injection Hc as Hs. destruct (select_entry _ _ _ _ Hs) as (t1 & q1 & x & Hin & Hx).
    destruct Hx as [[= <- <-]|?]; [|discriminate].
    destruct (build_pool_entry _ _ _ _ _ _ _ _ Hp Hin) as (Hscope & e & He & Hq).
    exact (Hsome t' q e Hscope He Hq).
  - apply wp_raise, HE.
  - apply wp_send, Hnone.
Qed.

(** A property [P] of the world that the writes and the messages of a
    handler keep is kept by the handler, whether it returns or raises; when
    the handler of a callback returns, its last message is the call of
    [callback.answer], which leads from [P] to [F].  The writes of the
    handlers other than [cb_answer] are [ensure_user] and the update of the
    active topic; the writes of [cb_answer] are updates of the level and of
    the streaks, the weight of the topic it is called with, and one
    attempt. *)
Section Sends.
Context (QDB : bank) (ε : env) (user_id : Z) (P F : world -> Prop).
Hypothesis P_send : forall w r,
  answers_callback r = false ->
  P w -> P (World (db w) (attempts w) (outbox w ++ [r])).
Hypothesis P_final : forall w r,
  answers_callback r = true ->
  P w -> F (World (db w) (attempts w) (outbox w ++ [r])).

#[local] Abbreviation kept m w := (wp P ε m (fun _ => P) w).
#[local] Abbreviation done m w := (wp P ε m (fun _ => F) w).

Lemma kept_bind A B (m : M A) (k : A -> M B) (R : A -> world -> Prop)
    (Q : B -> world -> Prop) w :
  wp P ε m R w -> (forall a w', R a w' -> wp P ε (k a) Q w') -> wp P ε (bind m k) Q w.
Proof. intros Hm Hk. apply wp_bind. eapply wp_mono; [exact Hm|exact Hk]. Qed.

Lemma send_kept r w : answers_callback r = false -> P w -> kept (send r) w.
Proof. intros Hr Hw. apply wp_send, P_send; assumption. Qed.

Lemma send_done r w : answers_callback r = true -> P w -> done (send r) w.
Proof. intros Hr Hw. apply wp_send, P_final; assumption. Qed.

Lemma send_question_kept topic level w :
  P w -> kept (send_question QDB user_id topic level) w.
Proof.
  intros Hw. apply wp_send_question_level; [exact Hw|apply P_send; auto|].
  intros t q e _ _ _. apply P_send; auto.
Qed.

Lemma get_user_kept i w : P w -> wp P ε (get_user i) (fun _ => P) w.
Proof. intros Hw. apply wp_get_user; auto. Qed.

Lemma get_topic_weights_kept i w : P w -> wp P ε (get_topic_weights i) (fun _ => P) w.
Proof. intros Hw. apply wp_get_topic_weights; auto. Qed.

Section NoAnswer.
Hypothesis P_ensure : forall w name,
  P w ->
  P (World (Some (ensured QDB user_id name (now ε) (default (Tables ∅ ∅) (db w))))
           (attempts w) (outbox w)).
Hypothesis P_topic : forall w t topic,
  P w -> db w = Some t ->
  P (World (Some (Tables (alter (apply_update (Update None None None (Some topic)))
                                user_id (users t))
                         (topic_stats t)))
           (attempts w) (outbox w)).

Lemma ensure_user_kept name w : P w -> kept (ensure_user QDB user_id name) w.
Proof. intros Hw. apply wp_ensure_user, P_ensure, Hw. Qed.

Lemma cmd_start_sends name w : P w -> kept (cmd_start QDB user_id name) w.
Proof.
  intros Hw. unfold cmd_start. chain kept_bind ensure_user_kept.
  apply send_kept; [reflexivity|assumption].
Qed.

Lemma menu_quiz_sends name w : P w -> kept (menu_quiz QDB user_id name) w.
Proof.
  intros Hw. unfold menu_quiz. chain kept_bind ensure_user_kept.
  apply send_kept; [reflexivity|assumption].
Qed.

Lemma menu_progress_sends name w : P w -> kept (menu_progress QDB user_id name) w.
Proof.
  intros Hw. unfold menu_progress. chain kept_bind get_user_kept.
  apply wp_bind with (m := match a with Some _ => _ | None => _ end).
  eapply wp_mono with (Q := fun _ => P).
  { destruct a; [apply wp_ret; assumption|].
    chain kept_bind ensure_user_kept. apply get_user_kept. assumption. }
  cbv beta. intros u1 w1 Hw1.
  chain kept_bind get_topic_weights_kept.
  apply wp_bind, wp_subscript; [auto|]. intros u2 _.
  apply send_kept; [reflexivity|assumption].
Qed.

Lemma cb_start_quiz_sends parts name w :
  P w -> done (cb_start_quiz QDB parts user_id name) w.
Proof.
  intros Hw. unfold cb_start_quiz.
  apply wp_bind, wp_item; [auto|]. intros topic _.
  chain kept_bind ensure_user_kept.
  apply wp_bind, wp_update_user; [auto|]. intros t Ht.
  pose proof (P_topic _ t topic H Ht) as Hw1.
  revert Hw1. generalize (World (Some (Tables (alter (apply_update
    (Update None None None (Some topic))) user_id (users t)) (topic_stats t)))
    (attempts w') (outbox w')). intros w1 Hw1.
  chain kept_bind get_user_kept.
  apply wp_bind with (m := if decide (topic = "Mixed") then _ else _).
  eapply wp_mono with (Q := fun _ => P).
  { destruct (decide (topic = "Mixed")); [apply wp_ret; assumption|].
    destruct (bank_get QDB topic);
      [apply send_kept; [reflexivity|]|apply wp_raise]; assumption. }
  cbv beta. intros _ w2 Hw2.
  chain kept_bind send_kept; [reflexivity|].
  apply wp_bind, wp_subscript; [auto|]. intros u _.
  chain kept_bind send_question_kept. apply send_done; [reflexivity|assumption].
Qed.
End NoAnswer.

Lemma skipped_sends u w : P w -> done (skipped QDB user_id u) w.
Proof.
  intros Hw. unfold skipped. chain kept_bind send_kept; [reflexivity|].
  apply wp_bind, wp_subscript; [auto|]. intros u0 _.
  chain kept_bind send_question_kept. apply send_done; [reflexivity|assumption].
Qed.

Section Answer.
Hypothesis P_progress : forall w t k,
  set_active_topic k = None ->
  P w -> db w = Some t ->
  P (World (Some (Tables (alter (apply_update k) user_id (users t)) (topic_stats t)))
           (attempts w) (outbox w)).

Lemma progress_kept k w :
  set_active_topic k = None -> P w -> kept (update_user user_id k) w.
Proof.
  intros Hk Hw. apply wp_update_user; [auto|]. intros t Ht. apply P_progress; auto.
Qed.

Section Topic.
Context (topic : string).
Hypothesis P_weight : forall w t r,
  P w -> db w = Some t ->
  P (World (Some (put_stat user_id topic r t)) (attempts w) (outbox w)).

Lemma weight_kept delta w :
  P w -> kept (update_topic_weight user_id topic delta) w.
Proof.
  intros Hw. apply wp_update_topic_weight; [auto|]. intros t Ht.
  apply P_weight; auto.
Qed.

Lemma progression_sends q correct u w :
  P w -> done (progression QDB user_id topic q correct u) w.
Proof.
  intros Hw. unfold progression.
  apply wp_bind with (m := if correct then _ else _).
  eapply wp_mono with (Q := fun _ => P).
  { destruct correct.
    - apply wp_bind, wp_subscript; [auto|]. intros u0 _.
      chain kept_bind progress_kept; [reflexivity|].
      chain kept_bind weight_kept. apply send_kept; [reflexivity|assumption].
    - apply wp_bind, wp_subscript; [auto|]. intros u0 _.
      chain kept_bind progress_kept; [reflexivity|].
      chain kept_bind weight_kept. apply send_kept; [reflexivity|assumption]. }
  cbv beta. intros _ w2 Hw2.
  chain kept_bind get_user_kept.
  apply wp_bind, wp_subscript; [auto|]. intros u1 _.
  apply wp_bind, wp_index; [auto|]. intros idx _.
  apply wp_bind with (m := if _ && _ then _ else _).
  eapply wp_mono with (Q := fun _ => P).
  { destruct (_ && _); [|apply wp_ret; assumption].
    apply wp_bind, wp_item; [auto|]. intros l _.
    chain kept_bind progress_kept; [reflexivity|].
    apply send_kept; [reflexivity|assumption]. }
  cbv beta. intros _ w3 Hw3.
  apply wp_bind with (m := if _ && _ then _ else _).
  eapply wp_mono with (Q := fun _ => P).
  { destruct (_ && _); [|apply wp_ret; assumption].
    apply wp_bind, wp_item; [auto|]. intros l _.
    chain kept_bind progress_kept; [reflexivity|].
    apply send_kept; [reflexivity|assumption]. }
  cbv beta. intros _ w4 Hw4.
  chain kept_bind send_question_kept. apply send_done; [reflexivity|assumption].
Qed.
End Topic.

Context (parts : list string).
Hypothesis P_attempt : forall w qid c,
  P w -> P (World (db w) (attempts w ++ [Attempt user_id qid c (now ε)]) (outbox w)).
Hypothesis P_weight : forall topic w t r,
  parts !! 1%nat = Some topic ->
  P w -> db w = Some t ->
  P (World (Some (put_stat user_id topic r t)) (attempts w) (outbox w)).

Lemma cb_answer_sends w : P w -> done (cb_answer QDB parts user_id) w.
Proof.
  intros Hw. rewrite cb_answer_unfold.
  apply wp_bind, wp_item; [auto|]. intros cmd _.
  apply wp_bind, wp_item; [auto|]. intros topic Htopic.
  apply wp_bind, wp_item; [auto|]. intros qid _.
  chain kept_bind get_user_kept. rename a into r0.
  destruct (decide (cmd = "skip")); [apply skipped_sends; assumption|].
  apply wp_bind, wp_item; [auto|]. intros selected _.
  apply wp_bind, wp_find_question; [auto|]. intros _.
  destruct (question_of QDB topic qid) as [q|];
    [|apply send_done; [reflexivity|assumption]].
  apply wp_bind, wp_record_attempt.
  apply progression_sends; [intros; apply (P_weight topic); auto|].
  apply P_attempt. assumption.
Qed.
End Answer.
End Sends.

(** The same for a property that does not depend on the messages sent. *)
Section Kept.
Context (QDB : bank) (ε : env) (user_id : Z) (P : world -> Prop).
Hypothesis P_outbox : forall w o, P w -> P (World (db w) (attempts w) o).

#[local] Abbreviation kept m w := (wp P ε m (fun _ => P) w).

Lemma P_any_message w r (b : bool) :
  answers_callback r = b -> P w -> P (World (db w) (attempts w) (outbox w ++ [r])).
Proof. intros _. apply P_outbox. Qed.

Section NoAnswer.
Hypothesis P_ensure : forall w name,
  P w ->
  P (World (Some (ensured QDB user_id name (now ε) (default (Tables ∅ ∅) (db w))))
           (attempts w) (outbox w)).
Hypothesis P_topic : forall w t topic,
  P w -> db w = Some t ->
  P (World (Some (Tables (alter (apply_update (Update None None None (Some topic)))
                                user_id (users t))
                         (topic_stats t)))
           (attempts w) (outbox w)).

Lemma cmd_start_kept name w : P w -> kept (cmd_start QDB user_id name) w.
Proof.
  apply (cmd_start_sends QDB ε user_id P (fun w r => P_any_message w r false) P_ensure).
Qed.

Lemma menu_quiz_kept name w : P w -> kept (menu_quiz QDB user_id name) w.
Proof.
  apply (menu_quiz_sends QDB ε user_id P (fun w r => P_any_message w r false) P_ensure).
Qed.

Lemma menu_progress_kept name w : P w -> kept (menu_progress QDB user_id name) w.
Proof.
  apply (menu_progress_sends QDB ε user_id P (fun w r => P_any_message w r false)
           P_ensure).
Qed.

Lemma cb_start_quiz_kept parts name w :
  P w -> kept (cb_start_quiz QDB parts user_id name) w.
Proof.
  apply (cb_start_quiz_sends QDB ε user_id P P (fun w r => P_any_message w r false)
           (fun w r => P_any_message w r true) P_ensure P_topic).
Qed.
End NoAnswer.

Lemma skipped_kept u w : P w -> kept (skipped QDB user_id u) w.
Proof.
  apply (skipped_sends QDB ε user_id P P (fun w r => P_any_message w r false)
           (fun w r => P_any_message w r true)).
Qed.

Section Answer.
Hypothesis P_progress : forall w t k,
  set_active_topic k = None ->
  P w -> db w = Some t ->
  P (World (Some (Tables (alter (apply_update k) user_id (users t)) (topic_stats t)))
           (attempts w) (outbox w)).

Section Topic.
Context (topic : string).
Hypothesis P_weight : forall w t r,
  P w -> db w = Some t ->
  P (World (Some (put_stat user_id topic r t)) (attempts w) (outbox w)).

Lemma progression_kept q correct u w :
  P w -> kept (progression QDB user_id topic q correct u) w.
Proof.
  apply (progression_sends QDB ε user_id P P (fun w r => P_any_message w r false)
           (fun w r => P_any_message w r true) P_progress topic P_weight).
Qed.
End Topic.

Context (parts : list string).
Hypothesis P_attempt : forall w qid c,
  P w -> P (World (db w) (attempts w ++ [Attempt user_id qid c (now ε)]) (outbox w)).
Hypothesis P_weight : forall topic w t r,
  parts !! 1%nat = Some topic ->
  P w -> db w = Some t ->
  P (World (Some (put_stat user_id topic r t)) (attempts w) (outbox w)).

Lemma cb_answer_kept w : P w -> kept (cb_answer QDB parts user_id) w.
Proof.
  apply (cb_answer_sends QDB ε user_id P P (fun w r => P_any_message w r false)
           (fun w r => P_any_message w r true) P_progress parts P_attempt P_weight).
Qed.
End Answer.
End Kept.

(** ** The handlers as a whole *)

Lemma quiet_handle_kept QDB ε e (P : world -> Prop) w :
  no_callback e = true ->
  (forall w o, P w -> P (World (db w) (attempts w) o)) ->
  (forall w name,
     P w ->
     P (World (Some (ensured QDB (event_user e) name (now ε)
                       (default (Tables ∅ ∅) (db w))))
              (attempts w) (outbox w))) ->
  (forall w t topic,
     P w -> db w = Some t ->
     P (World (Some (Tables (alter (apply_update (Update None None None (Some topic)))
                                   (event_user e) (users t))
                            (topic_stats t)))
              (attempts w) (outbox w))) ->
  P w -> P (after (handle QDB e) ε w).
Proof.
  intros He Hout Hens Htop Hw. apply leaves_after. unfold leaves.
  destruct e as [i n|i n|i n|p i n|p i]; cbn [handle event_user] in *;
    [apply cmd_start_kept | apply menu_quiz_kept | apply menu_progress_kept
    | apply cb_start_quiz_kept | discriminate]; assumption.
Qed.

Lemma handle_kept QDB ε e (P : world -> Prop) w :
  (forall w o, P w -> P (World (db w) (attempts w) o)) ->
  (forall w name,
     P w ->
     P (World (Some (ensured QDB (event_user e) name (now ε)
                       (default (Tables ∅ ∅) (db w))))
              (attempts w) (outbox w))) ->
  (forall w t k,
     P w -> db w = Some t ->
     P (World (Some (Tables (alter (apply_update k) (event_user e) (users t))
                            (topic_stats t)))
              (attempts w) (outbox w))) ->
  (forall w t topic r,
     P w -> db w = Some t ->
     P (World (Some (put_stat (event_user e) topic r t)) (attempts w) (outbox w))) ->
  (forall w qid c,
     P w ->
     P (World (db w) (attempts w ++ [Attempt (event_user e) qid c (now ε)])
              (outbox w))) ->
  P w -> P (after (handle QDB e) ε w).
Proof.
  intros Hout Hens Hupd Hstat Hatt Hw.
  destruct e as [i n|i n|i n|p i n|p i];
    try (apply quiet_handle_kept; [reflexivity|auto..]).
  apply leaves_after. unfold leaves. cbn [handle event_user] in *.
  apply cb_answer_kept; auto.
Qed.

(** ** A handler touches the rows of its user only *)

Lemma get_stat_put_other user_id topic other topic' r t :
  (user_id, topic) ≠ (other, topic') ->
  get_stat other topic' (put_stat user_id topic r t) = get_stat other topic' t.
Proof.
  intros Hne. unfold get_stat, put_stat. cbn.
  destruct (decide (user_id = other)) as [->|Hu].
  - rewrite lookup_insert_eq. cbn. rewrite lookup_insert_ne; [reflexivity|congruence].
  - rewrite lookup_insert_ne; [reflexivity|exact Hu].
Qed.

Lemma get_stat_init_stats_other user_id ts topics t other topic :
  user_id ≠ other ->
  get_stat other topic (init_stats user_id ts topics t) = get_stat other topic t.
Proof.
  intros Hne. unfold init_stats. revert t.
  induction topics as [|x l IH]; intros t; [reflexivity|].
  cbn. rewrite IH. apply get_stat_put_other. congruence.
Qed.

Lemma ensured_present QDB user_id name ts t :
  is_Some (users t !! user_id) -> ensured QDB user_id name ts t = t.
Proof. intros [u Hu]. unfold ensured. rewrite Hu. reflexivity. Qed.

Lemma users_ensured_other QDB user_id name ts t other :
  user_id ≠ other ->
  users (ensured QDB user_id name ts t) !! other = users t !! other.
Proof.
  intros Hne. unfold ensured. destruct (users t !! user_id); [reflexivity|].
  rewrite users_init_stats. cbn. apply lookup_insert_ne, Hne.
Qed.

Lemma get_stat_ensured_other QDB user_id name ts t other topic :
  user_id ≠ other ->
  get_stat other topic (ensured QDB user_id name ts t) = get_stat other topic t.
Proof.
  intros Hne. unfold ensured. destruct (users t !! user_id); [reflexivity|].
  rewrite get_stat_init_stats_other by exact Hne. reflexivity.
Qed.

Lemma user_of_ensured_other QDB user_id name ts w a o other :
  user_id ≠ other ->
  user_of other
    (World (Some (ensured QDB user_id name ts (default (Tables ∅ ∅) (db w)))) a o)
  = user_of other w.
Proof.
  intros Hne. unfold user_of. cbn [db].
  rewrite users_ensured_other by exact Hne.
  destruct (db w); cbn; [reflexivity|apply lookup_empty].
Qed.

Lemma weight_of_ensured_other QDB user_id name ts w a o other topic :
  user_id ≠ other ->
  weight_of other topic
    (World (Some (ensured QDB user_id name ts (default (Tables ∅ ∅) (db w)))) a o)
  = weight_of other topic w.
Proof.
  intros Hne. unfold weight_of. cbn [db].
  rewrite get_stat_ensured_other by exact Hne.
  destruct (db w); cbn; [reflexivity|].
  unfold get_stat. cbn. rewrite lookup_empty. cbn. rewrite lookup_empty. reflexivity.
Qed.

Lemma weight_of_users w t us a o other topic :
  db w = Some t ->
  weight_of other topic (World (Some (Tables us (topic_stats t))) a o)
  = weight_of other topic w.
Proof. intros Ht. unfold weight_of. rewrite Ht. reflexivity. Qed.

Lemma weight_of_put w t user_id topic r a o other topic' :
  db w = Some t -> (user_id, topic) ≠ (other, topic') ->
  weight_of other topic' (World (Some (put_stat user_id topic r t)) a o)
  = weight_of other topic' w.
Proof.
  intros Ht Hne. unfold weight_of. rewrite Ht. cbn [db].
  rewrite get_stat_put_other by exact Hne. reflexivity.
Qed.

Lemma user_of_put w t user_id topic r a o i :
  db w = Some t ->
  user_of i (World (Some (put_stat user_id topic r t)) a o) = user_of i w.
Proof. intros Ht. unfold user_of. rewrite Ht. reflexivity. Qed.

Lemma user_of_altered w t user_id k a o i :
  db w = Some t ->
  user_of i (World (Some (Tables (alter (apply_update k) user_id (users t))
                                 (topic_stats t))) a o)
  = if decide (user_id = i) then apply_update k <$> user_of i w else user_of i w.
Proof. intros Ht. rewrite user_of_updated. unfold user_of. rewrite Ht. reflexivity. Qed.

Lemma handle_untouched QDB e ε w0 w other :
  event_user e ≠ other ->
  untouched other w0 w -> untouched other w0 (after (handle QDB e) ε w).
Proof.
  intros Hne. apply (handle_kept QDB ε e (untouched other w0)).
  - intros w1 o [Hu Hw]. split; [exact Hu|exact Hw].
  - intros w1 name [Hu Hw]. split.
    + rewrite user_of_ensured_other by exact Hne. exact Hu.
    + intros topic. rewrite weight_of_ensured_other by exact Hne. apply Hw.
  - intros w1 t k [Hu Hw] Ht. split.
    + rewrite (user_of_altered w1 t) by exact Ht.
      rewrite decide_False by exact Hne. exact Hu.
    + intros topic. rewrite (weight_of_users w1 t) by exact Ht. apply Hw.
  - intros w1 t topic r [Hu Hw] Ht. split.
    + rewrite (user_of_put w1 t) by exact Ht. exact Hu.
    + intros topic'. rewrite (weight_of_put w1 t) by (exact Ht || congruence). apply Hw.
  - intros w1 qid c [Hu Hw]. split; [exact Hu|exact Hw].
Qed.

(** Whatever the handlers do for other users, in any number of calls and
    whether they return or raise, they leave the row and the weights of a
    user as they are. *)
Theorem handlers_touch_one_user QDB steps w other :
  Forall (fun s => event_user (fst s) ≠ other) steps ->
  untouched other w (run QDB steps w).
Proof.
  intros Hall. unfold run.
  assert (H0 : untouched other w w) by (split; reflexivity).
  revert H0. generalize w at 2 4. intros w1 H1. revert w1 H1.
  induction Hall as [|s steps Hs _ IH]; intros w1 H1; [exact H1|].
  cbn [fold_left]. apply IH, handle_untouched; assumption.
Qed.

(** User 1 answers and user 3 arrives; user 7, who registered before,
    keeps row and weights. *)
Lemma handlers_touch_one_user_witness :
  let w := after (ensure_user demo_bank 7 None) demo_env demo_world in
  let steps := [(Callback (answer_parts "A" "Q1" "a") 1, demo_env);
                (Start 3 None, demo_env)] in
  user_of 7 (run demo_bank steps w) = Some (User "" "easy" 0 0 "Mixed")
  ∧ weight_of 7 "A" (run demo_bank steps w) = Some 1%float
  ∧ weight_of 1 "A" (run demo_bank steps w) = Some 0.7%float.
Proof.
  intros w steps.
  assert (Hne : Forall (fun s => event_user (fst s) ≠ 7) steps)
    by (repeat constructor; discriminate).
  destruct (handlers_touch_one_user demo_bank steps w 7 Hne) as [Hu Hw].
  split; [rewrite Hu; reflexivity|].
  split; [rewrite Hw; reflexivity|reflexivity].
Defined.

(** ** Registered users stay *)

(** No handler deletes a row of [users] or changes a username: a user who
    has a row keeps it, with the username under which the row was
    created, whatever events follow. *)
Theorem registered_users_stay QDB steps w i u :
  user_of i w = Some u ->
  exists u', user_of i (run QDB steps w) = Some u' ∧ username u' = username u.
Proof.
  intros Hu. unfold run.
  assert (H0 : exists u', user_of i w = Some u' ∧ username u' = username u)
    by eauto.
  clear Hu. revert w H0.
  induction steps as [|s steps IH]; intros w H0; [exact H0|].
  cbn [fold_left]. apply IH.
  apply (handle_kept QDB (snd s) (fst s)
           (fun w' => exists u', user_of i w' = Some u' ∧ username u' = username u));
    [..|exact H0].
  - intros w1 o H. exact H.
  - intros w1 name (u' & Hu' & Hn). exists u'.
    destruct (decide (event_user (fst s) = i)) as [He|He].
    + unfold user_of in *. cbn [db].
      destruct (db w1) as [t|]; [|discriminate]. cbn.
      rewrite ensured_present by (rewrite He, Hu'; eauto). auto.
    + rewrite user_of_ensured_other by exact He. auto.
  - intros w1 t k (u' & Hu' & Hn) Ht.
    rewrite (user_of_altered w1 t) by exact Ht. rewrite Hu'.
    destruct (decide (event_user (fst s) = i)); eexists; (split; [reflexivity|]);
      cbn; auto.
  - intros w1 t topic r (u' & Hu' & Hn) Ht. exists u'.
    rewrite (user_of_put w1 t) by exact Ht. auto.
  - intros w1 qid c H. exact H.
Qed.

(** User 1 registered as U1 and sends /start again under another name. *)
Lemma registered_users_stay_witness :
  let steps := [(Start 1 (Some "V1"), demo_env);
                (Callback (answer_parts "A" "Q1" "a") 1, demo_env)] in
  user_of 1 (run demo_bank steps demo_world) = Some (User "U1" "easy" 1 0 "Mixed")
  ∧ exists u', user_of 1 (run demo_bank steps demo_world) = Some u'
               ∧ username u' = "U1".
Proof.
  intros steps. split; [reflexivity|].
  exact (registered_users_stay demo_bank steps demo_world 1
           (User "U1" "easy" 0 0 "Mixed") eq_refl).
Defined.

(** ** What the handlers other than [cb_answer] leave alone *)

Lemma user_of_ensured_kept QDB user_id name ts w a o i :
  is_Some (user_of i w) ->
  user_of i
    (World (Some (ensured QDB user_id name ts (default (Tables ∅ ∅) (db w)))) a o)
  = user_of i w.
Proof.
  intros Hi. destruct (decide (user_id = i)) as [->|Hne].
  - unfold user_of in *. destruct (db w) as [t|]; [|destruct Hi; discriminate].
    cbn. rewrite ensured_present by exact Hi. reflexivity.
  - apply user_of_ensured_other, Hne.
Qed.

Lemma weight_of_ensured_kept QDB user_id name ts w a o i topic :
  is_Some (user_of i w) ->
  weight_of i topic
    (World (Some (ensured QDB user_id name ts (default (Tables ∅ ∅) (db w)))) a o)
  = weight_of i topic w.
Proof.
  intros Hi. destruct (decide (user_id = i)) as [->|Hne].
  - unfold user_of, weight_of in *. destruct (db w) as [t|]; [|destruct Hi; discriminate].
    cbn. rewrite ensured_present by exact Hi. reflexivity.
  - apply weight_of_ensured_other, Hne.
Qed.

(** /start, the quiz menu, the progress report and the start of a quiz
    change nobody's level, streaks, username or weights, and record no
    attempt: of a row that exists they can change the active topic only. *)
Theorem only_answers_change_progress QDB e ε w i u :
  no_callback e = true ->
  user_of i w = Some u ->
  let w' := after (handle QDB e) ε w in
  (exists u',
     user_of i w' = Some u'
     ∧ username u' = username u ∧ difficulty u' = difficulty u
     ∧ correct_streak u' = correct_streak u ∧ wrong_streak u' = wrong_streak u)
  ∧ (forall topic, weight_of i topic w' = weight_of i topic w)
  ∧ attempts w' = attempts w.
Proof.
  intros He Hu w'. subst w'.
  apply (quiet_handle_kept QDB ε e (fun w' =>
    (exists u',
       user_of i w' = Some u'
       ∧ username u' = username u ∧ difficulty u' = difficulty u
       ∧ correct_streak u' = correct_streak u ∧ wrong_streak u' = wrong_streak u)
    ∧ (forall topic, weight_of i topic w' = weight_of i topic w)
    ∧ attempts w' = attempts w)); [exact He|..].
  - intros w1 o H. exact H.
  - intros w1 name ((u' & Hu' & Hf) & Hw & Ha).
    assert (Hi : is_Some (user_of i w1)) by (rewrite Hu'; eauto).
    split_and!.
    + exists u'. rewrite user_of_ensured_kept by exact Hi. auto.
    + intros topic. rewrite weight_of_ensured_kept by exact Hi. apply Hw.
    + exact Ha.
  - intros w1 t topic ((u' & Hu' & Hn & Hd & Hc & Hx) & Hw & Ha) Ht.
    split_and!.
    + rewrite (user_of_altered w1 t) by exact Ht. rewrite Hu'.
      destruct (decide (event_user e = i)); eexists; (split; [reflexivity|]); cbn; auto.
    + intros topic'. rewrite (weight_of_users w1 t) by exact Ht. apply Hw.
    + exact Ha.
  - split_and!; [exists u; auto|reflexivity|reflexivity].
Qed.

(** User 1 starts a quiz on topic A: the row keeps its level and streaks. *)
Lemma only_answers_change_progress_witness :
  let w' := after (handle demo_bank (StartQuiz ["start_quiz"; "A"] 1 None))
                  demo_env demo_world in
  user_of 1 w' = Some (User "U1" "easy" 0 0 "A")
  ∧ (exists u',
       user_of 1 w' = Some u'
       ∧ username u' = "U1" ∧ difficulty u' = "easy"
       ∧ correct_streak u' = 0 ∧ wrong_streak u' = 0)
  ∧ (forall topic, weight_of 1 topic w' = weight_of 1 topic demo_world)
  ∧ attempts w' = attempts demo_world.
Proof.
  intros w'. split; [reflexivity|].
  exact (only_answers_change_progress demo_bank
           (StartQuiz ["start_quiz"; "A"] 1 None) demo_env demo_world 1
           (User "U1" "easy" 0 0 "Mixed") eq_refl eq_refl).
Defined.

(** ** What [cb_answer] leaves alone *)

(** An answer or a skip, whatever its data and whoever sends it, deletes no
    row of [users], changes no username and no active topic, and no weight
    of a topic other than the one named in its data. *)
Theorem answer_keeps_name_and_topic QDB parts user_id ε w i u :
  user_of i w = Some u ->
  let w' := after (cb_answer QDB parts user_id) ε w in
  (exists u',
     user_of i w' = Some u'
     ∧ username u' = username u ∧ active_topic u' = active_topic u)
  ∧ (forall topic, parts !! 1%nat ≠ Some topic ->
                   weight_of i topic w' = weight_of i topic w).
Proof.
  intros Hu w'. subst w'. apply leaves_after. unfold leaves.
  apply (cb_answer_kept QDB ε user_id (fun w' =>
    (exists u',
       user_of i w' = Some u'
       ∧ username u' = username u ∧ active_topic u' = active_topic u)
    ∧ (forall topic, parts !! 1%nat ≠ Some topic ->
                     weight_of i topic w' = weight_of i topic w))).
  - intros w1 o H. exact H.
  - intros w1 t k Hk ((u' & Hu' & Hn & Ha) & Hw) Ht. split.
    + rewrite (user_of_altered w1 t) by exact Ht. rewrite Hu'.
      destruct (decide (user_id = i)); eexists; (split; [reflexivity|]); cbn;
        rewrite ?Hk; cbn; auto.
    + intros topic Hne. rewrite (weight_of_users w1 t) by exact Ht. apply Hw, Hne.
  - intros w1 qid c H. exact H.
  - intros topic w1 t r Hp ((u' & Hu' & Hf) & Hw) Ht. split.
    + exists u'. rewrite (user_of_put w1 t) by exact Ht. auto.
    + intros topic' Hne. rewrite (weight_of_put w1 t); [apply Hw, Hne|exact Ht|].
      intros [= _ ->]. apply Hne, Hp.
  - split; [exists u; auto|reflexivity].
Qed.

(** User 1 answers a question of topic A: name, active topic and the
    weight of topic B stay. *)
Lemma answer_keeps_name_and_topic_witness :
  let w' := after (cb_answer demo_bank (answer_parts "A" "Q1" "b") 1)
                  demo_env demo_world in
  weight_of 1 "A" w' = Some 1.5%float
  ∧ (exists u',
       user_of 1 w' = Some u' ∧ username u' = "U1" ∧ active_topic u' = "Mixed")
  ∧ (forall topic, Some "A" ≠ Some topic ->
                   weight_of 1 topic w' = weight_of 1 topic demo_world).
Proof.
  intros w'. split; [reflexivity|].
  exact (answer_keeps_name_and_topic demo_bank (answer_parts "A" "Q1" "b") 1
           demo_env demo_world 1 (User "U1" "easy" 0 0 "Mixed") eq_refl).
Defined.

(** ** The log of attempts *)

(** A handler call appends one row to [attempts] at most, and never changes
    or deletes one.  The row is appended by an answer: it carries the user
    of the callback, the question id of the callback data, flag 0 or 1 and
    the time of the call. *)
Theorem attempts_grow_by_one QDB e ε w :
  let w' := after (handle QDB e) ε w in
  attempts w' = attempts w
  ∨ exists parts qid c,
      e = Callback parts (event_user e)
      ∧ parts !! 2%nat = Some qid ∧ (c = 0 ∨ c = 1)
      ∧ attempts w' = attempts w ++ [Attempt (event_user e) qid c (now ε)].
Proof.
  intros w'. subst w'.
  destruct (no_callback e) eqn:He.
  { left. apply (quiet_handle_kept QDB ε e (fun w' => attempts w' = attempts w));
      auto. }
  destruct e as [| | | |parts user_id]; try discriminate. cbn [handle event_user].
  apply leaves_after. unfold leaves. rewrite cb_answer_unfold.
  set (P := fun w' : world => attempts w' = attempts w ∨ _).
  assert (Hkeep : forall w1, attempts w1 = attempts w -> P w1) by (intros; left; auto).
  apply wp_bind, wp_item; [auto|]. intros cmd _.
  apply wp_bind, wp_item; [auto|]. intros topic _.
  apply wp_bind, wp_item; [auto|]. intros qid Hqid.
  apply wp_bind, wp_get_user; [auto|]. intros t Ht.
  destruct (decide (cmd = "skip")).
  { eapply wp_consequence;
      [apply (skipped_kept QDB ε user_id (fun w' => attempts w' = attempts w));
       auto | auto ..]. }
  apply wp_bind, wp_item; [auto|]. intros selected _.
  apply wp_bind, wp_find_question; [auto|]. intros _.
  destruct (question_of QDB topic qid) as [q|]; [|apply wp_send; auto].
  apply wp_bind, wp_record_attempt.
  set (c := if bool_decide (selected = q_answer q) then 1 else 0).
  assert (Hadd : forall w1,
            attempts w1 = attempts w ++ [Attempt user_id qid c (now ε)] -> P w1).
  { intros w1 H1. right. exists parts, qid, c. split_and!; auto.
    unfold c. destruct (bool_decide _); auto. }
  eapply wp_consequence;
    [apply (progression_kept QDB ε user_id
              (fun w' => attempts w' = attempts w ++ [Attempt user_id qid c (now ε)]));
     auto | auto ..].
Qed.

(** ** Skipping *)

(** A skip writes nothing: tables and attempts are as before, so a skip
    neither resets a streak nor touches a weight. *)
Theorem skip_writes_nothing QDB parts user_id ε w :
  parts !! 0%nat = Some "skip" ->
  let w' := after (cb_answer QDB parts user_id) ε w in
  db w' = db w ∧ attempts w' = attempts w.
Proof.
  intros Hskip w'. subst w'. apply leaves_after. unfold leaves.
  rewrite cb_answer_unfold.
  apply wp_bind, wp_item; [auto|]. intros cmd Hcmd.
  apply wp_bind, wp_item; [auto|]. intros topic _.
  apply wp_bind, wp_item; [auto|]. intros qid _.
  apply wp_bind, wp_get_user; [auto|]. intros t Ht.
  rewrite Hskip in Hcmd. injection Hcmd as <-.
  destruct (decide ("skip" = "skip")) as [_|Hne]; [|contradiction].
  apply (skipped_kept QDB ε user_id (fun w' => db w' = db w ∧ attempts w' = attempts w));
    auto.
Qed.

Lemma skip_writes_nothing_witness :
  let w' := after (cb_answer demo_bank ["skip"; "A"; "Q1"] 1) demo_env demo_world in
  outbox w' ≠ outbox demo_world
  ∧ db w' = db demo_world ∧ attempts w' = attempts demo_world.
Proof.
  intros w'. split; [discriminate|].
  exact (skip_writes_nothing demo_bank ["skip"; "A"; "Q1"] 1 demo_env demo_world eq_refl).
Defined.

(** ** Every user has a weight for every topic *)

Lemma weights_complete_ensured QDB user_id name ts w a o :
  weights_complete QDB w ->
  weights_complete QDB
    (World (Some (ensured QDB user_id name ts (default (Tables ∅ ∅) (db w)))) a o).
Proof.
  intros Hw j u topic Hj Htopic.
  destruct (user_of j w) as [u0|] eqn:Hj0.
  - rewrite weight_of_ensured_kept by (rewrite Hj0; eauto).
    apply (Hw j u0 topic Hj0 Htopic).
  - destruct (decide (user_id = j)) as [->|Hne].
    + unfold weight_of. cbn [db]. rewrite user_of_None_ensured by exact Hj0.
      rewrite get_stat_init_stats by exact Htopic. cbn. eauto.
    + rewrite user_of_ensured_other in Hj by exact Hne. congruence.
Qed.

(** In every state the bot can reach, a user who has a row has a weight for
    every topic of the bank: the default of [weights.get(t, 1.0)] and of
    [update_topic_weight] is not needed for them. *)
Theorem every_user_has_every_weight QDB w :
  reachable QDB w -> weights_complete QDB w.
Proof.
  induction 1 as [|w e ε Hr IH].
  - intros j u topic Hj. discriminate.
  - apply (handle_kept QDB ε e (weights_complete QDB)); [..|exact IH].
    + intros w1 o H. exact H.
    + intros w1 name H1. apply weights_complete_ensured, H1.
    + intros w1 t k H1 Ht j u topic Hj Htopic.
      rewrite (weight_of_users w1 t) by exact Ht.
      rewrite (user_of_altered w1 t) in Hj by exact Ht.
      destruct (user_of j w1) as [u1|] eqn:Hj1.
      * apply (H1 j u1 topic Hj1 Htopic).
      * destruct (decide _); discriminate.
    + intros w1 t topic r H1 Ht j u topic' Hj Htopic.
      rewrite (user_of_put w1 t) in Hj by exact Ht.
      destruct (decide ((event_user e, topic) = (j, topic'))) as [[= -> ->]|Hne].
      * unfold weight_of. cbn [db]. rewrite get_stat_put_eq. cbn. eauto.
      * rewrite (weight_of_put w1 t) by assumption. apply (H1 j u topic' Hj Htopic).
    + intros w1 qid c H1. exact H1.
Qed.

Lemma every_user_has_every_weight_witness :
  reachable demo_bank demo_world ∧ weights_complete demo_bank demo_world.
Proof.
  assert (Hr : reachable demo_bank demo_world)
    by exact (reachable_step demo_bank initial (Start 1 (Some "U1")) demo_env
                (reachable_initial demo_bank)).
  split; [exact Hr|]. exact (every_user_has_every_weight demo_bank demo_world Hr).
Defined.

(** ** Reading after writing *)

(** [update_user] followed by [get_user], when the tables exist.  Called
    with a keyword argument, [update_user] returns, and the row read
    afterwards is the row that was there with the named columns replaced;
    no other row and no weight changes; for an id without a row the UPDATE
    matches nothing, and the call returns without a change.  Called with no
    keyword argument it raises OperationalError and changes nothing. *)
Theorem update_user_then_get_user user_id k ε w t :
  db w = Some t ->
  let w' := after (update_user user_id k) ε w in
  (names_column k = true ->
   update_user user_id k ε w = (Ok tt, w')
   ∧ get_user user_id ε w' = (Ok (apply_update k <$> users t !! user_id), w')
   ∧ (forall j, j ≠ user_id -> user_of j w' = user_of j w)
   ∧ (forall j topic, weight_of j topic w' = weight_of j topic w)
   ∧ (users t !! user_id = None -> w' = w))
  ∧ (names_column k = false ->
     update_user user_id k ε w = (Raise OperationalError, w)).
Proof.
  intros Ht w'. subst w'. destruct w as [d a o]. cbn in Ht. subst d.
  unfold after, update_user. split; intros Hk; rewrite Hk; [|reflexivity].
  unfold get_user, bind, read_tables, write_tables, ret.
  cbn. split_and!.
  - reflexivity.
  - rewrite lookup_alter_eq. reflexivity.
  - intros j Hne. unfold user_of. cbn. apply lookup_alter_ne. congruence.
  - reflexivity.
  - intros Hnone. destruct t as [us st]. cbn in *. do 3 f_equal.
    apply map_eq. intros j. destruct (decide (user_id = j)) as [->|Hne].
    + rewrite lookup_alter_eq, Hnone. reflexivity.
    + apply lookup_alter_ne, Hne.
Qed.

(** User 1 is set to hard; the same for user 2, who has no row, changes
    nothing; an update that names no column raises. *)
Lemma update_user_then_get_user_witness :
  let k := Update (Some "hard") None None None in
  let w' := after (update_user 1 k) demo_env demo_world in
  get_user 1 demo_env w' = (Ok (Some (User "U1" "hard" 0 0 "Mixed")), w')
  ∧ after (update_user 2 k) demo_env demo_world = demo_world
  ∧ update_user 1 (Update None None None None) demo_env demo_world
    = (Raise OperationalError, demo_world).
Proof.
  intros k w'.
  destruct (update_user_then_get_user 1 k demo_env demo_world
              (default (Tables ∅ ∅) (db demo_world)) eq_refl) as [H1 _].
  destruct (update_user_then_get_user 2 k demo_env demo_world
              (default (Tables ∅ ∅) (db demo_world)) eq_refl) as [H2 _].
  destruct (update_user_then_get_user 1 (Update None None None None) demo_env
              demo_world (default (Tables ∅ ∅) (db demo_world)) eq_refl) as [_ H0].
  destruct (H1 eq_refl) as (_ & Hget & _).
  destruct (H2 eq_refl) as (_ & _ & _ & _ & Hsame).
  split; [exact Hget|]. split; [apply Hsame; reflexivity|]. apply H0. reflexivity.
Defined.

(** [update_topic_weight] seen through [get_topic_weights]: the dictionary
    read after the call is the one read before with the entry of the topic
    set to [max(0.1, w + delta)], [w] being the entry or 1.0; the
    dictionaries of the other users are the same. *)
Theorem weights_dict_after_update user_id topic delta ε w t :
  db w = Some t ->
  let ws := weight <$> default ∅ (topic_stats t !! user_id) in
  let w' := after (update_topic_weight user_id topic delta) ε w in
  get_topic_weights user_id ε w = (Ok ws, w)
  ∧ get_topic_weights user_id ε w'
    = (Ok (<[topic := py_max 0.1 (default 1%float (ws !! topic) + delta)]> ws), w')
  ∧ (forall j, j ≠ user_id ->
               fst (get_topic_weights j ε w') = fst (get_topic_weights j ε w)).
Proof.
  intros Ht ws w'. subst ws w'. unfold after.
  rewrite (update_topic_weight_run user_id topic delta ε w t Ht). cbn [snd].
  unfold get_topic_weights, bind, read_tables, ret. rewrite Ht. cbn [db].
  split_and!.
  - reflexivity.
  - unfold put_stat. cbn [topic_stats]. rewrite lookup_insert_eq. cbn [from_option id].
    rewrite fmap_insert. cbn [weight]. do 3 f_equal.
    unfold weight_or_default, get_stat. rewrite lookup_fmap.
    destruct (default ∅ (topic_stats t !! user_id) !! topic); reflexivity.
  - intros j Hne. cbn. unfold put_stat. cbn [topic_stats].
    rewrite lookup_insert_ne by congruence. reflexivity.
Qed.

Lemma weights_dict_after_update_witness :
  let w' := after (update_topic_weight 1 "A" 0.5) demo_env demo_world in
  get_topic_weights 1 demo_env demo_world
  = (Ok {["A" := 1%float; "B" := 1%float]}, demo_world)
  ∧ fst (get_topic_weights 1 demo_env w')
    = Ok (<["A" := 1.5%float]> {["A" := 1%float; "B" := 1%float]}).
Proof.
  intros w'.
  destruct (db demo_world) as [t|] eqn:Ht; [|discriminate].
  injection Ht as <-.
  destruct (weights_dict_after_update 1 "A" 0.5 demo_env demo_world _ eq_refl)
    as (H0 & H1 & _).
  split; [vm_compute; reflexivity|].
  fold w' in H1. rewrite H1. vm_compute. reflexivity.
Defined.

(** ** The progress report *)

Lemma users_ensured QDB user_id name ts t :
  is_Some (users (ensured QDB user_id name ts t) !! user_id).
Proof.
  unfold ensured. destruct (users t !! user_id) as [u|] eqn:Hu.
  - rewrite Hu. eauto.
  - rewrite users_init_stats. cbn. rewrite lookup_insert_eq. eauto.
Qed.

Lemma menu_progress_run QDB user_id name ε w t :
  db w = Some t ->
  let t' := ensured QDB user_id name (now ε) t in
  exists u,
    users t' !! user_id = Some u
    ∧ menu_progress QDB user_id name ε w
      = (Ok tt,
         World (Some t') (attempts w)
               (outbox w
                ++ [MsgProgress u (weight <$> default ∅ (topic_stats t' !! user_id))])).
Proof.
  intros Ht t'. destruct (users_ensured QDB user_id name (now ε) t) as [u Hu].
  exists u. split; [exact Hu|]. unfold menu_progress.
  rewrite (run_bind _ _ ε w _ w (get_user_run user_id ε w t Ht)).
  destruct w as [d a o]. cbn in Ht. subst d.
  destruct (users t !! user_id) as [u0|] eqn:Hu0.
  - assert (Ht' : t' = t) by (apply ensured_present; rewrite Hu0; eauto).
    fold t' in Hu. rewrite Ht' in *. rewrite Hu0 in Hu. injection Hu as ->.
    reflexivity.
  - unfold bind at 1. unfold bind at 1. rewrite ensure_user_run.
    cbn [db default from_option id attempts outbox].
    fold t'. unfold get_user at 1, bind at 1, read_tables. cbn [db]. cbn [ret].
    unfold bind at 1. unfold get_topic_weights, bind at 1, read_tables. cbn [db ret].
    fold t' in Hu. rewrite Hu. reflexivity.
Qed.

(** When the tables exist the progress report never raises: it registers a
    user who has no row, changes nothing for one who has, and sends one
    message with the row and the weights as they are stored. *)
Theorem progress_reports_state QDB user_id name ε w t :
  db w = Some t ->
  exists u t',
    menu_progress QDB user_id name ε w
    = (Ok tt,
       World (Some t') (attempts w)
             (outbox w
              ++ [MsgProgress u (weight <$> default ∅ (topic_stats t' !! user_id))]))
    ∧ users t' !! user_id = Some u
    ∧ t' = ensured QDB user_id name (now ε) t
    ∧ (is_Some (users t !! user_id) -> t' = t).
Proof.
  intros Ht. destruct (menu_progress_run QDB user_id name ε w t Ht) as (u & Hu & Hrun).
  exists u, (ensured QDB user_id name (now ε) t).
  split_and!; [exact Hrun|exact Hu|reflexivity|apply ensured_present].
Qed.

Lemma progress_reports_state_witness :
  exists u t',
    menu_progress demo_bank 1 None demo_env demo_world
    = (Ok tt,
       World (Some t') []
             (outbox demo_world
              ++ [MsgProgress u (weight <$> default ∅ (topic_stats t' !! 1))]))
    ∧ users t' !! 1 = Some u
    ∧ t' = ensured demo_bank 1 None (now demo_env) (default (Tables ∅ ∅) (db demo_world))
    ∧ (is_Some (users (default (Tables ∅ ∅) (db demo_world)) !! 1) ->
       t' = default (Tables ∅ ∅) (db demo_world)).
Proof.
  exact (progress_reports_state demo_bank 1 None demo_env demo_world
           (default (Tables ∅ ∅) (db demo_world)) eq_refl).
Defined.

(** ** A database without tables *)

(** On a database file that has no tables yet, the progress report and an
    answer or skip callback raise OperationalError at their first SELECT
    and write nothing: [menu_progress] reads the user before the call of
    [ensure_user] that would create the tables.  After /start from any
    user the tables exist, and the same progress report returns. *)
Theorem handlers_need_the_tables QDB user_id name parts ε w :
  db w = None ->
  menu_progress QDB user_id name ε w = (Raise OperationalError, w)
  ∧ ((3 <= length parts)%nat ->
     cb_answer QDB parts user_id ε w = (Raise OperationalError, w))
  ∧ (forall other name' ε',
       fst (menu_progress QDB user_id name ε
              (after (cmd_start QDB other name') ε' w)) = Ok tt).
Proof.
  intros Hdb. split_and!.
  - unfold menu_progress, get_user, bind, read_tables. rewrite Hdb. reflexivity.
  - intros Hlen. destruct parts as [|cmd [|topic [|qid parts]]]; cbn in Hlen; try lia.
    unfold cb_answer.
    rewrite (run_bind _ _ ε w cmd w eq_refl).
    rewrite (run_bind _ _ ε w topic w eq_refl).
    rewrite (run_bind _ _ ε w qid w eq_refl).
    apply run_bind_raise. unfold get_user, bind, read_tables. rewrite Hdb. reflexivity.
  - intros other name' ε'.
    set (w1 := after (cmd_start QDB other name') ε' w).
    assert (H1 : exists t1, db w1 = Some t1).
    { unfold w1, after, cmd_start, bind. rewrite ensure_user_run. cbn. eauto. }
    destruct H1 as [t1 Ht1].
    destruct (menu_progress_run QDB user_id name ε w1 t1 Ht1) as (u & _ & ->).
    reflexivity.
Qed.

Lemma handlers_need_the_tables_witness :
  menu_progress demo_bank 1 None demo_env initial = (Raise OperationalError, initial)
  ∧ cb_answer demo_bank (answer_parts "A" "Q1" "a") 1 demo_env initial
    = (Raise OperationalError, initial)
  ∧ fst (menu_progress demo_bank 1 None demo_env demo_world) = Ok tt.
Proof.
  destruct (handlers_need_the_tables demo_bank 1 None (answer_parts "A" "Q1" "a")
              demo_env initial eq_refl) as (H1 & H2 & H3).
  split; [exact H1|]. split; [apply H2; cbn; lia|].
  exact (H3 1 (Some "U1") demo_env).
Defined.

(** ** Callback data with too few parts *)

(** The filter of line 258 lets pass data with fewer than two bars after the
    command; [parts[1]] or [parts[2]] then raises IndexError, before the
    database is read. *)
Theorem short_callback_data QDB data user_id ε w :
  (length (split_bar data) < 3)%nat ->
  cb_answer_data QDB data user_id ε w = (Raise IndexError, w).
Proof.
  unfold cb_answer_data. generalize (split_bar data). intros parts Hlen.
  destruct parts as [|cmd [|topic [|qid parts]]]; cbn in Hlen; try lia; reflexivity.
Qed.

Lemma short_callback_data_witness :
  answer_filter "skip|A" = true
  ∧ cb_answer_data demo_bank "skip|A" 1 demo_env demo_world
    = (Raise IndexError, demo_world).
Proof.
  split; [reflexivity|].
  apply (short_callback_data demo_bank "skip|A" 1 demo_env demo_world).
  vm_compute. reflexivity.
Defined.

(** ** Answering the callback query *)

Lemma sent_by_run {A} (m : M A) ε w r w' l :
  m ε w = (r, w') -> outbox w' = outbox w ++ l -> sent_by m ε w = l.
Proof.
  intros Hrun Hout. unfold sent_by, after. rewrite Hrun. cbn [snd].
  rewrite Hout. apply drop_app_length.
Qed.

(** A handler of a callback query that returns has called
    [callback.answer] once, as the last thing it did; one that raises has
    not called it.  The handlers of messages never call it. *)
Theorem callback_answered_iff_returns QDB e ε w :
  let m := handle QDB e in
  exists l,
    Forall (fun r => answers_callback r = false) l
    ∧ match fst (m ε w) with
      | Ok _ =>
          if is_callback e
          then exists r, answers_callback r = true ∧ sent_by m ε w = l ++ [r]
          else sent_by m ε w = l
      | Raise _ => sent_by m ε w = l
      end.
Proof.
  intros m. subst m.
  set (P := fun w' : world =>
    exists l, outbox w' = outbox w ++ l
              ∧ Forall (fun r => answers_callback r = false) l).
  set (F := fun w' : world =>
    exists l r, outbox w' = outbox w ++ l ++ [r]
                ∧ Forall (fun r => answers_callback r = false) l
                ∧ answers_callback r = true).
  assert (Hsend : forall w1 r, answers_callback r = false ->
            P w1 -> P (World (db w1) (attempts w1) (outbox w1 ++ [r]))).
  { intros w1 r Hr (l & Hl & Hq). exists (l ++ [r]). cbn. rewrite Hl, app_assoc.
    split; [reflexivity|]. apply Forall_app. auto. }
  assert (Hfinal : forall w1 r, answers_callback r = true ->
            P w1 -> F (World (db w1) (attempts w1) (outbox w1 ++ [r]))).
  { intros w1 r Hr (l & Hl & Hq). exists l, r. cbn. rewrite Hl, app_assoc. auto. }
  assert (Hdb : forall w1 d a, P w1 -> P (World d a (outbox w1))).
  { intros w1 d a H. exact H. }
  assert (H0 : P w) by (exists []; rewrite app_nil_r; auto).
  assert (H : wp P ε (handle QDB e) (fun _ => if is_callback e then F else P) w).
  { destruct e as [i n|i n|i n|p i n|p i]; cbn [handle is_callback].
    - apply (cmd_start_sends QDB ε i P); auto.
    - apply (menu_quiz_sends QDB ε i P); auto.
    - apply (menu_progress_sends QDB ε i P); auto.
    - apply (cb_start_quiz_sends QDB ε i P F); auto.
    - apply (cb_answer_sends QDB ε i P F); auto. }
  unfold wp in H. destruct (handle QDB e ε w) as [[[]|x] w'] eqn:Hrun; cbn [fst].
  - destruct (is_callback e).
    + destruct H as (l & r & Hout & Hl & Hr). exists l. split; [exact Hl|].
      exists r. split; [exact Hr|]. exact (sent_by_run _ _ _ _ _ _ Hrun Hout).
    + destruct H as (l & Hout & Hl). exists l. split; [exact Hl|].
      exact (sent_by_run _ _ _ _ _ _ Hrun Hout).
  - destruct H as (l & Hout & Hl). exists l. split; [exact Hl|].
    exact (sent_by_run _ _ _ _ _ _ Hrun Hout).
Qed.

(** ** What an answer sends *)

(** The tail of [cb_answer] for a user who has a row with a valid level:
    after the feedback and the messages on the level, the next question is
    asked for with the level of the row read at line 263. *)
Lemma progression_found E ε QDB user_id topic selected q u idx t a o
    (Q : unit -> world -> Prop) :
  users t !! user_id = Some u ->
  index_from levels (difficulty u) 0 = Some idx ->
  wp E ε (send_question QDB user_id (active_topic u) (difficulty u) ;; send Ack) Q
     (World (Some (answered ε user_id topic selected t u q idx)) a
            (o ++ feedback (bool_decide (selected = q_answer q)) q
               :: level_messages
                    (streaks_after (bool_decide (selected = q_answer q)) u) idx)) ->
  wp E ε (progression QDB user_id topic q (bool_decide (selected = q_answer q))
            (Some u)) Q
     (World (Some t) a o).
Proof.
  intros Hu Hidx Hk. unfold progression. unfold answered in Hk.
  destruct (index_from_levels _ _ Hidx) as [Hlt Hl].
  destruct (bool_decide (selected = q_answer q)) eqn:Hc;
    cbn [streaks_after feedback] in Hk;
    unfold level_after, with_difficulty, level_messages in Hk;
    cbn [difficulty correct_streak wrong_streak active_topic username] in Hk.
  - replace (bool_decide (2 <= 0)) with false in Hk by reflexivity.
    cbn [andb] in Hk. rewrite app_nil_r in Hk.
    apply wp_bind, wp_bind, wp_subscript; [discriminate|]. intros ? [= <-].
    apply wp_bind; eapply wp_update_user_found; [reflexivity|exact Hu|].
    apply wp_bind, wp_update_topic_weight; [discriminate|]. intros ? [= <-].
    apply wp_send. cbn [db attempts outbox].
    apply wp_bind, wp_get_user; [discriminate|]. intros ? [= <-].
    cbn [users put_stat]. rewrite lookup_insert_eq.
    apply wp_bind, wp_subscript; [discriminate|]. intros ? [= <-].
    cbn [apply_update difficulty correct_streak wrong_streak active_topic username
         set_difficulty set_correct_streak set_wrong_streak set_active_topic
         from_option id].
    apply wp_bind, wp_index; [congruence|]. intros i Hi.
    assert (i = idx) by congruence. subst i.
    replace (bool_decide (2 <= 0)) with false by reflexivity. cbn [andb].
    destruct (bool_decide (3 <= correct_streak u + 1) && bool_decide (idx < 2)%nat)
      eqn:Hup.
    + apply wp_bind, wp_bind, wp_item.
      { apply andb_prop in Hup as [_ Hi2]. apply bool_decide_eq_true in Hi2.
        intros Hn. apply lookup_ge_None in Hn. cbn in Hn. lia. }
      intros l Hl'. rewrite Hl' in Hk. cbn [from_option id] in Hk.
      apply wp_bind; eapply wp_update_user_found; [reflexivity|apply lookup_insert_eq|].
      apply wp_send. cbn [db attempts outbox]. apply wp_bind, wp_ret.
      cbn [users put_stat]. rewrite insert_insert_eq, <- app_assoc. exact Hk.
    + apply wp_bind, wp_ret. apply wp_bind, wp_ret. exact Hk.
  - replace (bool_decide (3 <= 0)) with false in Hk by reflexivity.
    cbn [andb] in Hk. rewrite app_nil_l in Hk.
    apply wp_bind, wp_bind, wp_subscript; [discriminate|]. intros ? [= <-].
    apply wp_bind; eapply wp_update_user_found; [reflexivity|exact Hu|].
    apply wp_bind, wp_update_topic_weight; [discriminate|]. intros ? [= <-].
    apply wp_send. cbn [db attempts outbox].
    apply wp_bind, wp_get_user; [discriminate|]. intros ? [= <-].
    cbn [users put_stat]. rewrite lookup_insert_eq.
    apply wp_bind, wp_subscript; [discriminate|]. intros ? [= <-].
    cbn [apply_update difficulty correct_streak wrong_streak active_topic username
         set_difficulty set_correct_streak set_wrong_streak set_active_topic
         from_option id].
    apply wp_bind, wp_index; [congruence|]. intros i Hi.
    assert (i = idx) by congruence. subst i.
    replace (bool_decide (3 <= 0)) with false by reflexivity. cbn [andb].
    apply wp_bind, wp_ret.
    destruct (bool_decide (2 <= wrong_streak u + 1) && bool_decide (0 < idx)%nat)
      eqn:Hdn.
    + apply wp_bind, wp_bind, wp_item.
      { intros Hn. apply lookup_ge_None in Hn. cbn in Hn. lia. }
      intros l Hl'. rewrite Hl' in Hk. cbn [from_option id] in Hk.
      apply wp_bind; eapply wp_update_user_found; [reflexivity|apply lookup_insert_eq|].
      apply wp_send. cbn [db attempts outbox].
      cbn [users put_stat]. rewrite insert_insert_eq, <- app_assoc. exact Hk.
    + apply wp_bind, wp_ret. exact Hk.
Qed.

(** An answer to a question of the bank, by a user who has a row: the
    messages are the feedback, the messages on a change of level, and, when
    the handler returns, the next question or the notice that there is
    none, and the answer to the callback query.  The next question is taken
    at the level the user had before the answer, also when the answer has
    just changed the level, and from the active topic. *)
Theorem answer_sends_next_question QDB ε w user_id u topic qid selected q idx :
  user_of user_id w = Some u ->
  question_of QDB topic qid = Some q ->
  levels !! idx = Some (difficulty u) ->
  let m := cb_answer QDB (answer_parts topic qid selected) user_id in
  let c := bool_decide (selected = q_answer q) in
  exists next,
    sent_by m ε w = feedback c q :: level_messages (streaks_after c u) idx ++ next
    ∧ match fst (m ε w) with
      | Ok _ =>
          next = [MsgNoQuestions; Ack]
          ∨ exists t' q' e,
              next = [MsgQuestion t' q'; Ack]
              ∧ t' ∈ topics_in_scope QDB (active_topic u)
              ∧ bank_get QDB t' = Some e
              ∧ q' ∈ questions_at e (difficulty u)
      | Raise _ => next = []
      end.
Proof.
  intros Hu Hq Hidx m c. subst m c.
  apply user_of_Some in Hu as (t & Ht & Hu).
  apply levels_lookup_index in Hidx.
  set (msgs := feedback (bool_decide (selected = q_answer q)) q
               :: level_messages
                    (streaks_after (bool_decide (selected = q_answer q)) u) idx).
  set (E := fun w' : world => outbox w' = outbox w ++ msgs).
  set (Q := fun (_ : unit) (w' : world) =>
    exists next,
      outbox w' = outbox w ++ msgs ++ next
      ∧ (next = [MsgNoQuestions; Ack]
         ∨ exists t' q' e,
             next = [MsgQuestion t' q'; Ack]
             ∧ t' ∈ topics_in_scope QDB (active_topic u)
             ∧ bank_get QDB t' = Some e
             ∧ q' ∈ questions_at e (difficulty u))).
  assert (H : wp E ε (cb_answer QDB (answer_parts topic qid selected) user_id) Q w).
  { destruct w as [d a o]. cbn in Ht. subst d.
    rewrite cb_answer_unfold. unfold answer_parts.
    apply wp_bind, wp_item; [discriminate|]. intros ? [= <-].
    apply wp_bind, wp_item; [discriminate|]. intros ? [= <-].
    apply wp_bind, wp_item; [discriminate|]. intros ? [= <-].
    apply wp_bind, wp_get_user; [discriminate|]. intros ? [= <-]. rewrite Hu.
    destruct (decide ("answer" = "skip")) as [?|_]; [discriminate|].
    apply wp_bind, wp_item; [discriminate|]. intros ? [= <-].
    assert (Hbank : is_Some (bank_get QDB topic)).
    { unfold question_of in Hq. destruct (bank_get QDB topic); [eauto|discriminate]. }
    apply wp_bind, wp_find_question.
    { intros Hn. rewrite Hn in Hbank. destruct Hbank; discriminate. }
    intros _. rewrite Hq.
    apply wp_bind, wp_record_attempt. cbn [db attempts outbox].
    apply (progression_found E ε QDB user_id topic selected q u idx t);
      [exact Hu|exact Hidx|]. fold msgs.
    apply wp_bind, wp_send_question_level.
    - reflexivity.
    - apply wp_send. exists [MsgNoQuestions; Ack]. cbn [outbox].
      split; [rewrite <- !app_assoc; reflexivity|auto].
    - intros t' q' e Hscope He Hq'. apply wp_send.
      exists [MsgQuestion t' q'; Ack]. cbn [outbox].
      split; [rewrite <- !app_assoc; reflexivity|]. right. eauto 10. }
  unfold wp in H.
  destruct (cb_answer QDB (answer_parts topic qid selected) user_id ε w)
    as [[[]|x] w'] eqn:Hrun; cbn [fst].
  - destruct H as (next & Hout & Hnext). exists next. split; [|exact Hnext].
    exact (sent_by_run _ _ _ _ _ _ Hrun Hout).
  - exists []. split; [|reflexivity]. rewrite app_nil_r.
    exact (sent_by_run _ _ _ _ _ _ Hrun H).
Qed.

(** User 1 is at easy with two correct answers in a row; the third moves
    the row to medium, and the question sent with it is an easy one. *)
Lemma answer_sends_next_question_witness :
  let steps := [(answer_parts "A" "Q1" "a", demo_env);
                (answer_parts "A" "Q1" "a", demo_env)] in
  let w := answer_all demo_bank 1 steps demo_world in
  let m := cb_answer demo_bank (answer_parts "A" "Q1" "a") 1 in
  user_of 1 w = Some (User "U1" "easy" 2 0 "Mixed")
  ∧ user_of 1 (after m demo_env w) = Some (User "U1" "medium" 3 0 "Mixed")
  ∧ sent_by m demo_env w
    = [MsgCorrect; MsgIncreased "medium"; MsgQuestion "B" demo_q2; Ack]
  ∧ exists next,
      sent_by m demo_env w = MsgCorrect :: [MsgIncreased "medium"] ++ next
      ∧ match fst (m demo_env w) with
        | Ok _ =>
            next = [MsgNoQuestions; Ack]
            ∨ exists t' q' e,
                next = [MsgQuestion t' q'; Ack]
                ∧ t' ∈ topics_in_scope demo_bank "Mixed"
                ∧ bank_get demo_bank t' = Some e
                ∧ q' ∈ questions_at e "easy"
        | Raise _ => next = []
        end.
Proof.
  intros steps w m. split; [reflexivity|]. split; [reflexivity|].
  split; [reflexivity|].
  exact (answer_sends_next_question demo_bank demo_env w 1
           (User "U1" "easy" 2 0 "Mixed") "A" "Q1" "a" demo_q1 0
           eq_refl eq_refl eq_refl).
Defined.

(** * Starting a quiz *)

Lemma prefix_split a b : String.prefix a b = true -> exists c, b = a +:+ c.
Proof.
  revert b. induction a as [|x a IH]; intros b; [exists b; reflexivity|].
  destruct b as [|y b]; cbn [String.prefix]; [discriminate|].
  destruct (ascii_dec x y) as [->|]; [|discriminate].
  intros Hp. destruct (IH b Hp) as [c ->]. exists c. reflexivity.
Qed.

Lemma update_user_run user_id k ε t a o :
  names_column k = true ->
  update_user user_id k ε (World (Some t) a o)
  = (Ok tt,
     World (Some (Tables (alter (apply_update k) user_id (users t)) (topic_stats t)))
           a o).
Proof. intros Hk. unfold update_user. rewrite Hk. reflexivity. Qed.

Lemma cb_start_quiz_run QDB parts topic user_id name ε w :
  parts !! 1%nat = Some topic ->
  cb_start_quiz QDB parts user_id name ε w
  = (do u <- get_user user_id ;
     (if decide (topic = "Mixed") then ret tt
      else
        match bank_get QDB topic with
        | Some e => send (MsgTheory topic (theory e))
        | None => raise (KeyError topic)
        end) ;;
     send MsgStarting ;;
     do u <- subscript u ;
     send_question QDB user_id topic (difficulty u) ;;
     send Ack) ε
      (World
         (Some
            (Tables
               (alter (apply_update (Update None None None (Some topic))) user_id
                  (users (ensured QDB user_id name (now ε)
                            (default (Tables ∅ ∅) (db w)))))
               (topic_stats (ensured QDB user_id name (now ε)
                               (default (Tables ∅ ∅) (db w))))))
         (attempts w) (outbox w)).
Proof.
  intros Hp. unfold cb_start_quiz.
  assert (Hitem : item parts 1 ε w = (Ok topic, w))
    by (unfold item; rewrite Hp; reflexivity).
  rewrite (run_bind _ _ ε w topic w Hitem).
  rewrite (run_bind _ _ ε w tt _ (ensure_user_run QDB user_id name ε w)).
  rewrite (run_bind _ _ ε _ tt _
             (update_user_run user_id (Update None None None (Some topic)) ε _ _ _
                eq_refl)).
  reflexivity.
Qed.

(** Data that passes the filter of line 245 has a second part.  The
    handler registers the user and stores that part as the active topic
    before it looks the topic up: for a topic that the bank does not have
    it raises KeyError with the topic stored and nothing sent. *)
Theorem start_quiz_sets_the_topic QDB data user_id name ε w :
  start_quiz_filter data = true ->
  let m := cb_start_quiz_data QDB data user_id name in
  exists topic u,
    split_bar data !! 1%nat = Some topic
    ∧ user_of user_id (after m ε w) = Some u
    ∧ active_topic u = topic
    ∧ (topic ≠ "Mixed" -> bank_get QDB topic = None ->
       fst (m ε w) = Raise (KeyError topic) ∧ sent_by m ε w = []).
Proof.
  intros Hp m. subst m. unfold cb_start_quiz_data.
  apply prefix_split in Hp as [rest ->].
  change ("start_quiz|" +:+ rest) with ("start_quiz" +:+ String bar rest).
  rewrite split_bar_app by reflexivity.
  pose proof (split_bar_not_nil rest) as Hne.
  destruct (split_bar rest) as [|topic pieces]; [contradiction|]. clear Hne.
  set (parts := "start_quiz" :: topic :: pieces).
  pose proof (cb_start_quiz_run QDB parts topic user_id name ε w eq_refl) as Hrun.
  set (t1 := ensured QDB user_id name (now ε) (default (Tables ∅ ∅) (db w))) in *.
  set (k := Update None None None (Some topic)) in *.
  set (w2 := World _ (attempts w) (outbox w)) in Hrun.
  destruct (users_ensured QDB user_id name (now ε) (default (Tables ∅ ∅) (db w)))
    as [u1 Hu1]. fold t1 in Hu1.
  assert (Hu2 : user_of user_id w2 = Some (apply_update k u1)).
  { unfold user_of, w2. cbn [db users]. rewrite lookup_alter_eq, Hu1. reflexivity. }
  exists topic, (apply_update k u1). split; [reflexivity|].
  split; [|split; [reflexivity|]].
  - unfold after. rewrite Hrun.
    apply (leaves_after ε _ (fun w' => user_of user_id w' = Some (apply_update k u1))).
    unfold leaves.
    assert (Hout : forall w1 o,
              user_of user_id w1 = Some (apply_update k u1) ->
              user_of user_id (World (db w1) (attempts w1) o) = Some (apply_update k u1))
      by (intros w1 o H; exact H).
    apply wp_bind, wp_get_user; [auto|]. intros t Ht.
    apply wp_bind with (m := if decide (topic = "Mixed") then _ else _).
    eapply wp_mono with (Q := fun _ w' => user_of user_id w' = Some (apply_update k u1)).
    { destruct (decide (topic = "Mixed")); [apply wp_ret; assumption|].
      destruct (bank_get QDB topic); [apply wp_send, Hout|apply wp_raise]; assumption. }
    cbv beta. intros _ w3 Hw3.
    apply wp_bind, wp_send. apply wp_bind, wp_subscript; [auto|]. intros u _.
    apply wp_bind, wp_send_question; [auto|]. intros r. apply wp_send. auto.
  - intros Hmixed Hbank.
    assert (Hraise : cb_start_quiz QDB parts user_id name ε w
                     = (Raise (KeyError topic), w2)).
    { rewrite Hrun.
      rewrite (run_bind _ _ ε w2 _ w2 (get_user_run user_id ε w2 _ eq_refl)).
      apply run_bind_raise. rewrite decide_False by exact Hmixed.
      rewrite Hbank. reflexivity. }
    split; [rewrite Hraise; reflexivity|].
    apply (sent_by_run _ _ _ _ _ _ Hraise). cbn. rewrite app_nil_r. reflexivity.
Qed.

(** Topic C is not in the small bank: user 1 is left with active topic C. *)
Lemma start_quiz_sets_the_topic_witness :
  let m := cb_start_quiz_data demo_bank "start_quiz|C" 1 None in
  exists topic u,
    split_bar "start_quiz|C" !! 1%nat = Some topic
    ∧ user_of 1 (after m demo_env demo_world) = Some u
    ∧ active_topic u = topic
    ∧ (topic ≠ "Mixed" -> bank_get demo_bank topic = None ->
       fst (m demo_env demo_world) = Raise (KeyError topic)
       ∧ sent_by m demo_env demo_world = []).
Proof.
  exact (start_quiz_sets_the_topic demo_bank "start_quiz|C" 1 None demo_env
           demo_world eq_refl).
Defined.

(** A button of the quiz menu, for Mixed or for a topic of the bank whose
    name has no bar, starts a quiz on its topic: the topic becomes the
    active topic of the user, who is registered if need be; the theory of
    the topic (none for Mixed) and the starting message are sent, then a
    question of the topic at the level of the user, or the notice that
    there is none, and the answer to the callback query. *)
Theorem quiz_button_starts_quiz QDB t user_id name ε w :
  t = "Mixed" ∨ t ∈ bank_keys QDB ->
  no_bar t = true ->
  let m := cb_start_quiz_data QDB (start_quiz_data t) user_id name in
  start_quiz_filter (start_quiz_data t) = true
  ∧ exists u next,
      user_of user_id (after m ε w) = Some u
      ∧ active_topic u = t
      ∧ sent_by m ε w = theory_messages QDB t ++ MsgStarting :: next
      ∧ match fst (m ε w) with
        | Ok _ =>
            next = [MsgNoQuestions; Ack]
            ∨ exists t' q' e,
                next = [MsgQuestion t' q'; Ack]
                ∧ t' ∈ topics_in_scope QDB t
                ∧ bank_get QDB t' = Some e
                ∧ q' ∈ questions_at e (difficulty u)
        | Raise _ => next = []
        end.
Proof.
  intros Hknown Hplain m. subst m.
  split; [apply prefix_append|].
  unfold cb_start_quiz_data, start_quiz_data.
  change ("start_quiz|" +:+ t) with ("start_quiz" +:+ String bar t).
  rewrite split_bar_app by reflexivity. rewrite (split_bar_plain t Hplain).
  set (parts := ["start_quiz"; t]).
  pose proof (cb_start_quiz_run QDB parts t user_id name ε w eq_refl) as Hrun.
  set (t1 := ensured QDB user_id name (now ε) (default (Tables ∅ ∅) (db w))) in *.
  set (k := Update None None None (Some t)) in *.
  set (w2 := World _ (attempts w) (outbox w)) in Hrun.
  destruct (users_ensured QDB user_id name (now ε) (default (Tables ∅ ∅) (db w)))
    as [u1 Hu1]. fold t1 in Hu1.
  assert (Hu2 : user_of user_id w2 = Some (apply_update k u1)).
  { unfold user_of, w2. cbn [db users]. rewrite lookup_alter_eq, Hu1. reflexivity. }
  exists (apply_update k u1).
  set (msgs := theory_messages QDB t ++ [MsgStarting]).
  set (E := fun w' : world =>
    user_of user_id w' = Some (apply_update k u1) ∧ outbox w' = outbox w ++ msgs).
  set (Q := fun (_ : unit) (w' : world) =>
    user_of user_id w' = Some (apply_update k u1)
    ∧ exists next,
        outbox w' = outbox w ++ msgs ++ next
        ∧ (next = [MsgNoQuestions; Ack]
           ∨ exists t' q' e,
               next = [MsgQuestion t' q'; Ack]
               ∧ t' ∈ topics_in_scope QDB t
               ∧ bank_get QDB t' = Some e
               ∧ q' ∈ questions_at e (difficulty (apply_update k u1)))).
  assert (H : wp E ε (cb_start_quiz QDB parts user_id name) Q w).
  { unfold wp at 1. rewrite Hrun.
    change (wp E ε
      (do u <- get_user user_id ;
       (if decide (t = "Mixed") then ret tt
        else
          match bank_get QDB t with
          | Some e => send (MsgTheory t (theory e))
          | None => raise (KeyError t)
          end) ;;
       send MsgStarting ;;
       do u <- subscript u ;
       send_question QDB user_id t (difficulty u) ;;
       send Ack) Q w2).
    apply wp_bind, wp_get_user; [discriminate|]. intros ? [= <-].
    cbn [users]. rewrite lookup_alter_eq, Hu1. cbn [fmap option_fmap option_map].
    apply wp_bind with (m := if decide (t = "Mixed") then _ else _).
    eapply wp_mono with (Q := fun _ w' =>
      db w' = db w2 ∧ attempts w' = attempts w2
      ∧ outbox w' = outbox w ++ theory_messages QDB t).
    { unfold theory_messages. destruct (decide (t = "Mixed")) as [Hm|Hm].
      - apply wp_ret. rewrite app_nil_r. auto.
      - destruct Hknown as [?|Hin]; [contradiction|].
        destruct (bank_get_keys QDB t Hin) as [e ->]. apply wp_send. auto. }
    cbv beta. intros _ [d3 a3 o3] (Hd & Ha & Ho). cbn in Hd, Ha, Ho. subst d3 a3 o3.
    apply wp_bind, wp_send. cbn [db attempts outbox].
    apply wp_bind, wp_subscript; [discriminate|]. intros ? [= <-].
    apply wp_bind, wp_send_question_level.
    - split; [exact Hu2|]. cbn [outbox]. unfold msgs. rewrite app_assoc. reflexivity.
    - apply wp_send. split; [exact Hu2|].
      exists [MsgNoQuestions; Ack]. cbn [outbox]. unfold msgs.
      split; [rewrite <- !app_assoc; reflexivity|auto].
    - intros t' q' e Hscope He Hq'. apply wp_send. split; [exact Hu2|].
      exists [MsgQuestion t' q'; Ack]. cbn [outbox]. unfold msgs.
      split; [rewrite <- !app_assoc; reflexivity|]. right. eauto 10. }
  unfold wp in H. unfold after.
  destruct (cb_start_quiz QDB parts user_id name ε w) as [[[]|x] w'] eqn:Hrun';
    cbn [fst snd].
  - destruct H as (Hu & next & Hout & Hnext). exists next.
    split; [exact Hu|]. split; [reflexivity|]. split; [|exact Hnext].
    rewrite (sent_by_run _ _ _ _ _ _ Hrun' Hout). unfold msgs.
    rewrite <- app_assoc. reflexivity.
  - destruct H as (Hu & Hout). exists [].
    split; [exact Hu|]. split; [reflexivity|]. split; [|reflexivity].
    rewrite (sent_by_run _ _ _ _ _ _ Hrun' Hout). reflexivity.
Qed.

Lemma quiz_button_starts_quiz_witness :
  let m := cb_start_quiz_data demo_bank (start_quiz_data "B") 1 None in
  sent_by m demo_env demo_world
  = [MsgTheory "B" "about B"; MsgStarting; MsgQuestion "B" demo_q2; Ack]
  ∧ start_quiz_filter (start_quiz_data "B") = true
  ∧ exists u next,
      user_of 1 (after m demo_env demo_world) = Some u
      ∧ active_topic u = "B"
      ∧ sent_by m demo_env demo_world
        = theory_messages demo_bank "B" ++ MsgStarting :: next
      ∧ match fst (m demo_env demo_world) with
        | Ok _ =>
            next = [MsgNoQuestions; Ack]
            ∨ exists t' q' e,
                next = [MsgQuestion t' q'; Ack]
                ∧ t' ∈ topics_in_scope demo_bank "B"
                ∧ bank_get demo_bank t' = Some e
                ∧ q' ∈ questions_at e (difficulty u)
        | Raise _ => next = []
        end.
Proof.
  intros m. split; [reflexivity|].
  apply (quiz_button_starts_quiz demo_bank "B" 1 None demo_env demo_world).
  - right. apply elem_of_cons. right. apply elem_of_cons. left. reflexivity.
  - reflexivity.
Defined.

(** * Callback data that no handler takes *)

(** A callback query is taken by one handler at most, and the buttons of
    the topics menu by none: their data passes none of the three filters,
    so that pressing one of them does nothing. *)
Theorem topic_buttons_have_no_handler data :
  (lit_filter data = true -> start_quiz_filter data = false ∧ answer_filter data = false)
  ∧ (start_quiz_filter data = true -> answer_filter data = false)
  ∧ (forall t, data = topic_info_data t ->
       lit_filter data = false ∧ start_quiz_filter data = false
       ∧ answer_filter data = false).
Proof.
  unfold lit_filter, start_quiz_filter, answer_filter. split_and!.
  - intros Hp. apply prefix_split in Hp as [rest ->]. split; reflexivity.
  - intros Hp. apply prefix_split in Hp as [rest ->]. reflexivity.
  - intros t ->. split_and!; reflexivity.
Qed.

Lemma topic_buttons_have_no_handler_witness :
  lit_filter "lit|sedgewick" = true
  ∧ start_quiz_filter "lit|sedgewick" = false
  ∧ answer_filter "lit|sedgewick" = false
  ∧ answer_filter (topic_info_data "A") = false.
Proof.
  destruct (topic_buttons_have_no_handler "lit|sedgewick") as (Hlit & _ & _).
  destruct (topic_buttons_have_no_handler (topic_info_data "A")) as (_ & _ & Hinfo).
  destruct (Hlit eq_refl) as [Hs Ha]. destruct (Hinfo "A" eq_refl) as (_ & _ & Hi).
  split; [reflexivity|]. split; [exact Hs|]. split; [exact Ha|exact Hi].
Defined.

(** * More on the selector *)

Section SelectorScope.
Context (QDB : bank) {N : Type} `{Num N}.

Lemma build_pool_known topics level (weights : gmap string N) :
  (forall t, t ∈ topics -> is_Some (bank_get QDB t)) ->
  exists pool, build_pool QDB topics level weights = Ok pool.
Proof.
  induction topics as [|t rest IH]; intros Hall; [exists []; reflexivity|]. cbn.
  destruct (Hall t) as [e ->]; [apply elem_of_cons; by left|].
  destruct IH as [pool ->]; [intros t' Ht'; apply Hall, elem_of_cons; by right|].
  eauto.
Qed.

Lemma build_pool_complete topics level (weights : gmap string N) pool t e q :
  build_pool QDB topics level weights = Ok pool ->
  t ∈ topics -> bank_get QDB t = Some e -> q ∈ questions_at e level ->
  exists x, (t, q, x) ∈ pool.
Proof.
  revert pool. induction topics as [|t0 rest IH]; intros pool; cbn.
  - intros _ Hin. inversion Hin.
  - destruct (bank_get QDB t0) as [e0|] eqn:He0; [|discriminate].
    destruct (build_pool QDB rest level weights) as [pool'|]; [|discriminate].
    intros [= <-] Hin He Hq.
    destruct (decide (t = t0)) as [->|Hne].
    + rewrite He0 in He. injection He as ->.
      exists (default nunit (weights !! t0)). apply elem_of_app. left.
      unfold pool_of_topic. apply list_elem_of_fmap. exists q. auto.
    + apply elem_of_cons in Hin as [?|Hin]; [contradiction|].
      destruct (IH pool' eq_refl Hin He Hq) as [x Hx].
      exists x. apply elem_of_app. by right.
Qed.

Lemma select_some (pool : list (string * question * N)) u k :
  pool ≠ [] -> is_Some (select pool u k).
Proof.
  intros Hne. destruct (walk pool nzero (nmul u (pool_total pool))) as [[t q]|] eqn:Hw.
  - unfold select. destruct pool; [contradiction|]. cbv zeta. rewrite Hw. eauto.
  - destruct (select_fallback pool u k Hne Hw) as (t & q & x & -> & _). eauto.
Qed.

(** [choose_question] over its whole domain.  For Mixed it never raises;
    for a topic that the bank does not have it raises KeyError.  What it
    returns is of the topic asked for or, for Mixed, of a topic of the
    bank.  It returns [None] only when no topic in scope has a question at
    the level: when there is one, a question is returned. *)
Theorem choose_question_scope topic level (weights : gmap string N) u k :
  (topic = "Mixed" ->
   exists r, choose_question QDB topic level weights u k = Ok r)
  ∧ (topic ≠ "Mixed" -> bank_get QDB topic = None ->
     choose_question QDB topic level weights u k = Raise (KeyError topic))
  ∧ (forall c,
       choose_question QDB topic level weights u k = Ok (Some c) ->
       if decide (topic = "Mixed") then chosen_topic c ∈ bank_keys QDB
       else chosen_topic c = topic)
  ∧ (forall t e q,
       t ∈ topics_in_scope QDB topic ->
       bank_get QDB t = Some e -> q ∈ questions_at e level ->
       choose_question QDB topic level weights u k ≠ Ok None).
Proof.
  unfold choose_question. split_and!.
  - intros ->. unfold topics_in_scope. rewrite decide_True by reflexivity.
    destruct (build_pool_known (bank_keys QDB) level weights) as [pool ->]; [|eauto].
    intros t. apply bank_get_keys.
  - intros Hm Hb. unfold topics_in_scope. rewrite decide_False by exact Hm.
    cbn. rewrite Hb. reflexivity.
  - intros c.
    destruct (build_pool _ _ _ _) as [pool|] eqn:Hp; [|discriminate].
    intros [= Hs]. destruct (select_entry _ _ _ _ Hs) as (t & q & x & Hin & Hc).
    destruct (build_pool_entry _ _ _ _ _ _ _ _ Hp Hin) as [Hscope _].
    assert (Ht : chosen_topic c = t) by (destruct Hc as [->| ->]; reflexivity).
    rewrite Ht. unfold topics_in_scope in Hscope.
    destruct (decide (topic = "Mixed")); [exact Hscope|].
    apply list_elem_of_singleton in Hscope. exact Hscope.
  - intros t e q Hscope He Hq.
    destruct (build_pool _ _ _ _) as [pool|] eqn:Hp; [|discriminate].
    destruct (build_pool_complete _ _ _ _ _ _ _ Hp Hscope He Hq) as [x Hx].
    assert (Hne : pool ≠ []) by (intros ->; inversion Hx).
    destruct (select_some pool u k Hne) as [c Hc]. rewrite Hc. discriminate.
Qed.
End SelectorScope.

(** In the small bank, Mixed at level easy gives a question of topic A or
    B, and topic C raises. *)
Lemma choose_question_scope_witness :
  let weights : gmap string float := {["A" := 1%float; "B" := 1%float]} in
  choose_question demo_bank "Mixed" "easy" weights 0.5%float 0
  = Ok (Some (Pair "A" demo_q1))
  ∧ choose_question demo_bank "C" "easy" weights 0.5%float 0 = Raise (KeyError "C")
  ∧ choose_question demo_bank "Mixed" "easy" weights 0.5%float 0 ≠ Ok None.
Proof.
  intros weights.
  destruct (choose_question_scope demo_bank "Mixed" "easy" weights 0.5%float 0)
    as (_ & _ & _ & Hmixed).
  destruct (choose_question_scope demo_bank "C" "easy" weights 0.5%float 0)
    as (_ & HC & _).
  split; [reflexivity|]. split; [apply HC; [discriminate|reflexivity]|].
  apply (Hmixed "A" (Topic "about A" {["easy" := [demo_q1]]}) demo_q1).
  - apply elem_of_cons. left. reflexivity.
  - reflexivity.
  - apply elem_of_cons. left. reflexivity.
Defined.

(** * Runs of correct answers *)

(** The streak is not reset when the level changes: from easy and a correct
    streak of 0, the third correct answer in a row leads to medium and the
    fourth to hard, where a fifth leaves the level. *)
Theorem fourth_correct_answer_reaches_hard QDB user_id w u s1 s2 s3 s4 s5 :
  user_of user_id w = Some u ->
  difficulty u = "easy" -> correct_streak u = 0 ->
  answers_correctly QDB (fst s1) = true ->
  answers_correctly QDB (fst s2) = true ->
  answers_correctly QDB (fst s3) = true ->
  answers_correctly QDB (fst s4) = true ->
  answers_correctly QDB (fst s5) = true ->
  exists u3 u4 u5,
    user_of user_id (answer_all QDB user_id [s1; s2; s3] w) = Some u3
    ∧ difficulty u3 = "medium" ∧ correct_streak u3 = 3
    ∧ user_of user_id (answer_all QDB user_id [s1; s2; s3; s4] w) = Some u4
    ∧ difficulty u4 = "hard" ∧ correct_streak u4 = 4
    ∧ user_of user_id (answer_all QDB user_id [s1; s2; s3; s4; s5] w) = Some u5
    ∧ difficulty u5 = "hard" ∧ correct_streak u5 = 5.
Proof.
  intros Hu Hd Hc H1 H2 H3 H4 H5. unfold answer_all. cbn [fold_left].
  destruct u as [n d c x a]. cbn in Hd, Hc. subst d c.
  pose proof (correct_step QDB (snd s1) w user_id _ _ 0 Hu H1 eq_refl) as Hu1.
  vm_compute with_difficulty in Hu1.
  pose proof (correct_step QDB (snd s2) _ user_id _ _ 0 Hu1 H2 eq_refl) as Hu2.
  vm_compute with_difficulty in Hu2.
  pose proof (correct_step QDB (snd s3) _ user_id _ _ 0 Hu2 H3 eq_refl) as Hu3.
  vm_compute with_difficulty in Hu3.
  pose proof (correct_step QDB (snd s4) _ user_id _ _ 1 Hu3 H4 eq_refl) as Hu4.
  vm_compute with_difficulty in Hu4.
  pose proof (correct_step QDB (snd s5) _ user_id _ _ 2 Hu4 H5 eq_refl) as Hu5.
  vm_compute with_difficulty in Hu5.
  eexists _, _, _.
  split_and!; [exact Hu3 | reflexivity | reflexivity | exact Hu4 | reflexivity
              | reflexivity | exact Hu5 | reflexivity | reflexivity].
Qed.

Lemma fourth_correct_answer_reaches_hard_witness :
  let s := (answer_parts "A" "Q1" "a", demo_env) in
  exists u3 u4 u5,
    user_of 1 (answer_all demo_bank 1 [s; s; s] demo_world) = Some u3
    ∧ difficulty u3 = "medium" ∧ correct_streak u3 = 3
    ∧ user_of 1 (answer_all demo_bank 1 [s; s; s; s] demo_world) = Some u4
    ∧ difficulty u4 = "hard" ∧ correct_streak u4 = 4
    ∧ user_of 1 (answer_all demo_bank 1 [s; s; s; s; s] demo_world) = Some u5
    ∧ difficulty u5 = "hard" ∧ correct_streak u5 = 5.
Proof.
  intros s.
  exact (fourth_correct_answer_reaches_hard demo_bank 1 demo_world
           (User "U1" "easy" 0 0 "Mixed") s s s s s
           eq_refl eq_refl eq_refl eq_refl eq_refl eq_refl eq_refl eq_refl).
Defined.

(** * Options that contain a bar *)

Lemma split_bar_head s :
  exists piece pieces,
    split_bar s = piece :: pieces ∧ no_bar piece = true
    ∧ (s = piece ∨ exists rest, s = piece +:+ String bar rest).
Proof.
  pose proof (split_bar_pieces s) as Hall. pose proof (join_split_bar s) as Hjoin.
  destruct (split_bar s) as [|piece pieces] eqn:Hs.
  { exfalso. exact (split_bar_not_nil s Hs). }
  exists piece, pieces. apply Forall_cons in Hall as [Hp _].
  split; [reflexivity|]. split; [exact Hp|].
  destruct pieces as [|p ps]; [left; exact (eq_sym Hjoin)|].
  right. exists (join_bar (p :: ps)). rewrite <- Hjoin. reflexivity.
Qed.

(** The option of a button is not escaped: what [cb_answer] reads as the
    selected option is the option up to its first bar.  A question whose
    answer contains a bar can therefore not be answered correctly with any
    of its buttons. *)
Theorem option_with_bar_is_cut t q :
  no_bar t = true -> no_bar (q_id q) = true ->
  (forall opt, exists selected,
     split_bar (answer_data t q opt) !! 3%nat = Some selected
     ∧ no_bar selected = true
     ∧ (opt = selected ∨ exists rest, opt = selected +:+ String bar rest))
  ∧ (no_bar (q_answer q) = false ->
     forall data selected,
       data ∈ keyboard t q ->
       split_bar data !! 3%nat = Some selected ->
       bool_decide (selected = q_answer q) = false).
Proof.
  intros Ht Hq.
  assert (Hopt : forall opt, exists selected,
     split_bar (answer_data t q opt) !! 3%nat = Some selected
     ∧ no_bar selected = true
     ∧ (opt = selected ∨ exists rest, opt = selected +:+ String bar rest)).
  { intros opt. rewrite (split_answer_data t q opt Ht Hq).
    destruct (split_bar_head opt) as (piece & pieces & -> & Hp & Hcut).
    exists piece. auto. }
  split; [exact Hopt|].
  intros Hans data selected Hin Hsel. apply bool_decide_eq_false.
  unfold keyboard in Hin. apply elem_of_app in Hin as [Hin|Hin].
  - apply list_elem_of_fmap in Hin as (opt & -> & _).
    destruct (Hopt opt) as (s & Hs & Hplain & _).
    rewrite Hs in Hsel. injection Hsel as <-.
    apply no_bar_differs; assumption.
  - apply list_elem_of_singleton in Hin. subst data. exfalso.
    unfold skip_data in Hsel.
    change ("skip|" +:+ t +:+ "|" +:+ q_id q)
      with ("skip" +:+ String bar (t +:+ String bar (q_id q))) in Hsel.
    rewrite !split_bar_app in Hsel by (assumption || reflexivity).
    rewrite (split_bar_plain _ Hq) in Hsel. discriminate.
Qed.

(** A question whose answer is [a|b]: the button of that option is read
    as [a]. *)
Lemma option_with_bar_is_cut_witness :
  let q := Question "Q3" "third" ["a|b"; "c"] "a|b" in
  split_bar (answer_data "A" q "a|b") = ["answer"; "A"; "Q3"; "a"; "b"]
  ∧ (forall opt, exists selected,
       split_bar (answer_data "A" q opt) !! 3%nat = Some selected
       ∧ no_bar selected = true
       ∧ (opt = selected ∨ exists rest, opt = selected +:+ String bar rest))
  ∧ (no_bar (q_answer q) = false ->
     forall data selected,
       data ∈ keyboard "A" q ->
       split_bar data !! 3%nat = Some selected ->
       bool_decide (selected = q_answer q) = false).
Proof.
  intros q. split; [reflexivity|].
  exact (option_with_bar_is_cut "A" q eq_refl eq_refl).
Defined.

(** * The handler of plain text *)

Lemma contains_occurs needle hay :
  contains needle hay = true <-> occurs_in needle hay.
Proof.
  unfold occurs_in. induction hay as [|c hay IH]; cbn [contains].
  - rewrite orb_false_r. split.
    + intros Hp. apply prefix_split in Hp as [rest Hrest].
      destruct needle; [|discriminate]. exists "", "". reflexivity.
    + intros (before & after & Heq). destruct before; [|discriminate].
      destruct needle; [reflexivity|discriminate].
  - rewrite orb_true_iff, IH. split.
    + intros [Hp|(before & after & ->)].
      * apply prefix_split in Hp as [rest ->]. exists "", rest. reflexivity.
      * exists (String c before), after. reflexivity.
    + intros (before & after & Heq). destruct before as [|c' before].
      * left. change ("" +:+ needle +:+ after) with (needle +:+ after) in Heq.
        rewrite Heq. apply prefix_append.
      * right. injection Heq as <- ->. eauto.
Qed.

Lemma rule_matches_mentioned text r :
  rule_matches text r = true <-> mentioned text r.
Proof.
  unfold rule_matches, mentioned. rewrite existsb_exists. split.
  - intros (keyword & Hin & Hc). exists keyword.
    split; [apply list_elem_of_In, Hin|apply contains_occurs, Hc].
  - intros (keyword & Hin & Hc). exists keyword.
    split; [apply list_elem_of_In, Hin|apply contains_occurs, Hc].
Qed.

Lemma first_rule_answers rules text k :
  match first_rule rules text k with
  | Ok MenuHint => forall r, r ∈ rules -> ¬ mentioned text r
  | Ok (Response s) =>
      exists r, first_mentioned rules text r
                ∧ responses r !! (k mod length (responses r))%nat = Some s
  | Raise e =>
      e = IndexError
      ∧ exists r, first_mentioned rules text r ∧ responses r = []
  end.
Proof.
  induction rules as [|r rest IH]; cbn [first_rule].
  - intros r Hin. inversion Hin.
  - destruct (rule_matches text r) eqn:Hr.
    + apply rule_matches_mentioned in Hr.
      assert (Hfirst : first_mentioned (r :: rest) text r).
      { exists [], rest. split; [reflexivity|]. split; [exact Hr|].
        intros r' Hin. inversion Hin. }
      destruct (responses r !! (k mod length (responses r))%nat) as [s|] eqn:Hs.
      * exists r. auto.
      * split; [reflexivity|]. exists r. split; [exact Hfirst|].
        destruct (responses r) as [|s0 l] eqn:Hl; [reflexivity|]. exfalso.
        apply lookup_ge_None in Hs.
        pose proof (Nat.mod_upper_bound k (length (s0 :: l))) as Hb.
        cbn [length] in *. lia.
    + assert (Hno : ¬ mentioned text r).
      { intros Hm. apply rule_matches_mentioned in Hm. congruence. }
      assert (Hlater : forall r0, first_mentioned rest text r0 ->
                                  first_mentioned (r :: rest) text r0).
      { intros r0 (before & after & -> & Hm & Hbefore).
        exists (r :: before), after. split; [reflexivity|]. split; [exact Hm|].
        intros r' Hin. apply elem_of_cons in Hin as [->|Hin]; auto. }
      destruct (first_rule rest text k) as [[s|]|e].
      * destruct IH as (r0 & Hfirst & Hs). exists r0. auto.
      * intros r' Hin. apply elem_of_cons in Hin as [->|Hin]; auto.
      * destruct IH as (-> & r0 & Hfirst & Hempty). split; [reflexivity|].
        exists r0. auto.
Qed.

(** [fallback] answers with a response of the first rule one of whose
    keywords occurs in the lowered text, the rules after it being ignored;
    when that rule has no response, [random.choice] raises IndexError; when
    no keyword of any rule occurs in the text, it answers with the hint at
    the menu. *)
Theorem fallback_first_rule RULES lower text k :
  match fallback RULES lower text k with
  | Ok MenuHint => forall r, r ∈ RULES -> ¬ mentioned (lower text) r
  | Ok (Response s) =>
      exists r, first_mentioned RULES (lower text) r ∧ s ∈ responses r
  | Raise e =>
      e = IndexError
      ∧ exists r, first_mentioned RULES (lower text) r ∧ responses r = []
  end.
Proof.
  unfold fallback. pose proof (first_rule_answers RULES (lower text) k) as H.
  destruct (first_rule RULES (lower text) k) as [[s|]|e]; [|exact H|exact H].
  destruct H as (r & Hfirst & Hs). exists r. split; [exact Hfirst|].
  eapply list_elem_of_lookup_2, Hs.
Qed.

(** Two rules that both mention a word of the text: the first one answers. *)
Lemma fallback_first_rule_witness :
  let rules := [Rule ["stack"; "queue"] ["LIFO and FIFO"];
                Rule ["help"; "stack"] ["Use the menu"]] in
  fallback rules id "what is a stack?" 5 = Ok (Response "LIFO and FIFO")
  ∧ fallback rules id "hello" 5 = Ok MenuHint
  ∧ match fallback rules id "what is a stack?" 5 with
    | Ok MenuHint => forall r, r ∈ rules -> ¬ mentioned (id "what is a stack?") r
    | Ok (Response s) =>
        exists r, first_mentioned rules (id "what is a stack?") r ∧ s ∈ responses r
    | Raise e =>
        e = IndexError
        ∧ exists r, first_mentioned rules (id "what is a stack?") r
                    ∧ responses r = []
    end.
Proof.
  intros rules. split; [reflexivity|]. split; [reflexivity|].
  exact (fallback_first_rule rules id "what is a stack?" 5).
Defined.
